(** * RentFlowCore: the escrow-backed lease and maintenance state machine

    A shallow embedding of [contracts/RentFlowCore.sol] (Solidity ^0.8.20):
    storage is a record of total mappings, every external function is a
    computation in a small state-and-revert monad, [uint256] arithmetic is the
    checked arithmetic of Solidity 0.8 (overflow reverts with [Panic 0x11]),
    and the token the contract talks to is an [IERC20] interface instance. *)

From Stdlib Require Import ZArith List String Bool Lia.
Import ListNotations.
Local Open Scope Z_scope.

(** ** Machine integers, addresses, mappings *)

Definition address := Z.
Definition uint256 := Z.

Definition MAX_UINT256 : Z := 2 ^ 256 - 1.
Arguments MAX_UINT256 : simpl never.

(** [address(0)]. *)
Definition address0 : address := 0.

(** The Solidity time unit [1 days]. *)
Definition DAY : Z := 86400.

(** A Solidity [mapping(uint256 => V)]: total, every key holds the zero value
    of [V] until it is written. *)
Definition mapping (V : Type) := Z -> V.

Definition upd {V : Type} (m : mapping V) (k : Z) (v : V) : mapping V :=
  fun k' => if k' =? k then v else m k'.

(** ** Enumerations and structs *)

Inductive LeaseStatus := LeaseActive | LeasePaused | LeaseTerminated | LeaseCompleted.

Inductive MaintenanceStatus := Pending | Approved | InProgress | Completed | Rejected.

Definition LeaseStatus_eqb (a b : LeaseStatus) : bool :=
  match a, b with
  | LeaseActive, LeaseActive | LeasePaused, LeasePaused
  | LeaseTerminated, LeaseTerminated | LeaseCompleted, LeaseCompleted => true
  | _, _ => false
  end.

Definition MaintenanceStatus_eqb (a b : MaintenanceStatus) : bool :=
  match a, b with
  | Pending, Pending | Approved, Approved | InProgress, InProgress
  | Completed, Completed | Rejected, Rejected => true
  | _, _ => false
  end.

Module Property.
Record t := mk {
  owner : address;
  monthlyRent : uint256;
  securityDeposit : uint256;
  isActive : bool;
  createdAt : uint256 }.
(** The value of a slot that was never written. *)
Definition zero : t := mk address0 0 0 false 0.
Definition set_isActive (b : bool) (p : t) : t :=
  mk (owner p) (monthlyRent p) (securityDeposit p) b (createdAt p).
End Property.

Module Lease.
Record t := mk {
  propertyId : uint256;
  tenant : address;
  startDate : uint256;
  endDate : uint256;
  rentDueDay : uint256;
  lastPaymentDate : uint256;
  totalPaid : uint256;
  status : LeaseStatus;
  securityDepositHeld : uint256 }.
Definition zero : t := mk 0 address0 0 0 0 0 0 LeaseActive 0.
Definition set_lastPaymentDate (v : uint256) (l : t) : t :=
  mk (propertyId l) (tenant l) (startDate l) (endDate l) (rentDueDay l)
     v (totalPaid l) (status l) (securityDepositHeld l).
Definition set_totalPaid (v : uint256) (l : t) : t :=
  mk (propertyId l) (tenant l) (startDate l) (endDate l) (rentDueDay l)
     (lastPaymentDate l) v (status l) (securityDepositHeld l).
Definition set_status (v : LeaseStatus) (l : t) : t :=
  mk (propertyId l) (tenant l) (startDate l) (endDate l) (rentDueDay l)
     (lastPaymentDate l) (totalPaid l) v (securityDepositHeld l).
Definition set_securityDepositHeld (v : uint256) (l : t) : t :=
  mk (propertyId l) (tenant l) (startDate l) (endDate l) (rentDueDay l)
     (lastPaymentDate l) (totalPaid l) (status l) v.
End Lease.

Module MaintenanceRequest.
Record t := mk {
  propertyId : uint256;
  requestedBy : address;
  description : string;
  estimatedCost : uint256;
  approvedAmount : uint256;
  contractor : address;
  status : MaintenanceStatus;
  createdAt : uint256 }.
Definition zero : t := mk 0 address0 EmptyString 0 0 address0 Pending 0.
Definition set_approvedAmount (v : uint256) (r : t) : t :=
  mk (propertyId r) (requestedBy r) (description r) (estimatedCost r)
     v (contractor r) (status r) (createdAt r).
Definition set_contractor (v : address) (r : t) : t :=
  mk (propertyId r) (requestedBy r) (description r) (estimatedCost r)
     (approvedAmount r) v (status r) (createdAt r).
Definition set_status (v : MaintenanceStatus) (r : t) : t :=
  mk (propertyId r) (requestedBy r) (description r) (estimatedCost r)
     (approvedAmount r) (contractor r) v (createdAt r).
End MaintenanceRequest.

(** ** Contract storage

    The state variables of [RentFlowCore], followed by the ones it inherits:
    [Ownable._owner], [Pausable._paused] and the [ReentrancyGuard] status
    ([entered] is [_status == ENTERED]). *)

Record Storage := mkStorage {
  properties : mapping Property.t;
  leases : mapping Lease.t;
  maintenanceRequests : mapping MaintenanceRequest.t;
  ownerProperties : mapping (list uint256);
  tenantLeases : mapping (list uint256);
  maintenanceFunds : mapping uint256;
  authorizedAIAgents : mapping bool;
  propertyCounter : uint256;
  leaseCounter : uint256;
  maintenanceCounter : uint256;
  owner : address;
  paused : bool;
  entered : bool }.

Definition set_properties (v : mapping Property.t) (s : Storage) : Storage :=
  mkStorage v (leases s) (maintenanceRequests s) (ownerProperties s) (tenantLeases s)
    (maintenanceFunds s) (authorizedAIAgents s) (propertyCounter s) (leaseCounter s)
    (maintenanceCounter s) (owner s) (paused s) (entered s).
Definition set_leases (v : mapping Lease.t) (s : Storage) : Storage :=
  mkStorage (properties s) v (maintenanceRequests s) (ownerProperties s) (tenantLeases s)
    (maintenanceFunds s) (authorizedAIAgents s) (propertyCounter s) (leaseCounter s)
    (maintenanceCounter s) (owner s) (paused s) (entered s).
Definition set_maintenanceRequests (v : mapping MaintenanceRequest.t) (s : Storage) : Storage :=
  mkStorage (properties s) (leases s) v (ownerProperties s) (tenantLeases s)
    (maintenanceFunds s) (authorizedAIAgents s) (propertyCounter s) (leaseCounter s)
    (maintenanceCounter s) (owner s) (paused s) (entered s).
Definition set_ownerProperties (v : mapping (list uint256)) (s : Storage) : Storage :=
  mkStorage (properties s) (leases s) (maintenanceRequests s) v (tenantLeases s)
    (maintenanceFunds s) (authorizedAIAgents s) (propertyCounter s) (leaseCounter s)
    (maintenanceCounter s) (owner s) (paused s) (entered s).
Definition set_tenantLeases (v : mapping (list uint256)) (s : Storage) : Storage :=
  mkStorage (properties s) (leases s) (maintenanceRequests s) (ownerProperties s) v
    (maintenanceFunds s) (authorizedAIAgents s) (propertyCounter s) (leaseCounter s)
    (maintenanceCounter s) (owner s) (paused s) (entered s).
Definition set_maintenanceFunds (v : mapping uint256) (s : Storage) : Storage :=
  mkStorage (properties s) (leases s) (maintenanceRequests s) (ownerProperties s) (tenantLeases s)
    v (authorizedAIAgents s) (propertyCounter s) (leaseCounter s)
    (maintenanceCounter s) (owner s) (paused s) (entered s).
Definition set_authorizedAIAgents (v : mapping bool) (s : Storage) : Storage :=
  mkStorage (properties s) (leases s) (maintenanceRequests s) (ownerProperties s) (tenantLeases s)
    (maintenanceFunds s) v (propertyCounter s) (leaseCounter s)
    (maintenanceCounter s) (owner s) (paused s) (entered s).
Definition set_propertyCounter (v : uint256) (s : Storage) : Storage :=
  mkStorage (properties s) (leases s) (maintenanceRequests s) (ownerProperties s) (tenantLeases s)
    (maintenanceFunds s) (authorizedAIAgents s) v (leaseCounter s)
    (maintenanceCounter s) (owner s) (paused s) (entered s).
Definition set_leaseCounter (v : uint256) (s : Storage) : Storage :=
  mkStorage (properties s) (leases s) (maintenanceRequests s) (ownerProperties s) (tenantLeases s)
    (maintenanceFunds s) (authorizedAIAgents s) (propertyCounter s) v
    (maintenanceCounter s) (owner s) (paused s) (entered s).
Definition set_maintenanceCounter (v : uint256) (s : Storage) : Storage :=
  mkStorage (properties s) (leases s) (maintenanceRequests s) (ownerProperties s) (tenantLeases s)
    (maintenanceFunds s) (authorizedAIAgents s) (propertyCounter s) (leaseCounter s)
    v (owner s) (paused s) (entered s).
Definition set_owner (v : address) (s : Storage) : Storage :=
  mkStorage (properties s) (leases s) (maintenanceRequests s) (ownerProperties s) (tenantLeases s)
    (maintenanceFunds s) (authorizedAIAgents s) (propertyCounter s) (leaseCounter s)
    (maintenanceCounter s) v (paused s) (entered s).
Definition set_paused (v : bool) (s : Storage) : Storage :=
  mkStorage (properties s) (leases s) (maintenanceRequests s) (ownerProperties s) (tenantLeases s)
    (maintenanceFunds s) (authorizedAIAgents s) (propertyCounter s) (leaseCounter s)
    (maintenanceCounter s) (owner s) v (entered s).
Definition set_entered (v : bool) (s : Storage) : Storage :=
  mkStorage (properties s) (leases s) (maintenanceRequests s) (ownerProperties s) (tenantLeases s)
    (maintenanceFunds s) (authorizedAIAgents s) (propertyCounter s) (leaseCounter s)
    (maintenanceCounter s) (owner s) (paused s) v.

(** ** Events *)

Inductive Event :=
| PropertyRegistered (propertyId : uint256) (owner : address) (monthlyRent : uint256)
| LeaseCreated (leaseId propertyId : uint256) (tenant : address)
| RentPaid (leaseId amount timestamp : uint256)
| RentOverdue (leaseId daysPastDue : uint256)
| MaintenanceRequested (requestId propertyId estimatedCost : uint256)
| MaintenanceApproved (requestId approvedAmount : uint256) (contractor : address)
| MaintenancePaid (requestId amount : uint256) (contractor : address)
| SecurityDepositReturned (leaseId : uint256) (tenant : address) (amount : uint256)
| AIAgentAuthorized (agent : address) (authorized : bool)
| MaintenanceFundAdded (propertyId amount : uint256)
| Paused (account : address)
| Unpaused (account : address)
| OwnershipTransferred (previousOwner newOwner : address).

(** ** Reverts *)

Inductive RevertReason :=
| Error (reason : string)                      (* require(cond, reason) *)
| Panic (code : Z)                             (* 0x11: checked arithmetic *)
| EnforcedPause                                (* Pausable.whenNotPaused *)
| ExpectedPause                                (* Pausable.whenPaused *)
| OwnableUnauthorizedAccount (account : address)
| OwnableInvalidOwner (account : address)
| ReentrancyGuardReentrantCall
| LedgerCallReverted.                          (* the token call itself reverted *)

Inductive Result (A : Type) :=
| Ok (a : A)
| Err (r : RevertReason).
Arguments Ok {A} a.
Arguments Err {A} r.

(** ** The token ledger

    [RentFlowCore] holds an [IERC20] and only ever calls [transfer] and
    [transferFrom] on it.  The first argument of both operations is the
    [msg.sender] the token sees (the calling contract).  A call either returns a
    boolean together with the ledger's new state, or reverts. *)

Inductive Reply (T : Type) :=
| Returned (success : bool) (t : T)
| Threw.
Arguments Returned {T} success t.
Arguments Threw {T}.

(** A reply the contract accepts: the call returned [true]. *)
Definition confirmed {T : Type} (r : Reply T) : bool :=
  match r with
  | Returned true _ => true
  | _ => false
  end.

Class IERC20 := {
  ledger : Type;
  balanceOf : ledger -> address -> uint256;
  transfer : address -> address -> uint256 -> ledger -> Reply ledger;
  transferFrom : address -> address -> address -> uint256 -> ledger -> Reply ledger }.

(** What the contract relies on when it reads a [true] reply as "the money has
    moved": a successful call debits the source and credits the destination by
    exactly the amount and touches no other balance (a transfer to oneself
    leaves the balance as it was). *)
Class StandardLedger (L : IERC20) : Prop := {
  transfer_moves : forall sender to amount t t',
    transfer sender to amount t = Returned true t' ->
    forall a, balanceOf t' a =
      balanceOf t a - (if a =? sender then amount else 0) + (if a =? to then amount else 0);
  transferFrom_moves : forall spender from to amount t t',
    transferFrom spender from to amount t = Returned true t' ->
    forall a, balanceOf t' a =
      balanceOf t a - (if a =? from then amount else 0) + (if a =? to then amount else 0) }.

(** The calls the contract issues to the ledger, in order. *)
Inductive LedgerOp :=
| OpTransfer (to : address) (amount : uint256)
| OpTransferFrom (from to : address) (amount : uint256).

Definition op_amount (o : LedgerOp) : uint256 :=
  match o with
  | OpTransfer _ a => a
  | OpTransferFrom _ _ a => a
  end.

(** ** MockUSDC

    [contracts/MockUSDC.sol] is OpenZeppelin's [ERC20] with a public [mint] and
    [burn].  Balances and allowances are mappings; [transfer] and
    [transferFrom] revert on a zero address, an insufficient balance or an
    insufficient allowance and return [true] otherwise.  Balances are bounded
    by the total supply, so the credit never wraps. *)

Record MockUSDC := mkMock {
  balances : mapping uint256;
  allowances : address -> mapping uint256 }.      (* owner -> spender -> amount *)

Definition mock_update (from to : address) (value : uint256) (t : MockUSDC) : Reply MockUSDC :=
  if from =? address0 then Threw
  else if to =? address0 then Threw
  else if balances t from <? value then Threw
  else
    let b1 := upd (balances t) from (balances t from - value) in
    let b2 := upd b1 to (b1 to + value) in
    Returned true (mkMock b2 (allowances t)).

Definition mock_transfer (sender to : address) (value : uint256) (t : MockUSDC) : Reply MockUSDC :=
  mock_update sender to value t.

Definition mock_transferFrom (spender from to : address) (value : uint256) (t : MockUSDC)
  : Reply MockUSDC :=
  let currentAllowance := allowances t from spender in
  if currentAllowance =? MAX_UINT256 then mock_update from to value t
  else if currentAllowance <? value then Threw
  else if (from =? address0) || (spender =? address0) then Threw
  else
    mock_update from to value
      (mkMock (balances t)
              (fun o => if o =? from then upd (allowances t from) spender (currentAllowance - value)
                        else allowances t o)).

Arguments mock_update : simpl never.
Arguments mock_transfer : simpl never.
Arguments mock_transferFrom : simpl never.

Definition mock_mint (to : address) (value : uint256) (t : MockUSDC) : MockUSDC :=
  mkMock (upd (balances t) to (balances t to + value)) (allowances t).

Definition mock_approve (holder spender : address) (value : uint256) (t : MockUSDC) : MockUSDC :=
  mkMock (balances t)
         (fun o => if o =? holder then upd (allowances t holder) spender value else allowances t o).

Definition mock_empty : MockUSDC := mkMock (fun _ => 0) (fun _ _ => 0).

#[export] Instance MockLedger : IERC20 := {|
  ledger := MockUSDC;
  balanceOf := balances;
  transfer := mock_transfer;
  transferFrom := mock_transferFrom |}.

(** ** The execution monad

    A transaction threads the contract storage, the ledger, the events emitted
    and the ledger calls issued so far; a revert discards all of them. *)

Record Env := mkEnv {
  msg_sender : address;
  block_timestamp : uint256 }.

Record Machine {L : IERC20} := mkMachine {
  storage : Storage;
  token : ledger;
  emitted : list Event;
  issued : list LedgerOp }.

Definition M {L : IERC20} (A : Type) : Type := Machine -> Result (A * Machine).

Definition ret {L : IERC20} {A : Type} (a : A) : M A := fun m => Ok (a, m).

Definition bind {L : IERC20} {A B : Type} (c : M A) (k : A -> M B) : M B :=
  fun m => match c m with
           | Ok (a, m') => k a m'
           | Err r => Err r
           end.

Notation "x <- c1 ;; c2" := (bind c1 (fun x => c2))
  (at level 61, c1 at next level, right associativity).
Notation "c1 ;; c2" := (bind c1 (fun _ => c2))
  (at level 61, right associativity).

Definition revert {L : IERC20} {A : Type} (r : RevertReason) : M A := fun _ => Err r.

Definition require {L : IERC20} (cond : bool) (reason : string) : M unit :=
  if cond then ret tt else revert (Error reason).

Definition read {L : IERC20} : M Storage := fun m => Ok (storage m, m).

Definition modify {L : IERC20} (f : Storage -> Storage) : M unit :=
  fun m => Ok (tt, mkMachine L (f (storage m)) (token m) (emitted m) (issued m)).

Definition emit {L : IERC20} (e : Event) : M unit :=
  fun m => Ok (tt, mkMachine L (storage m) (token m) (emitted m ++ [e]) (issued m)).

(** Solidity 0.8 checked arithmetic on [uint256]. *)
Definition checked_add {L : IERC20} (a b : uint256) : M uint256 :=
  if a + b <=? MAX_UINT256 then ret (a + b) else revert (Panic 17).

Definition checked_sub {L : IERC20} (a b : uint256) : M uint256 :=
  if b <=? a then ret (a - b) else revert (Panic 17).

Definition checked_mul {L : IERC20} (a b : uint256) : M uint256 :=
  if a * b <=? MAX_UINT256 then ret (a * b) else revert (Panic 17).

Section Contract.
Context {L : IERC20}.

(** [address(this)]: the account the ledger sees as the caller. *)
Variable this : address.

(** [USDC.transferFrom(from, to, amount)] and [USDC.transfer(to, amount)]. *)
Definition USDC_transferFrom (from to : address) (amount : uint256) : M bool :=
  fun m => match transferFrom this from to amount (token m) with
           | Returned ok t' =>
               Ok (ok, mkMachine L (storage m) t' (emitted m)
                                 (issued m ++ [OpTransferFrom from to amount]))
           | Threw => Err LedgerCallReverted
           end.

Definition USDC_transfer (to : address) (amount : uint256) : M bool :=
  fun m => match transfer this to amount (token m) with
           | Returned ok t' =>
               Ok (ok, mkMachine L (storage m) t' (emitted m)
                                 (issued m ++ [OpTransfer to amount]))
           | Threw => Err LedgerCallReverted
           end.

(** *** Modifiers *)

Definition onlyPropertyOwner {A : Type} (e : Env) (propertyId : uint256) (body : M A) : M A :=
  s <- read ;;
  require (Property.owner (properties s propertyId) =? msg_sender e) "Not property owner" ;;
  body.

Definition onlyAIAgent {A : Type} (e : Env) (body : M A) : M A :=
  s <- read ;;
  require (authorizedAIAgents s (msg_sender e)) "Not authorized AI agent" ;;
  body.

Definition validProperty {A : Type} (propertyId : uint256) (body : M A) : M A :=
  s <- read ;;
  require (Property.isActive (properties s propertyId)) "Property not active" ;;
  body.

Definition whenNotPaused {A : Type} (body : M A) : M A :=
  s <- read ;;
  (if paused s then revert EnforcedPause else ret tt) ;;
  body.

Definition whenPaused {A : Type} (body : M A) : M A :=
  s <- read ;;
  (if paused s then ret tt else revert ExpectedPause) ;;
  body.

Definition nonReentrant {A : Type} (body : M A) : M A :=
  s <- read ;;
  (if entered s then revert ReentrancyGuardReentrantCall else ret tt) ;;
  modify (set_entered true) ;;
  a <- body ;;
  modify (set_entered false) ;;
  ret a.

Definition onlyOwner {A : Type} (e : Env) (body : M A) : M A :=
  s <- read ;;
  (if owner s =? msg_sender e then ret tt
   else revert (OwnableUnauthorizedAccount (msg_sender e))) ;;
  body.

(** *** Property management *)

Definition registerProperty (e : Env) (monthlyRent securityDeposit : uint256) : M uint256 :=
  whenNotPaused (
    require (0 <? monthlyRent) "Rent must be positive" ;;
    require (monthlyRent <=? securityDeposit) "Deposit must be >= monthly rent" ;;
    s <- read ;;
    let propertyId := propertyCounter s in
    next <- checked_add propertyId 1 ;;
    modify (set_propertyCounter next) ;;
    modify (fun s => set_properties
      (upd (properties s) propertyId
           (Property.mk (msg_sender e) monthlyRent securityDeposit true (block_timestamp e))) s) ;;
    modify (fun s => set_ownerProperties
      (upd (ownerProperties s) (msg_sender e)
           (ownerProperties s (msg_sender e) ++ [propertyId])) s) ;;
    emit (PropertyRegistered propertyId (msg_sender e) monthlyRent) ;;
    ret propertyId).

Definition deactivateProperty (e : Env) (propertyId : uint256) : M unit :=
  onlyPropertyOwner e propertyId (
    modify (fun s => set_properties
      (upd (properties s) propertyId
           (Property.set_isActive false (properties s propertyId))) s)).

(** *** Lease management *)

Definition createLease (e : Env) (propertyId : uint256) (tenant : address)
    (startDate durationMonths rentDueDay : uint256) : M uint256 :=
  onlyPropertyOwner e propertyId (validProperty propertyId (
    require (negb (tenant =? address0)) "Invalid tenant address" ;;
    require (block_timestamp e <=? startDate) "Start date must be in future" ;;
    require ((0 <? durationMonths) && (durationMonths <=? 36)) "Duration must be 1-36 months" ;;
    require ((1 <=? rentDueDay) && (rentDueDay <=? 28)) "Rent due day must be 1-28" ;;
    s <- read ;;
    let leaseId := leaseCounter s in
    next <- checked_add leaseId 1 ;;
    modify (set_leaseCounter next) ;;
    let prop := properties s propertyId in
    ok <- USDC_transferFrom tenant this (Property.securityDeposit prop) ;;
    require ok "Security deposit transfer failed" ;;
    term <- checked_mul durationMonths (30 * DAY) ;;
    endDate <- checked_add startDate term ;;
    modify (fun s => set_leases
      (upd (leases s) leaseId
           (Lease.mk propertyId tenant startDate endDate rentDueDay 0 0 LeaseActive
                     (Property.securityDeposit prop))) s) ;;
    modify (fun s => set_tenantLeases
      (upd (tenantLeases s) tenant (tenantLeases s tenant ++ [leaseId])) s) ;;
    emit (LeaseCreated leaseId propertyId tenant) ;;
    ret leaseId)).

Definition payRent (e : Env) (leaseId : uint256) : M unit :=
  nonReentrant (whenNotPaused (
    s <- read ;;
    let lease := leases s leaseId in
    require (LeaseStatus_eqb (Lease.status lease) LeaseActive) "Lease not active" ;;
    require (msg_sender e =? Lease.tenant lease) "Only tenant can pay" ;;
    require (Lease.startDate lease <=? block_timestamp e) "Lease hasn't started" ;;
    require (block_timestamp e <=? Lease.endDate lease) "Lease has ended" ;;
    let prop := properties s (Lease.propertyId lease) in
    let rentAmount := Property.monthlyRent prop in
    ok <- USDC_transferFrom (msg_sender e) (Property.owner prop) rentAmount ;;
    require ok "Rent payment failed" ;;
    modify (fun s => set_leases
      (upd (leases s) leaseId
           (Lease.set_lastPaymentDate (block_timestamp e) (leases s leaseId))) s) ;;
    s' <- read ;;
    total <- checked_add (Lease.totalPaid (leases s' leaseId)) rentAmount ;;
    modify (fun s => set_leases
      (upd (leases s) leaseId (Lease.set_totalPaid total (leases s leaseId))) s) ;;
    emit (RentPaid leaseId rentAmount (block_timestamp e)))).

Definition checkRentOverdue (e : Env) (leaseId : uint256) : M unit :=
  onlyAIAgent e (
    s <- read ;;
    let lease := leases s leaseId in
    require (LeaseStatus_eqb (Lease.status lease) LeaseActive) "Lease not active" ;;
    neverPaidAndLate <-
      (if Lease.lastPaymentDate lease =? 0 then
         grace <- checked_add (Lease.startDate lease) (5 * DAY) ;;
         ret (grace <? block_timestamp e)
       else ret false) ;;
    if neverPaidAndLate then
      elapsed <- checked_sub (block_timestamp e) (Lease.startDate lease) ;;
      emit (RentOverdue leaseId (elapsed / DAY))
    else if 0 <? Lease.lastPaymentDate lease then
      elapsed <- checked_sub (block_timestamp e) (Lease.lastPaymentDate lease) ;;
      let daysSincePayment := elapsed / DAY in
      if 35 <? daysSincePayment then
        overdue <- checked_sub daysSincePayment 30 ;;
        emit (RentOverdue leaseId overdue)
      else ret tt
    else ret tt).

(** *** Maintenance management *)

Fixpoint scan_leases (ls : mapping Lease.t) (propertyId : uint256) (userLeases : list uint256)
  : bool :=
  match userLeases with
  | [] => false
  | i :: rest =>
      if (Lease.propertyId (ls i) =? propertyId)
         && LeaseStatus_eqb (Lease.status (ls i)) LeaseActive
      then true
      else scan_leases ls propertyId rest
  end.

Definition _isTenantOfProperty (s : Storage) (user : address) (propertyId : uint256) : bool :=
  scan_leases (leases s) propertyId (tenantLeases s user).

Definition requestMaintenance (e : Env) (propertyId : uint256) (description : string)
    (estimatedCost : uint256) : M uint256 :=
  validProperty propertyId (
    s <- read ;;
    require ((Property.owner (properties s propertyId) =? msg_sender e)
             || _isTenantOfProperty s (msg_sender e) propertyId)
            "Not authorized for this property" ;;
    require (0 <? Z.of_nat (String.length description)) "Description required" ;;
    require (0 <? estimatedCost) "Estimated cost must be positive" ;;
    let requestId := maintenanceCounter s in
    next <- checked_add requestId 1 ;;
    modify (set_maintenanceCounter next) ;;
    modify (fun s => set_maintenanceRequests
      (upd (maintenanceRequests s) requestId
           (MaintenanceRequest.mk propertyId (msg_sender e) description estimatedCost
                                  0 address0 Pending (block_timestamp e))) s) ;;
    emit (MaintenanceRequested requestId propertyId estimatedCost) ;;
    ret requestId).

Definition autoApprovalLimit : uint256 := 500 * 10 ^ 6.

Definition approveMaintenance (e : Env) (requestId approvedAmount : uint256)
    (contractor : address) : M unit :=
  onlyAIAgent e (
    s <- read ;;
    let request := maintenanceRequests s requestId in
    require (MaintenanceStatus_eqb (MaintenanceRequest.status request) Pending)
            "Request not pending" ;;
    require (0 <? approvedAmount) "Approved amount must be positive" ;;
    require (negb (contractor =? address0)) "Invalid contractor address" ;;
    require (approvedAmount <=? autoApprovalLimit) "Exceeds AI approval limit" ;;
    modify (fun s => set_maintenanceRequests
      (upd (maintenanceRequests s) requestId
           (MaintenanceRequest.set_approvedAmount approvedAmount
              (maintenanceRequests s requestId))) s) ;;
    modify (fun s => set_maintenanceRequests
      (upd (maintenanceRequests s) requestId
           (MaintenanceRequest.set_contractor contractor
              (maintenanceRequests s requestId))) s) ;;
    modify (fun s => set_maintenanceRequests
      (upd (maintenanceRequests s) requestId
           (MaintenanceRequest.set_status Approved
              (maintenanceRequests s requestId))) s) ;;
    emit (MaintenanceApproved requestId approvedAmount contractor)).

Definition fundMaintenance (e : Env) (propertyId amount : uint256) : M unit :=
  onlyPropertyOwner e propertyId (nonReentrant (
    require (0 <? amount) "Amount must be positive" ;;
    ok <- USDC_transferFrom (msg_sender e) this amount ;;
    require ok "Funding transfer failed" ;;
    s <- read ;;
    total <- checked_add (maintenanceFunds s propertyId) amount ;;
    modify (set_maintenanceFunds (upd (maintenanceFunds s) propertyId total)) ;;
    emit (MaintenanceFundAdded propertyId amount))).

Definition payMaintenanceContractor (e : Env) (requestId : uint256) : M unit :=
  nonReentrant (
    s <- read ;;
    let request := maintenanceRequests s requestId in
    require (MaintenanceStatus_eqb (MaintenanceRequest.status request) Approved)
            "Not approved" ;;
    let propertyId := MaintenanceRequest.propertyId request in
    require ((msg_sender e =? Property.owner (properties s propertyId))
             || authorizedAIAgents s (msg_sender e))
            "Not authorized" ;;
    let amount := MaintenanceRequest.approvedAmount request in
    require (amount <=? maintenanceFunds s propertyId) "Insufficient maintenance funds" ;;
    rest <- checked_sub (maintenanceFunds s propertyId) amount ;;
    modify (set_maintenanceFunds (upd (maintenanceFunds s) propertyId rest)) ;;
    modify (fun s => set_maintenanceRequests
      (upd (maintenanceRequests s) requestId
           (MaintenanceRequest.set_status Completed (maintenanceRequests s requestId))) s) ;;
    s' <- read ;;
    let contractor := MaintenanceRequest.contractor (maintenanceRequests s' requestId) in
    ok <- USDC_transfer contractor amount ;;
    require ok "Contractor payment failed" ;;
    emit (MaintenancePaid requestId amount contractor)).

(** *** Security deposit management *)

Definition returnSecurityDeposit (e : Env) (leaseId deductionAmount : uint256) : M unit :=
  nonReentrant (
    s <- read ;;
    let lease := leases s leaseId in
    require ((msg_sender e =? Property.owner (properties s (Lease.propertyId lease)))
             || authorizedAIAgents s (msg_sender e))
            "Not authorized" ;;
    require (LeaseStatus_eqb (Lease.status lease) LeaseCompleted
             || (Lease.endDate lease <? block_timestamp e))
            "Lease not completed" ;;
    require (deductionAmount <=? Lease.securityDepositHeld lease) "Deduction exceeds deposit" ;;
    returnAmount <- checked_sub (Lease.securityDepositHeld lease) deductionAmount ;;
    modify (fun s => set_leases
      (upd (leases s) leaseId (Lease.set_securityDepositHeld 0 (leases s leaseId))) s) ;;
    modify (fun s => set_leases
      (upd (leases s) leaseId (Lease.set_status LeaseCompleted (leases s leaseId))) s) ;;
    s' <- read ;;
    let lease' := leases s' leaseId in
    (if 0 <? returnAmount then
       ok <- USDC_transfer (Lease.tenant lease') returnAmount ;;
       require ok "Deposit return failed"
     else ret tt) ;;
    (if 0 <? deductionAmount then
       ok <- USDC_transfer (Property.owner (properties s' (Lease.propertyId lease')))
                           deductionAmount ;;
       require ok "Deduction transfer failed"
     else ret tt) ;;
    emit (SecurityDepositReturned leaseId (Lease.tenant lease') returnAmount)).

(** *** AI agent management, emergency functions, inherited ownership *)

Definition setAIAgent (e : Env) (agent : address) (authorized : bool) : M unit :=
  onlyOwner e (
    require (negb (agent =? address0)) "Invalid agent address" ;;
    modify (fun s => set_authorizedAIAgents (upd (authorizedAIAgents s) agent authorized) s) ;;
    emit (AIAgentAuthorized agent authorized)).

Definition pause (e : Env) : M unit :=
  onlyOwner e (whenNotPaused (
    modify (set_paused true) ;;
    emit (Paused (msg_sender e)))).

Definition unpause (e : Env) : M unit :=
  onlyOwner e (whenPaused (
    modify (set_paused false) ;;
    emit (Unpaused (msg_sender e)))).

Definition transferOwnership (e : Env) (newOwner : address) : M unit :=
  onlyOwner e (
    (if newOwner =? address0 then revert (OwnableInvalidOwner address0) else ret tt) ;;
    s <- read ;;
    modify (set_owner newOwner) ;;
    emit (OwnershipTransferred (owner s) newOwner)).

Definition renounceOwnership (e : Env) : M unit :=
  onlyOwner e (
    s <- read ;;
    modify (set_owner address0) ;;
    emit (OwnershipTransferred (owner s) address0)).

(** *** View functions *)

Definition getOwnerProperties (s : Storage) (owner : address) : list uint256 :=
  ownerProperties s owner.

Definition getTenantLeases (s : Storage) (tenant : address) : list uint256 :=
  tenantLeases s tenant.

Definition getMaintenanceFundBalance (s : Storage) (propertyId : uint256) : uint256 :=
  maintenanceFunds s propertyId.

(** *** Deployment and transactions *)

Definition initial_storage (deployer : address) : Storage :=
  mkStorage (fun _ => Property.zero) (fun _ => Lease.zero) (fun _ => MaintenanceRequest.zero)
            (fun _ => []) (fun _ => []) (fun _ => 0) (fun _ => false)
            0 0 0 deployer false false.

Definition deploy (deployer usdcAddress : address) : Result Storage :=
  if deployer =? address0 then Err (OwnableInvalidOwner address0)
  else if usdcAddress =? address0 then Err (Error "Invalid USDC address")
  else Ok (initial_storage deployer).

(** The external, state-changing entry points. *)
Inductive Call :=
| RegisterProperty (monthlyRent securityDeposit : uint256)
| DeactivateProperty (propertyId : uint256)
| CreateLease (propertyId : uint256) (tenant : address)
              (startDate durationMonths rentDueDay : uint256)
| PayRent (leaseId : uint256)
| CheckRentOverdue (leaseId : uint256)
| RequestMaintenance (propertyId : uint256) (description : string) (estimatedCost : uint256)
| ApproveMaintenance (requestId approvedAmount : uint256) (contractor : address)
| FundMaintenance (propertyId amount : uint256)
| PayMaintenanceContractor (requestId : uint256)
| ReturnSecurityDeposit (leaseId deductionAmount : uint256)
| SetAIAgent (agent : address) (authorized : bool)
| DoPause
| DoUnpause
| TransferOwnership (newOwner : address)
| RenounceOwnership.

Definition returning_nothing (c : M unit) : M (option uint256) :=
  _ <- c ;; ret None.

Definition returning_id (c : M uint256) : M (option uint256) :=
  v <- c ;; ret (Some v).

Definition dispatch (e : Env) (c : Call) : M (option uint256) :=
  match c with
  | RegisterProperty r d => returning_id (registerProperty e r d)
  | DeactivateProperty p => returning_nothing (deactivateProperty e p)
  | CreateLease p t sd dm rd => returning_id (createLease e p t sd dm rd)
  | PayRent l => returning_nothing (payRent e l)
  | CheckRentOverdue l => returning_nothing (checkRentOverdue e l)
  | RequestMaintenance p d c => returning_id (requestMaintenance e p d c)
  | ApproveMaintenance r a c => returning_nothing (approveMaintenance e r a c)
  | FundMaintenance p a => returning_nothing (fundMaintenance e p a)
  | PayMaintenanceContractor r => returning_nothing (payMaintenanceContractor e r)
  | ReturnSecurityDeposit l d => returning_nothing (returnSecurityDeposit e l d)
  | SetAIAgent a b => returning_nothing (setAIAgent e a b)
  | DoPause => returning_nothing (pause e)
  | DoUnpause => returning_nothing (unpause e)
  | TransferOwnership a => returning_nothing (transferOwnership e a)
  | RenounceOwnership => returning_nothing (renounceOwnership e)
  end.

(** What a transaction leaves behind: on success the new storage, the new
    ledger, the events and the ledger calls; on a revert only the reason. *)
Inductive Outcome :=
| Success (returned : option uint256) (s : Storage) (t : ledger)
          (events : list Event) (ops : list LedgerOp)
| Reverted (r : RevertReason).

Definition run {A : Type} (c : M A) (s : Storage) (t : ledger) : Result (A * Machine) :=
  c (mkMachine L s t [] []).

Definition exec (e : Env) (c : Call) (s : Storage) (t : ledger) : Outcome :=
  match run (dispatch e c) s t with
  | Ok (v, m) => Success v (storage m) (token m) (emitted m) (issued m)
  | Err r => Reverted r
  end.

(** Storage and ledger after the transaction; a revert rolls both back. *)
Definition storage_after (o : Outcome) (s : Storage) : Storage :=
  match o with
  | Success _ s' _ _ _ => s'
  | Reverted _ => s
  end.

Definition ledger_after (o : Outcome) (t : ledger) : ledger :=
  match o with
  | Success _ _ t' _ _ => t'
  | Reverted _ => t
  end.

Definition succeeded (o : Outcome) : bool :=
  match o with
  | Success _ _ _ _ _ => true
  | Reverted _ => false
  end.

(** The events and ledger calls of a transaction; a reverted one has none. *)
Definition events_of (o : Outcome) : list Event :=
  match o with
  | Success _ _ _ events _ => events
  | Reverted _ => []
  end.

Definition ops_of (o : Outcome) : list LedgerOp :=
  match o with
  | Success _ _ _ _ ops => ops
  | Reverted _ => []
  end.

End Contract.

(** ** Reachable states

    A state is reachable when it is the deployment state or follows a reachable
    state by one transaction sent from an externally owned account (never the
    zero address, never the contract itself), whatever the ledger holds at that
    moment.  A reverted transaction leaves the storage as it was. *)

Definition external_caller (this : address) (e : Env) : Prop :=
  msg_sender e <> address0 /\ msg_sender e <> this.

Inductive reachable {L : IERC20} (this : address) : Storage -> Prop :=
| reachable_deploy : forall deployer,
    this <> address0 -> deployer <> address0 -> deployer <> this ->
    reachable this (initial_storage deployer)
| reachable_step : forall s e c t,
    reachable this s -> external_caller this e ->
    reachable this (storage_after (exec this e c s t) s).

(** [evolves this s s']: the storage [s'] follows [s] after any number of
    transactions, sent by anyone, at any time, against any ledger. *)
Inductive evolves {L : IERC20} (this : address) : Storage -> Storage -> Prop :=
| evolves_refl : forall s, evolves this s s
| evolves_step : forall s s' e c t,
    evolves this s s' ->
    evolves this s (storage_after (exec this e c s' t) s').

(** Replaying a list of transactions from a given storage and ledger. *)
Fixpoint replay {L : IERC20} (this : address) (s : Storage) (t : ledger)
    (calls : list (Env * Call)) : Storage * ledger :=
  match calls with
  | [] => (s, t)
  | (e, c) :: rest =>
      let o := exec this e c s t in
      replay this (storage_after o s) (ledger_after o t) rest
  end.

(** How many of the replayed transactions went through. *)
Fixpoint successes {L : IERC20} (this : address) (s : Storage) (t : ledger)
    (calls : list (Env * Call)) : Z :=
  match calls with
  | [] => 0
  | (e, c) :: rest =>
      let o := exec this e c s t in
      (if succeeded o then 1 else 0)
      + successes this (storage_after o s) (ledger_after o t) rest
  end.

(** Modelled from the spec: the error taxonomy of section 7, which the contract
    itself does not have (it reverts with reason strings and with the custom
    errors of the OpenZeppelin base contracts).  Each revert reason of the code
    is filed under the kind the spec describes for it. *)
Inductive ErrorKind :=
| Unauthorized | InvalidInput | InvalidState | LimitExceeded
| InsufficientFunds | FundsTransferFailed | ArithmeticOverflow.

Definition one_of (s : string) (l : list string) : bool :=
  existsb (String.eqb s) l.

Definition classify (r : RevertReason) : ErrorKind :=
  match r with
  | Error msg =>
      if one_of msg ["Not property owner"; "Not authorized AI agent"; "Not authorized";
                     "Only tenant can pay"; "Not authorized for this property"]%string
      then Unauthorized
      else if one_of msg ["Exceeds AI approval limit"]%string then LimitExceeded
      else if one_of msg ["Insufficient maintenance funds"]%string then InsufficientFunds
      else if one_of msg ["Security deposit transfer failed"; "Rent payment failed";
                          "Funding transfer failed"; "Contractor payment failed";
                          "Deposit return failed"; "Deduction transfer failed"]%string
      then FundsTransferFailed
      else if one_of msg ["Property not active"; "Lease not active"; "Lease hasn't started";
                          "Lease has ended"; "Request not pending"; "Not approved";
                          "Lease not completed"]%string
      then InvalidState
      else InvalidInput
  | Panic _ => ArithmeticOverflow
  | EnforcedPause | ExpectedPause | ReentrancyGuardReentrantCall => InvalidState
  | OwnableUnauthorizedAccount _ => Unauthorized
  | OwnableInvalidOwner _ => InvalidInput
  | LedgerCallReverted => FundsTransferFailed
  end.

(** ** Notions used in the statements *)

(** The total amount of a list of ledger calls. *)
Definition total_moved (ops : list LedgerOp) : Z :=
  fold_right (fun o acc => op_amount o + acc) 0 ops.

(** A sequence of [payRent] calls on one lease, one per caller and time. *)
Definition rent_calls (leaseId : uint256) (envs : list Env) : list (Env * Call) :=
  map (fun e => (e, PayRent leaseId)) envs.

(** The guards [createLease] evaluates before it pulls the deposit, counter
    increment included. *)
Definition createLease_reaches_pull (e : Env) (s : Storage) (propertyId : uint256)
    (tenant : address) (startDate durationMonths rentDueDay : uint256) : bool :=
  (Property.owner (properties s propertyId) =? msg_sender e)
  && Property.isActive (properties s propertyId)
  && negb (tenant =? address0)
  && (block_timestamp e <=? startDate)
  && ((0 <? durationMonths) && (durationMonths <=? 36))
  && ((1 <=? rentDueDay) && (rentDueDay <=? 28))
  && (leaseCounter s + 1 <=? MAX_UINT256).

(** The overdue rule in the words of the spec (section 4.3): a lease that was
    never paid ([lastPaymentDate = 0]) is overdue once [now] is more than five
    days past its start, by the whole days elapsed since the start; a lease
    that was paid is overdue once more than 35 whole days have passed since the
    last payment, by that number of days minus 30. *)
Definition spec_overdue_signal (now : uint256) (lease : Lease.t) : option uint256 :=
  if (Lease.lastPaymentDate lease =? 0) && (Lease.startDate lease + 5 * DAY <? now)
  then Some ((now - Lease.startDate lease) / DAY)
  else if (0 <? Lease.lastPaymentDate lease)
          && (35 <? (now - Lease.lastPaymentDate lease) / DAY)
  then Some ((now - Lease.lastPaymentDate lease) / DAY - 30)
  else None.

(** ** State predicates *)

(** Approved amounts are never negative. *)
Definition approved_nonneg (s : Storage) : Prop :=
  forall r, 0 <= MaintenanceRequest.approvedAmount (maintenanceRequests s r).

(** A request that is still [Pending] has no approved amount and no contractor. *)
Definition pending_is_blank (s : Storage) : Prop :=
  forall r, MaintenanceRequest.status (maintenanceRequests s r) = Pending ->
    MaintenanceRequest.approvedAmount (maintenanceRequests s r) = 0 /\
    MaintenanceRequest.contractor (maintenanceRequests s r) = address0.

(** Property slots at or above [propertyCounter] were never written. *)
Definition fresh_properties (s : Storage) : Prop :=
  forall p, propertyCounter s <= p -> properties s p = Property.zero.

(** Lease slots at or above [leaseCounter] have no tenant. *)
Definition fresh_leases (s : Storage) : Prop :=
  forall l, leaseCounter s <= l -> Lease.tenant (leases s l) = address0.

(** An active property asks for a positive deposit. *)
Definition deposits_positive (s : Storage) : Prop :=
  forall p, Property.isActive (properties s p) = true ->
    0 < Property.securityDeposit (properties s p).

(** The contract itself never owns a property. *)
Definition not_self_owned (this : address) (s : Storage) : Prop :=
  forall p, Property.owner (properties s p) <> this.

(** The invariants of the reachable states, together. *)
Record Inv (this : address) (s : Storage) : Prop := {
  inv_entered : entered s = false;
  inv_approved_nonneg : approved_nonneg s;
  inv_funds : forall p, 0 <= maintenanceFunds s p <= MAX_UINT256;
  inv_pending : pending_is_blank s;
  inv_fresh_properties : fresh_properties s;
  inv_fresh_leases : fresh_leases s;
  inv_deposits : deposits_positive s;
  inv_not_self_owned : not_self_owned this s }.

(** ** Concrete scenarios on the mock ledger

    The accounts of the test suite: the contract owner, a property owner, a
    tenant, an AI agent, a contractor and an unrelated account; the contract
    itself sits at [RENTFLOW]. *)

Definition RENTFLOW : address := 1000.
Definition OWNER : address := 1.
Definition PROPERTY_OWNER : address := 2.
Definition TENANT : address := 3.
Definition AI_AGENT : address := 4.
Definition CONTRACTOR : address := 5.
Definition STRANGER : address := 6.

(** Whole token units at six decimals. *)
Definition usdc (units : Z) : uint256 := units * 10 ^ 6.

Definition at_time (sender : address) (now : uint256) : Env := mkEnv sender now.

(** Balances as the test suite's [beforeEach] mints them, with the tenant and
    the property owner having approved the contract for any amount. *)
Definition funded_ledger : MockUSDC :=
  mock_approve PROPERTY_OWNER RENTFLOW MAX_UINT256
    (mock_approve TENANT RENTFLOW MAX_UINT256
       (mock_mint CONTRACTOR (usdc 10000)
          (mock_mint TENANT (usdc 50000)
             (mock_mint PROPERTY_OWNER (usdc 100000) mock_empty)))).

(** The state a list of transactions leads to, from deployment by [OWNER]. *)
Definition scenario (calls : list (Env * Call)) : Storage * MockUSDC :=
  replay RENTFLOW (initial_storage OWNER) funded_ledger calls.

(** One registered property (rent and deposit of 2500 units), no lease yet. *)
Definition registered : list (Env * Call) :=
  [ (at_time OWNER 100, SetAIAgent AI_AGENT true);
    (at_time PROPERTY_OWNER 100, RegisterProperty (usdc 2500) (usdc 2500)) ].


(** Deployment, agent authorization, one property, one maintenance request
    approved for 150 units; nothing was paid into the escrow. *)
Definition approved_unfunded : list (Env * Call) :=
  [ (at_time OWNER 100, SetAIAgent AI_AGENT true);
    (at_time PROPERTY_OWNER 100, RegisterProperty (usdc 2500) (usdc 2500));
    (at_time PROPERTY_OWNER 100, RequestMaintenance 0 "Fix leak" (usdc 150));
    (at_time AI_AGENT 100, ApproveMaintenance 0 (usdc 150) CONTRACTOR) ].

(** An approved request of 150 units with 250 units in the escrow. *)
Definition funded_approved : list (Env * Call) :=
  [ (at_time OWNER 100, SetAIAgent AI_AGENT true);
    (at_time PROPERTY_OWNER 100, RegisterProperty (usdc 2500) (usdc 2500));
    (at_time PROPERTY_OWNER 100, RequestMaintenance 0 "Fix leak" (usdc 150));
    (at_time AI_AGENT 100, ApproveMaintenance 0 (usdc 150) CONTRACTOR);
    (at_time PROPERTY_OWNER 100, FundMaintenance 0 (usdc 250)) ].

(** The same, with 100 units of escrow and the request paid out of 250. *)
Definition paid_request : list (Env * Call) :=
  [ (at_time OWNER 100, SetAIAgent AI_AGENT true);
    (at_time PROPERTY_OWNER 100, RegisterProperty (usdc 2500) (usdc 2500));
    (at_time PROPERTY_OWNER 100, RequestMaintenance 0 "Fix leak" (usdc 150));
    (at_time AI_AGENT 100, ApproveMaintenance 0 (usdc 150) CONTRACTOR);
    (at_time PROPERTY_OWNER 100, FundMaintenance 0 (usdc 250));
    (at_time PROPERTY_OWNER 100, PayMaintenanceContractor 0) ].

(** The contract with an approved, funded request, then paused by its owner. *)
Definition paused_contract : list (Env * Call) :=
  funded_approved ++ [ (at_time OWNER 150, DoPause) ].

(** A one-month lease starting at time 100, and the time just after its end. *)
Definition lease_end : uint256 := 100 + 30 * DAY.

(** The registered property, leased to the tenant for that month. *)
Definition leased : list (Env * Call) :=
  [ (at_time OWNER 100, SetAIAgent AI_AGENT true);
    (at_time PROPERTY_OWNER 100, RegisterProperty (usdc 2500) (usdc 2500));
    (at_time PROPERTY_OWNER 100, CreateLease 0 TENANT 100 1 1) ].

(** The same lease, settled after its end with a deduction of 500 units. *)
Definition settled : list (Env * Call) :=
  leased ++
  [ (at_time PROPERTY_OWNER (lease_end + 1), ReturnSecurityDeposit 0 (usdc 500)) ].

(** The leased property, deactivated by its owner. *)
Definition leased_then_deactivated : list (Env * Call) :=
  leased ++ [ (at_time PROPERTY_OWNER 150, DeactivateProperty 0) ].

(** The property owner leases the property to their own account. *)
Definition self_leased : list (Env * Call) :=
  [ (at_time OWNER 100, SetAIAgent AI_AGENT true);
    (at_time PROPERTY_OWNER 100, RegisterProperty (usdc 2500) (usdc 2500));
    (at_time PROPERTY_OWNER 100, CreateLease 0 PROPERTY_OWNER 100 12 1) ].

(** A request id that an agent approves before any request was made: the
    escrow of property 0 holds 250 units and [maintenanceCounter] is still 0. *)
Definition approved_ahead (requestId : uint256) : list (Env * Call) :=
  registered ++
  [ (at_time PROPERTY_OWNER 100, FundMaintenance 0 (usdc 250));
    (at_time AI_AGENT 100, ApproveMaintenance requestId (usdc 100) CONTRACTOR) ].

(** The leased property, with the contract then paused by its owner. *)
Definition leased_then_paused : list (Env * Call) :=
  leased ++ [ (at_time OWNER 150, DoPause) ].

(** A property owner who holds [2 ^ 255] units leases a property to their own
    account at a rent (and deposit) of [2 ^ 254] units and pays the rent three
    times: [totalPaid] stands at [3 * 2 ^ 254]. *)
Definition huge_rent : uint256 := 2 ^ 254.

Definition whale_ledger : MockUSDC :=
  mock_approve PROPERTY_OWNER RENTFLOW MAX_UINT256
    (mock_mint PROPERTY_OWNER (2 ^ 255) mock_empty).

Definition paid_to_the_brim : Storage * MockUSDC :=
  replay RENTFLOW (initial_storage OWNER) whale_ledger
    [ (at_time PROPERTY_OWNER 100, RegisterProperty huge_rent huge_rent);
      (at_time PROPERTY_OWNER 100, CreateLease 0 PROPERTY_OWNER 100 12 1);
      (at_time PROPERTY_OWNER 200, PayRent 0);
      (at_time PROPERTY_OWNER 300, PayRent 0);
      (at_time PROPERTY_OWNER 400, PayRent 0) ].

(** ** The contract deployed on MockUSDC

    Between two transactions of the contract, other accounts operate on the
    token directly.  These are MockUSDC's own entry points, as OpenZeppelin's
    [ERC20] defines them; a call that reverts leaves the ledger as it was. *)

Inductive TokenCall :=
| Approve (spender : address) (value : uint256)
| Transfer (to : address) (value : uint256)
| TransferFrom (from to : address) (value : uint256)
| Mint (to : address) (value : uint256)
| Burn (value : uint256).

Definition token_value (c : TokenCall) : uint256 :=
  match c with
  | Approve _ v | Transfer _ v | TransferFrom _ _ v | Mint _ v | Burn v => v
  end.

Definition settle_reply (r : Reply MockUSDC) (t : MockUSDC) : MockUSDC :=
  match r with
  | Returned _ t' => t'
  | Threw => t
  end.

Definition mock_call (sender : address) (c : TokenCall) (t : MockUSDC) : MockUSDC :=
  match c with
  | Approve spender value =>
      if (sender =? address0) || (spender =? address0) then t
      else mock_approve sender spender value t
  | Transfer to value => settle_reply (mock_transfer sender to value t) t
  | TransferFrom from to value => settle_reply (mock_transferFrom sender from to value t) t
  | Mint to value => if to =? address0 then t else mock_mint to value t
  | Burn value =>
      if balances t sender <? value then t
      else mkMock (upd (balances t) sender (balances t sender - value)) (allowances t)
  end.

(** The account at [this] has granted no allowance. *)
Definition no_self_allowance (this : address) (t : MockUSDC) : Prop :=
  forall spender, allowances t this spender = 0.

(** The states of contract and token that a deployment can reach: the contract
    is deployed at an address that has granted no allowance, and then external
    accounts (never the contract's own address) send transactions to the
    contract or to the token, the latter with [uint256] amounts. *)
Inductive mock_reachable (this : address) : Storage -> MockUSDC -> Prop :=
| mock_deployed : forall deployer t,
    this <> address0 -> deployer <> address0 -> deployer <> this ->
    no_self_allowance this t ->
    mock_reachable this (initial_storage deployer) t
| mock_contract_step : forall s t e c,
    mock_reachable this s t -> external_caller this e ->
    mock_reachable this (storage_after (exec this e c s t) s)
                        (ledger_after (exec this e c s t) t)
| mock_token_step : forall s t sender c,
    mock_reachable this s t -> sender <> this -> 0 <= token_value c ->
    mock_reachable this s (mock_call sender c t).

(** ** Allocated ids and the shape of the records *)

(** An id below its counter: handed out by [registerProperty], [createLease]
    or [requestMaintenance]. *)
Definition allocated (counter id : uint256) : Prop := 0 <= id < counter.

(** The ids [0 .. counter - 1], in the order they were handed out. *)
Definition ids_below (counter : uint256) : list uint256 :=
  map Z.of_nat (seq 0 (Z.to_nat counter)).

Definition counters_in_range (s : Storage) : Prop :=
  0 <= propertyCounter s <= MAX_UINT256 /\
  0 <= leaseCounter s <= MAX_UINT256 /\
  0 <= maintenanceCounter s <= MAX_UINT256.

(** What [registerProperty] has checked of a property it stored. *)
Definition registered_ok (this : address) (p : Property.t) : Prop :=
  Property.owner p <> address0 /\ Property.owner p <> this /\
  0 < Property.monthlyRent p <= Property.securityDeposit p.

(** A lease slot no [createLease] has written: all zero, except that
    [returnSecurityDeposit] may have marked it [Completed]. *)
Definition blank_lease (l : Lease.t) : Prop :=
  l = Lease.zero \/ l = Lease.set_status LeaseCompleted Lease.zero.

(** What [createLease] has checked of a lease it stored, and where its deposit
    stands: held in full while the lease is [Active], gone once it is
    [Completed]. *)
Definition lease_ok (s : Storage) (l : Lease.t) : Prop :=
  Lease.tenant l <> address0 /\
  allocated (propertyCounter s) (Lease.propertyId l) /\
  (exists months, 1 <= months <= 36 /\
     Lease.endDate l = Lease.startDate l + months * (30 * DAY)) /\
  1 <= Lease.rentDueDay l <= 28 /\
  0 <= Lease.totalPaid l <= MAX_UINT256 /\
  ((Lease.status l = LeaseActive /\
    Lease.securityDepositHeld l
      = Property.securityDeposit (properties s (Lease.propertyId l))) \/
   (Lease.status l = LeaseCompleted /\ Lease.securityDepositHeld l = 0)).

(** A request slot no [requestMaintenance] has written. *)
Definition blank_request (r : MaintenanceRequest.t) : Prop :=
  MaintenanceRequest.propertyId r = 0 /\
  MaintenanceRequest.requestedBy r = address0 /\
  MaintenanceRequest.description r = EmptyString /\
  MaintenanceRequest.estimatedCost r = 0 /\
  MaintenanceRequest.createdAt r = 0.

(** What [requestMaintenance] has checked of a request it stored. *)
Definition request_ok (s : Storage) (r : MaintenanceRequest.t) : Prop :=
  allocated (propertyCounter s) (MaintenanceRequest.propertyId r) /\
  MaintenanceRequest.requestedBy r <> address0 /\
  MaintenanceRequest.description r <> EmptyString /\
  0 < MaintenanceRequest.estimatedCost r.

(** The decision a request slot carries: none while [Pending]; an amount
    within the automatic limit and a contractor once [Approved] or
    [Completed]; the other two statuses are never stored. *)
Definition decision_ok (r : MaintenanceRequest.t) : Prop :=
  match MaintenanceRequest.status r with
  | Pending =>
      MaintenanceRequest.approvedAmount r = 0 /\ MaintenanceRequest.contractor r = address0
  | Approved | Completed =>
      0 < MaintenanceRequest.approvedAmount r <= autoApprovalLimit /\
      MaintenanceRequest.contractor r <> address0
  | InProgress | Rejected => False
  end.

(** [ownerProperties] and [tenantLeases] as indexes of the two tables. *)
Definition owner_index (s : Storage) : Prop :=
  forall a, ownerProperties s a
    = filter (fun p => Property.owner (properties s p) =? a) (ids_below (propertyCounter s)).

Definition tenant_index (s : Storage) : Prop :=
  forall a, tenantLeases s a
    = filter (fun l => Lease.tenant (leases s l) =? a) (ids_below (leaseCounter s)).

Record WellFormed (this : address) (s : Storage) : Prop := {
  wf_counters : counters_in_range s;
  wf_blank_properties :
    forall p, ~ allocated (propertyCounter s) p -> properties s p = Property.zero;
  wf_properties :
    forall p, allocated (propertyCounter s) p -> registered_ok this (properties s p);
  wf_blank_funds :
    forall p, ~ allocated (propertyCounter s) p -> maintenanceFunds s p = 0;
  wf_blank_leases :
    forall l, ~ allocated (leaseCounter s) l -> blank_lease (leases s l);
  wf_leases :
    forall l, allocated (leaseCounter s) l -> lease_ok s (leases s l);
  wf_blank_requests :
    forall r, ~ allocated (maintenanceCounter s) r -> blank_request (maintenanceRequests s r);
  wf_requests :
    forall r, allocated (maintenanceCounter s) r -> request_ok s (maintenanceRequests s r);
  wf_decisions : forall r, decision_ok (maintenanceRequests s r);
  wf_owner_index : owner_index s;
  wf_tenant_index : tenant_index s }.

(** ** What the contract owes, and runs of contract and token together *)

(** [f 0 + ... + f (n - 1)]. *)
Fixpoint sum_below (f : mapping uint256) (n : nat) : Z :=
  match n with
  | O => 0
  | S k => sum_below f k + f (Z.of_nat k)
  end.

(** The tokens the contract accounts for: the maintenance escrow of every
    property and the security deposit held for every lease. *)
Definition escrowed (s : Storage) : Z :=
  sum_below (maintenanceFunds s) (Z.to_nat (propertyCounter s))
  + sum_below (fun l => Lease.securityDepositHeld (leases s l)) (Z.to_nat (leaseCounter s)).

Definition in_uint256 (x : Z) : Prop := 0 <= x <= MAX_UINT256.

(** The [uint256] arguments of a call are [uint256] values. *)
Definition call_in_range (c : Call) : Prop :=
  match c with
  | RegisterProperty r d => in_uint256 r /\ in_uint256 d
  | DeactivateProperty p => in_uint256 p
  | CreateLease p _ sd dm rd => in_uint256 p /\ in_uint256 sd /\ in_uint256 dm /\ in_uint256 rd
  | PayRent l => in_uint256 l
  | CheckRentOverdue l => in_uint256 l
  | RequestMaintenance p _ c => in_uint256 p /\ in_uint256 c
  | ApproveMaintenance r a _ => in_uint256 r /\ in_uint256 a
  | FundMaintenance p a => in_uint256 p /\ in_uint256 a
  | PayMaintenanceContractor r => in_uint256 r
  | ReturnSecurityDeposit l d => in_uint256 l /\ in_uint256 d
  | SetAIAgent _ _ | DoPause | DoUnpause | TransferOwnership _ | RenounceOwnership => True
  end.

(** One step of a deployment on MockUSDC: a transaction sent to the contract,
    or a call some account makes on the token.  A token call that reverts
    leaves the ledger as it was, so it adds no state to a run; [mock_call] lets
    a [mint] go through even where the token's total supply would overflow,
    which only adds runs to the ones the deployed token has. *)
Inductive Step :=
| ContractStep (e : Env) (c : Call)
| TokenStep (sender : address) (c : TokenCall).

Definition mock_step (this : address) (st : Storage * MockUSDC) (x : Step)
  : Storage * MockUSDC :=
  match x with
  | ContractStep e c =>
      let o := exec (L := MockLedger) this e c (fst st) (snd st) in
      (storage_after o (fst st), ledger_after o (snd st))
  | TokenStep sender c => (fst st, mock_call sender c (snd st))
  end.

Definition mock_replay (this : address) (s : Storage) (t : MockUSDC) (steps : list Step)
  : Storage * MockUSDC :=
  fold_left (mock_step this) steps (s, t).

(** Steps taken by external accounts, with arguments in range. *)
Definition valid_step (this : address) (x : Step) : Prop :=
  match x with
  | ContractStep e c => external_caller this e /\ call_in_range c
  | TokenStep sender c => sender <> this /\ 0 <= token_value c
  end.

(** A run in which an outside account mints to the contract between two
    transactions: the funded, approved request, five units minted to the
    contract, then a one-month lease of the property. *)
Definition mixed_run : list Step :=
  map (fun ec => ContractStep (fst ec) (snd ec)) funded_approved
  ++ [ TokenStep STRANGER (Mint RENTFLOW (usdc 5));
       ContractStep (at_time PROPERTY_OWNER 100) (CreateLease 0 TENANT 100 1 1) ].

(** What [payRent] has recorded on a lease: a whole number of monthly rents,
    the last of them paid within the term. *)
Definition rent_history_ok (s : Storage) (l : Lease.t) : Prop :=
  exists payments,
    0 <= payments /\
    Lease.totalPaid l
      = payments * Property.monthlyRent (properties s (Lease.propertyId l)) /\
    (payments = 0 -> Lease.lastPaymentDate l = 0) /\
    (0 < payments -> Lease.startDate l <= Lease.lastPaymentDate l <= Lease.endDate l).

(** * Proofs *)

(** ** Reasoning about the monad *)

Section MonadLemmas.
Context {L : IERC20}.

Lemma bind_ok {A B : Type} (c : M A) (k : A -> M B) m r :
  bind c k m = Ok r -> exists a m', c m = Ok (a, m') /\ k a m' = Ok r.
Proof.
  unfold bind. destruct (c m) as [[a m'] | e]; intro H.
  - exists a, m'. split; [reflexivity | exact H].
  - discriminate.
Qed.

Lemma require_ok cond reason m u m' :
  require cond reason m = Ok (u, m') -> cond = true /\ m' = m.
Proof.
  unfold require. destruct cond; cbn; intro H; [|discriminate].
  inversion H. split; reflexivity.
Qed.

Lemma checked_add_ok a b m v m' :
  checked_add a b m = Ok (v, m') -> a + b <= MAX_UINT256 /\ v = a + b /\ m' = m.
Proof.
  unfold checked_add. destruct (a + b <=? MAX_UINT256) eqn:E; cbn; intro H; [|discriminate].
  inversion H. apply Z.leb_le in E. auto.
Qed.

Lemma checked_sub_ok a b m v m' :
  checked_sub a b m = Ok (v, m') -> b <= a /\ v = a - b /\ m' = m.
Proof.
  unfold checked_sub. destruct (b <=? a) eqn:E; cbn; intro H; [|discriminate].
  inversion H. apply Z.leb_le in E. auto.
Qed.

Lemma checked_mul_ok a b m v m' :
  checked_mul a b m = Ok (v, m') -> a * b <= MAX_UINT256 /\ v = a * b /\ m' = m.
Proof.
  unfold checked_mul. destruct (a * b <=? MAX_UINT256) eqn:E; cbn; intro H; [|discriminate].
  inversion H. apply Z.leb_le in E. auto.
Qed.

Lemma transferFrom_ok this from to amount m ok m' :
  USDC_transferFrom this from to amount m = Ok (ok, m') ->
  exists t', transferFrom this from to amount (token m) = Returned ok t' /\
    m' = mkMachine L (storage m) t' (emitted m) (issued m ++ [OpTransferFrom from to amount]).
Proof.
  unfold USDC_transferFrom.
  destruct (transferFrom this from to amount (token m)) as [b t' |]; intro H; inversion H; subst.
  exists t'. auto.
Qed.

Lemma transfer_ok this to amount m ok m' :
  USDC_transfer this to amount m = Ok (ok, m') ->
  exists t', transfer this to amount (token m) = Returned ok t' /\
    m' = mkMachine L (storage m) t' (emitted m) (issued m ++ [OpTransfer to amount]).
Proof.
  unfold USDC_transfer.
  destruct (transfer this to amount (token m)) as [b t' |]; intro H; inversion H; subst.
  exists t'. auto.
Qed.

End MonadLemmas.

(** [monad_inv H] takes a successful run [H : c m = Ok r] apart, one bind at
    a time, leaving the facts each step contributes. *)
Ltac monad_inv H :=
  cbv beta zeta in H;
  lazymatch type of H with
  | bind _ _ _ = Ok _ =>
      let a := fresh "a" in let m := fresh "m" in
      let H1 := fresh "Hrun" in let H2 := fresh "Hrun" in
      apply bind_ok in H; destruct H as (a & m & H1 & H2);
      monad_inv H1; monad_inv H2
  | require _ _ _ = Ok _ =>
      let Hc := fresh "Hreq" in let Hm := fresh "Hm" in
      apply require_ok in H; destruct H as [Hc Hm]; subst
  | checked_add _ _ _ = Ok _ =>
      let Hc := fresh "Hfit" in let Hv := fresh "Hv" in let Hm := fresh "Hm" in
      apply checked_add_ok in H; destruct H as (Hc & Hv & Hm); subst
  | checked_sub _ _ _ = Ok _ =>
      let Hc := fresh "Hfit" in let Hv := fresh "Hv" in let Hm := fresh "Hm" in
      apply checked_sub_ok in H; destruct H as (Hc & Hv & Hm); subst
  | checked_mul _ _ _ = Ok _ =>
      let Hc := fresh "Hfit" in let Hv := fresh "Hv" in let Hm := fresh "Hm" in
      apply checked_mul_ok in H; destruct H as (Hc & Hv & Hm); subst
  | read _ = Ok _ => unfold read in H; inversion H; subst; clear H
  | modify _ _ = Ok _ => unfold modify in H; inversion H; subst; clear H
  | emit _ _ = Ok _ => unfold emit in H; inversion H; subst; clear H
  | ret _ _ = Ok _ => unfold ret in H; inversion H; subst; clear H
  | revert _ _ = Ok _ => discriminate H
  | Err _ = Ok _ => discriminate H
  | Ok _ = Ok _ => inversion H; subst; clear H
  | (if ?b then _ else _) _ = Ok _ =>
      let E := fresh "Hif" in destruct b eqn:E; monad_inv H
  | (if ?b then _ else _) = Ok _ =>
      let E := fresh "Hif" in destruct b eqn:E; monad_inv H
  | USDC_transferFrom _ _ _ _ _ = Ok _ =>
      let t' := fresh "t'" in let H1 := fresh "Hcall" in let H2 := fresh "Hm" in
      apply transferFrom_ok in H; destruct H as (t' & H1 & H2); subst; cbn in H1
  | USDC_transfer _ _ _ _ = Ok _ =>
      let t' := fresh "t'" in let H1 := fresh "Hcall" in let H2 := fresh "Hm" in
      apply transfer_ok in H; destruct H as (t' & H1 & H2); subst; cbn in H1
  | onlyPropertyOwner _ _ _ _ = Ok _ => unfold onlyPropertyOwner in H; monad_inv H
  | onlyAIAgent _ _ _ = Ok _ => unfold onlyAIAgent in H; monad_inv H
  | validProperty _ _ _ = Ok _ => unfold validProperty in H; monad_inv H
  | whenNotPaused _ _ = Ok _ => unfold whenNotPaused in H; monad_inv H
  | whenPaused _ _ = Ok _ => unfold whenPaused in H; monad_inv H
  | nonReentrant _ _ = Ok _ => unfold nonReentrant in H; monad_inv H
  | onlyOwner _ _ _ = Ok _ => unfold onlyOwner in H; monad_inv H
  | returning_nothing _ _ = Ok _ => unfold returning_nothing in H; monad_inv H
  | returning_id _ _ = Ok _ => unfold returning_id in H; monad_inv H
  | _ => idtac
  end.

(** ** Mappings *)

Lemma upd_same {V : Type} (m : mapping V) k v : upd m k v k = v.
Proof. unfold upd. rewrite Z.eqb_refl. reflexivity. Qed.

Lemma upd_other {V : Type} (m : mapping V) k v k' : k' <> k -> upd m k v k' = m k'.
Proof. unfold upd. intro H. apply Z.eqb_neq in H. rewrite H. reflexivity. Qed.

Lemma MAX_UINT256_value :
  MAX_UINT256 =
  115792089237316195423570985008687907853269984665640564039457584007913129639935.
Proof. reflexivity. Qed.

Lemma MaintenanceStatus_eqb_eq a b : MaintenanceStatus_eqb a b = true <-> a = b.
Proof. destruct a, b; cbn; split; intro H; congruence. Qed.

Lemma LeaseStatus_eqb_eq a b : LeaseStatus_eqb a b = true <-> a = b.
Proof. destruct a, b; cbn; split; intro H; congruence. Qed.

(** [step_cases H c] splits a successful transaction [H] by entry point and
    takes the entry point's body apart. *)
Ltac step_cases H c :=
  destruct c;
  unfold dispatch, run, registerProperty, deactivateProperty, createLease,
    payRent, checkRentOverdue, requestMaintenance, approveMaintenance, fundMaintenance,
    payMaintenanceContractor, returnSecurityDeposit, setAIAgent, pause, unpause,
    transferOwnership, renounceOwnership in H;
  monad_inv H; cbn in *.

Ltac upd_simpl :=
  repeat first [rewrite upd_same | rewrite upd_other by (assumption || lia)].

(** [upd_split x]: the slot [x] read from an updated mapping is either the
    slot written or an untouched one. *)
Ltac upd_split x :=
  match goal with
  | |- context [upd _ ?k _ x] =>
      let E := fresh "E" in
      destruct (Z.eq_dec x k) as [E | E]; [try subst x | ]; cbn; upd_simpl; cbn
  end.

(** ** Invariants of the reachable states *)

Section Invariants.
Context {L : IERC20}.
Variable this : address.

(** A revert leaves the storage and the ledger untouched. *)
Lemma reverted_rolls_back e c s t r :
  exec this e c s t = Reverted r ->
  storage_after (exec this e c s t) s = s /\ ledger_after (exec this e c s t) t = t.
Proof. intros ->. split; reflexivity. Qed.

(** The reentrancy status is [NOT_ENTERED] between transactions. *)
Lemma step_entered s e c t :
  entered s = false -> entered (storage_after (exec this e c s t) s) = false.
Proof.
  intro I. unfold exec.
  destruct (run (dispatch this e c) s t) as [[v m] | r] eqn:H; cbn; [|exact I].
  step_cases H c; cbn; first [reflexivity | assumption].
Qed.

Lemma step_approved_nonneg s e c t :
  approved_nonneg s -> approved_nonneg (storage_after (exec this e c s t) s).
Proof.
  intros I r. unfold exec.
  destruct (run (dispatch this e c) s t) as [[v m] | x] eqn:H; cbn; [|apply I].
  step_cases H c; cbn; try apply I; upd_split r; try lia; apply I.
Qed.

(** The escrow balances stay within [uint256]. *)
Lemma step_funds s e c t :
  approved_nonneg s ->
  (forall p, 0 <= maintenanceFunds s p <= MAX_UINT256) ->
  forall p, 0 <= maintenanceFunds (storage_after (exec this e c s t) s) p <= MAX_UINT256.
Proof.
  intros A I p. unfold exec.
  destruct (run (dispatch this e c) s t) as [[v m] | r] eqn:H; cbn; [|apply I].
  step_cases H c; cbn; try apply I.
  - (* fundMaintenance: the credit is a checked addition *)
    apply Z.ltb_lt in Hreq0.
    upd_split p; [pose proof (I propertyId); lia | apply I].
  - (* payMaintenanceContractor: the debit is guarded by the balance check *)
    upd_split p; [|apply I].
    match goal with
    | |- 0 <= maintenanceFunds _ ?k - _ <= _ => pose proof (I k); pose proof (A requestId); lia
    end.
Qed.

Lemma step_pending s e c t :
  pending_is_blank s -> pending_is_blank (storage_after (exec this e c s t) s).
Proof.
  intros I r. unfold exec.
  destruct (run (dispatch this e c) s t) as [[v m] | x] eqn:H; cbn; [|apply I].
  step_cases H c; cbn; try apply I; upd_split r; try discriminate; auto.
Qed.

Lemma step_fresh_properties s e c t :
  fresh_properties s -> fresh_properties (storage_after (exec this e c s t) s).
Proof.
  intros I p. unfold exec.
  destruct (run (dispatch this e c) s t) as [[v m] | x] eqn:H; cbn; [|apply I].
  step_cases H c; cbn; try apply I.
  - (* registerProperty writes the slot below the new counter *)
    intro Hp. rewrite upd_other by lia. apply I. lia.
  - (* deactivateProperty clears a flag that a fresh slot has cleared already *)
    intro Hp. upd_split p; [|apply I; exact Hp].
    rewrite (I propertyId Hp). reflexivity.
Qed.

Lemma step_fresh_leases s e c t :
  fresh_leases s -> fresh_leases (storage_after (exec this e c s t) s).
Proof.
  intros I l. unfold exec.
  destruct (run (dispatch this e c) s t) as [[v m] | x] eqn:H; cbn; [|apply I].
  step_cases H c; cbn; try apply I;
    intro Hl; upd_split l; first [lia | apply I; lia].
Qed.

Lemma step_deposits_positive s e c t :
  deposits_positive s -> deposits_positive (storage_after (exec this e c s t) s).
Proof.
  intros I p. unfold exec.
  destruct (run (dispatch this e c) s t) as [[v m] | x] eqn:H; cbn; [|apply I].
  step_cases H c; cbn; try apply I; upd_split p; try apply I; try discriminate.
  intros _. lia.
Qed.

Lemma step_not_self_owned s e c t :
  external_caller this e ->
  not_self_owned this s -> not_self_owned this (storage_after (exec this e c s t) s).
Proof.
  intros [_ Hext] I p. unfold exec.
  destruct (run (dispatch this e c) s t) as [[v m] | x] eqn:H; cbn; [|apply I].
  step_cases H c; cbn; try apply I; (upd_split p; [|apply I]).
  - exact Hext.
  - apply I.
Qed.

Lemma reachable_inv s : reachable this s -> Inv this s.
Proof.
  induction 1 as [deployer Hthis Hd Hdt | s e c t Hr IH Hext].
  - split; cbn; try reflexivity.
    + intro r. cbn. lia.
    + intro p. rewrite MAX_UINT256_value. lia.
    + intros r _. cbn. auto.
    + intros p _. reflexivity.
    + intros l _. reflexivity.
    + intros p Hp. discriminate.
    + intros p E. cbn in E. apply Hthis. symmetry. exact E.
  - destruct IH. split.
    + apply step_entered; assumption.
    + apply step_approved_nonneg; assumption.
    + apply step_funds; assumption.
    + apply step_pending; assumption.
    + apply step_fresh_properties; assumption.
    + apply step_fresh_leases; assumption.
    + apply step_deposits_positive; assumption.
    + apply step_not_self_owned; assumption.
Qed.

(** Replaying transactions sent by external callers stays within the
    reachable states. *)
Lemma replay_reachable calls : forall s t,
  reachable this s ->
  Forall (fun ec => external_caller this (fst ec)) calls ->
  reachable this (fst (replay this s t calls)).
Proof.
  induction calls as [| [e c] rest IH]; intros s t Hr Hall; cbn.
  - exact Hr.
  - inversion Hall; subst. apply IH; [|assumption].
    apply reachable_step; assumption.
Qed.

End Invariants.

(** ** Running a computation forwards *)

Section Forward.
Context {L : IERC20}.

Lemma bind_bind {A B C : Type} (c : M A) (k1 : A -> M B) (k2 : B -> M C) m :
  bind (bind c k1) k2 m = bind c (fun a => bind (k1 a) k2) m.
Proof. unfold bind. destruct (c m) as [[a m'] | r]; reflexivity. Qed.

Lemma step_read {B : Type} (k : Storage -> M B) m :
  bind read k m = k (storage m) m.
Proof. reflexivity. Qed.

Lemma step_modify {B : Type} f (k : unit -> M B) m :
  bind (modify f) k m = k tt (mkMachine L (f (storage m)) (token m) (emitted m) (issued m)).
Proof. reflexivity. Qed.

Lemma step_emit {B : Type} ev (k : unit -> M B) m :
  bind (emit ev) k m = k tt (mkMachine L (storage m) (token m) (emitted m ++ [ev]) (issued m)).
Proof. reflexivity. Qed.

Lemma step_ret {A B : Type} (a : A) (k : A -> M B) m : bind (ret a) k m = k a m.
Proof. reflexivity. Qed.

Lemma step_revert {A B : Type} r (k : A -> M B) m : bind (revert r) k m = Err r.
Proof. reflexivity. Qed.

Lemma step_require_true {B : Type} reason (k : unit -> M B) m :
  bind (require true reason) k m = k tt m.
Proof. reflexivity. Qed.

Lemma step_require_false {B : Type} reason (k : unit -> M B) m :
  bind (require false reason) k m = Err (Error reason).
Proof. reflexivity. Qed.

Lemma step_transferFrom_true {B : Type} this from to amount (k : bool -> M B) m t' :
  transferFrom this from to amount (token m) = Returned true t' ->
  bind (USDC_transferFrom this from to amount) k m
  = k true (mkMachine L (storage m) t' (emitted m)
                      (issued m ++ [OpTransferFrom from to amount])).
Proof. intro H. unfold bind, USDC_transferFrom. rewrite H. reflexivity. Qed.

Lemma step_transferFrom_false {B : Type} this from to amount (k : bool -> M B) m t' :
  transferFrom this from to amount (token m) = Returned false t' ->
  bind (USDC_transferFrom this from to amount) k m
  = k false (mkMachine L (storage m) t' (emitted m)
                       (issued m ++ [OpTransferFrom from to amount])).
Proof. intro H. unfold bind, USDC_transferFrom. rewrite H. reflexivity. Qed.

Lemma step_transferFrom_threw {B : Type} this from to amount (k : bool -> M B) m :
  transferFrom this from to amount (token m) = Threw ->
  bind (USDC_transferFrom this from to amount) k m = Err LedgerCallReverted.
Proof. intro H. unfold bind, USDC_transferFrom. rewrite H. reflexivity. Qed.

Lemma step_transfer_true {B : Type} this to amount (k : bool -> M B) m t' :
  transfer this to amount (token m) = Returned true t' ->
  bind (USDC_transfer this to amount) k m
  = k true (mkMachine L (storage m) t' (emitted m) (issued m ++ [OpTransfer to amount])).
Proof. intro H. unfold bind, USDC_transfer. rewrite H. reflexivity. Qed.

Lemma step_transfer_false {B : Type} this to amount (k : bool -> M B) m t' :
  transfer this to amount (token m) = Returned false t' ->
  bind (USDC_transfer this to amount) k m
  = k false (mkMachine L (storage m) t' (emitted m) (issued m ++ [OpTransfer to amount])).
Proof. intro H. unfold bind, USDC_transfer. rewrite H. reflexivity. Qed.

Lemma step_transfer_threw {B : Type} this to amount (k : bool -> M B) m :
  transfer this to amount (token m) = Threw ->
  bind (USDC_transfer this to amount) k m = Err LedgerCallReverted.
Proof. intro H. unfold bind, USDC_transfer. rewrite H. reflexivity. Qed.

End Forward.

(** [fwd] performs the next step of a goal [c m = r]; a [require] or a
    conditional splits the goal in two. *)
Ltac storage_simpl :=
  cbn [storage token emitted issued
       properties leases maintenanceRequests ownerProperties tenantLeases maintenanceFunds
       authorizedAIAgents propertyCounter leaseCounter maintenanceCounter owner paused entered
       set_properties set_leases set_maintenanceRequests set_ownerProperties set_tenantLeases
       set_maintenanceFunds set_authorizedAIAgents set_propertyCounter set_leaseCounter
       set_maintenanceCounter set_owner set_paused set_entered].

Ltac fwd :=
  cbv beta zeta; storage_simpl;
  lazymatch goal with
  | |- bind (bind _ _) _ _ = _ => rewrite bind_bind
  | |- bind read _ _ = _ => rewrite step_read
  | |- bind (modify _) _ _ = _ => rewrite step_modify
  | |- bind (emit _) _ _ = _ => rewrite step_emit
  | |- bind (ret _) _ _ = _ => rewrite step_ret
  | |- bind (revert _) _ _ = _ => rewrite step_revert
  | |- bind (require true _) _ _ = _ => rewrite step_require_true
  | |- bind (require false _) _ _ = _ => rewrite step_require_false
  | |- bind (require ?c _) _ _ = _ => let E := fresh "E" in destruct c eqn:E
  | |- bind (if ?c then _ else _) _ _ = _ => let E := fresh "E" in destruct c eqn:E
  | |- bind (USDC_transferFrom _ _ _ _) _ _ = _ =>
      first [ erewrite step_transferFrom_true by (storage_simpl; eassumption)
            | erewrite step_transferFrom_false by (storage_simpl; eassumption)
            | rewrite step_transferFrom_threw by (storage_simpl; assumption) ]
  | |- bind (USDC_transfer _ _ _) _ _ = _ =>
      first [ erewrite step_transfer_true by (storage_simpl; eassumption)
            | erewrite step_transfer_false by (storage_simpl; eassumption)
            | rewrite step_transfer_threw by (storage_simpl; assumption) ]
  | |- bind (checked_add _ _) _ _ = _ => unfold checked_add at 1
  | |- bind (checked_sub _ _) _ _ = _ => unfold checked_sub at 1
  | |- bind (checked_mul _ _) _ _ = _ => unfold checked_mul at 1
  | |- bind (onlyPropertyOwner _ _ _) _ _ = _ => unfold onlyPropertyOwner at 1
  | |- bind (onlyAIAgent _ _) _ _ = _ => unfold onlyAIAgent at 1
  | |- bind (validProperty _ _) _ _ = _ => unfold validProperty at 1
  | |- bind (whenNotPaused _) _ _ = _ => unfold whenNotPaused at 1
  | |- bind (whenPaused _) _ _ = _ => unfold whenPaused at 1
  | |- bind (nonReentrant _) _ _ = _ => unfold nonReentrant at 1
  | |- bind (onlyOwner _ _) _ _ = _ => unfold onlyOwner at 1
  end.

(** Closes a branch whose guard contradicts what is known. *)
Ltac absurd_branch := exfalso; first [congruence | lia].

(** ** The scenarios are reachable states *)

Lemma scenario_reachable calls :
  forallb (fun ec => negb (msg_sender (fst ec) =? address0)
                     && negb (msg_sender (fst ec) =? RENTFLOW)) calls = true ->
  reachable RENTFLOW (fst (scenario calls)).
Proof.
  intro H. unfold scenario. apply (replay_reachable (L := MockLedger)).
  - apply reachable_deploy; discriminate.
  - apply Forall_forall. intros ec Hin.
    rewrite forallb_forall in H. specialize (H ec Hin).
    apply andb_true_iff in H. destruct H as [H1 H2].
    apply negb_true_iff in H1, H2. apply Z.eqb_neq in H1, H2.
    split; assumption.
Defined.

(** ** Well-formed states *)

Lemma allocated_dec counter id : {allocated counter id} + {~ allocated counter id}.
Proof.
  unfold allocated.
  destruct (Z_le_dec 0 id); [destruct (Z_lt_dec id counter)|]; [left | right | right]; lia.
Qed.

Lemma upd_upd {V : Type} (m : mapping V) k a b x : upd (upd m k a) k b x = upd m k b x.
Proof. unfold upd. destruct (x =? k); reflexivity. Qed.

Lemma blank_lease_tenant l : blank_lease l -> Lease.tenant l = address0.
Proof. intros [-> | ->]; reflexivity. Qed.

Lemma blank_lease_held l : blank_lease l -> Lease.securityDepositHeld l = 0.
Proof. intros [-> | ->]; reflexivity. Qed.

Lemma ids_below_succ n : 0 <= n -> ids_below (n + 1) = ids_below n ++ [n].
Proof.
  intro Hn. unfold ids_below.
  replace (Z.to_nat (n + 1)) with (S (Z.to_nat n)) by lia.
  rewrite seq_S, map_app. cbn. rewrite Z2Nat.id by exact Hn. reflexivity.
Qed.

Lemma in_ids_below n i : In i (ids_below n) <-> allocated n i.
Proof.
  unfold ids_below, allocated. rewrite in_map_iff. split.
  - intros (k & <- & Hk). apply in_seq in Hk. lia.
  - intro Hi. exists (Z.to_nat i). split; [lia|]. apply in_seq. lia.
Qed.

Section WellFormedness.
Context {L : IERC20}.
Variable this : address.

Lemma owned_is_allocated s p a :
  (forall p, ~ allocated (propertyCounter s) p -> properties s p = Property.zero) ->
  Property.owner (properties s p) = a -> a <> address0 ->
  allocated (propertyCounter s) p.
Proof.
  intros W Ho Ha. destruct (allocated_dec (propertyCounter s) p) as [H | H]; [exact H|].
  rewrite (W p H) in Ho. cbn in Ho. congruence.
Qed.

Lemma active_is_allocated s p :
  (forall p, ~ allocated (propertyCounter s) p -> properties s p = Property.zero) ->
  Property.isActive (properties s p) = true ->
  allocated (propertyCounter s) p.
Proof.
  intros W Ha. destruct (allocated_dec (propertyCounter s) p) as [H | H]; [exact H|].
  rewrite (W p H) in Ha. discriminate.
Qed.

Lemma step_counters s e c t :
  counters_in_range s -> counters_in_range (storage_after (exec this e c s t) s).
Proof.
  intros I. unfold exec.
  destruct (run (dispatch this e c) s t) as [[v m] | r] eqn:H; cbn; [|exact I].
  unfold counters_in_range in *.
  step_cases H c; cbn; try exact I.
  all: lia.
Qed.

Lemma step_blank_properties s e c t :
  counters_in_range s ->
  (forall p, ~ allocated (propertyCounter s) p -> properties s p = Property.zero) ->
  forall p, ~ allocated (propertyCounter (storage_after (exec this e c s t) s)) p ->
            properties (storage_after (exec this e c s t) s) p = Property.zero.
Proof.
  intros C I p. unfold exec.
  destruct (run (dispatch this e c) s t) as [[v m] | r] eqn:H; cbn; [|apply I].
  unfold counters_in_range, allocated in *.
  step_cases H c; cbn; try apply I.
  - intro Hp. rewrite upd_other by lia. apply I. lia.
  - intro Hp. upd_split p; [|apply I; exact Hp].
    rewrite (I propertyId Hp). reflexivity.
Qed.

Lemma step_properties s e c t :
  external_caller this e ->
  counters_in_range s ->
  (forall p, allocated (propertyCounter s) p -> registered_ok this (properties s p)) ->
  forall p, allocated (propertyCounter (storage_after (exec this e c s t) s)) p ->
            registered_ok this (properties (storage_after (exec this e c s t) s) p).
Proof.
  intros [He0 Het] C I p. unfold exec.
  destruct (run (dispatch this e c) s t) as [[v m] | r] eqn:H; cbn; [|apply I].
  unfold counters_in_range, allocated in *.
  step_cases H c; cbn; try apply I.
  - intro Hp. upd_split p.
    + apply Z.ltb_lt in Hreq. apply Z.leb_le in Hreq0.
      unfold registered_ok. cbn. repeat split; try assumption; lia.
    + apply I. lia.
  - intro Hp. upd_split p; [|apply I; exact Hp].
    exact (I propertyId Hp).
Qed.

Lemma step_blank_funds s e c t :
  external_caller this e ->
  approved_nonneg s ->
  (forall p, ~ allocated (propertyCounter s) p -> properties s p = Property.zero) ->
  (forall p, ~ allocated (propertyCounter s) p -> maintenanceFunds s p = 0) ->
  forall p, ~ allocated (propertyCounter (storage_after (exec this e c s t) s)) p ->
            maintenanceFunds (storage_after (exec this e c s t) s) p = 0.
Proof.
  intros [He0 Het] A B I p. unfold exec.
  destruct (run (dispatch this e c) s t) as [[v m] | r] eqn:H; cbn; [|apply I].
  step_cases H c; cbn; try apply I.
  - (* registerProperty: one more id is allocated *)
    intro Hp. apply I. unfold allocated in *. lia.
  - (* fundMaintenance: the caller owns the property, so its id is allocated *)
    intro Hp. upd_split p; [|apply I; exact Hp].
    exfalso. apply Hp. apply Z.eqb_eq in Hreq.
    exact (owned_is_allocated _ _ _ B Hreq He0).
  - (* payMaintenanceContractor: nothing to take from an empty escrow *)
    intro Hp. upd_split p; [|apply I; exact Hp].
    match goal with
    | |- maintenanceFunds _ ?k - _ = 0 =>
        pose proof (I k Hp); pose proof (A requestId)
    end.
    match goal with
    | Hle : (_ <=? _) = true |- _ => apply Z.leb_le in Hle
    end.
    lia.
Qed.



Lemma step_blank_leases s e c t :
  external_caller this e ->
  counters_in_range s ->
  (forall l, ~ allocated (leaseCounter s) l -> blank_lease (leases s l)) ->
  forall l, ~ allocated (leaseCounter (storage_after (exec this e c s t) s)) l ->
            blank_lease (leases (storage_after (exec this e c s t) s) l).
Proof.
  intros [He0 Het] C I l. unfold exec.
  destruct (run (dispatch this e c) s t) as [[v m] | r] eqn:H; cbn; [|apply I].
  unfold counters_in_range in C.
  step_cases H c; cbn; try apply I; intro Hl; rewrite ?upd_upd, ?upd_same.
  - (* createLease writes the slot that becomes allocated *)
    unfold allocated in *. rewrite upd_other by lia. apply I. lia.
  - (* payRent: the caller is the slot's tenant, so the slot is allocated *)
    upd_split l; [|apply I; exact Hl].
    exfalso. apply Z.eqb_eq in Hreq0.
    rewrite (blank_lease_tenant _ (I _ Hl)) in Hreq0. congruence.
  - upd_split l; [|apply I; exact Hl].
    destruct (I _ Hl) as [-> | ->]; right; reflexivity.
  - upd_split l; [|apply I; exact Hl].
    destruct (I _ Hl) as [-> | ->]; right; reflexivity.
  - upd_split l; [|apply I; exact Hl].
    destruct (I _ Hl) as [-> | ->]; right; reflexivity.
  - upd_split l; [|apply I; exact Hl].
    destruct (I _ Hl) as [-> | ->]; right; reflexivity.
Qed.

Lemma step_leases s e c t :
  external_caller this e ->
  counters_in_range s ->
  (forall p, ~ allocated (propertyCounter s) p -> properties s p = Property.zero) ->
  (forall p, allocated (propertyCounter s) p -> registered_ok this (properties s p)) ->
  (forall l, allocated (leaseCounter s) l -> lease_ok s (leases s l)) ->
  forall l, allocated (leaseCounter (storage_after (exec this e c s t) s)) l ->
            lease_ok (storage_after (exec this e c s t) s)
                     (leases (storage_after (exec this e c s t) s) l).
Proof.
  intros [He0 Het] C B P I l. unfold exec.
  destruct (run (dispatch this e c) s t) as [[v m] | r] eqn:H; cbn; [|apply I].
  unfold counters_in_range in C.
  step_cases H c; cbn; try apply I; intro Hl; rewrite ?upd_upd, ?upd_same;
    unfold lease_ok; cbn.
  - (* registerProperty: the properties a lease refers to are older *)
    destruct (I l Hl) as (I1 & I2 & I3 & I4 & I5 & I6).
    unfold allocated in *. rewrite upd_other by lia.
    repeat split; try assumption; lia.
  - (* deactivateProperty keeps the deposit *)
    destruct (I l Hl) as (I1 & I2 & I3 & I4 & I5 & I6).
    repeat split; try apply I2; try apply I4; try apply I5; try assumption.
    match goal with
    | |- context [upd _ ?k _ ?x] =>
        destruct (Z.eq_dec x k) as [E | E];
          [rewrite E, upd_same; cbn; rewrite <- E | rewrite upd_other by assumption]
    end; exact I6.
  - (* createLease *)
    upd_split l.
    + apply negb_true_iff in Hreq1. apply Z.eqb_neq in Hreq1.
      apply andb_true_iff in Hreq3, Hreq4.
      destruct Hreq3 as [M1 M2]. destruct Hreq4 as [D1 D2].
      apply Z.ltb_lt in M1. apply Z.leb_le in M2, D1, D2.
      apply Z.eqb_eq in Hreq.
      pose proof (owned_is_allocated _ _ _ B Hreq He0) as Hp.
      rewrite MAX_UINT256_value.
      repeat split; try assumption; try apply Hp; try lia.
      * exists durationMonths. split; [lia | reflexivity].
      * left. split; reflexivity.
    + destruct (I l) as (I1 & I2 & I3 & I4 & I5 & I6); [unfold allocated in *; lia|].
      unfold allocated in *. repeat split; try assumption; lia.
  - (* payRent *)
    upd_split l.
    + destruct (I _ Hl) as (I1 & I2 & I3 & I4 & I5 & I6).
      pose proof (P _ I2) as (_ & _ & Hrent).
      rewrite upd_same in Hfit. cbn in Hfit.
      repeat split; try assumption; try apply I2; try apply I4; lia.
    + exact (I l Hl).
  - upd_split l; [|exact (I l Hl)].
    destruct (I _ Hl) as (I1 & I2 & I3 & I4 & I5 & I6).
    repeat split; try assumption; try apply I2; try apply I4; try apply I5.
    right. split; reflexivity.
  - upd_split l; [|exact (I l Hl)].
    destruct (I _ Hl) as (I1 & I2 & I3 & I4 & I5 & I6).
    repeat split; try assumption; try apply I2; try apply I4; try apply I5.
    right. split; reflexivity.
  - upd_split l; [|exact (I l Hl)].
    destruct (I _ Hl) as (I1 & I2 & I3 & I4 & I5 & I6).
    repeat split; try assumption; try apply I2; try apply I4; try apply I5.
    right. split; reflexivity.
  - upd_split l; [|exact (I l Hl)].
    destruct (I _ Hl) as (I1 & I2 & I3 & I4 & I5 & I6).
    repeat split; try assumption; try apply I2; try apply I4; try apply I5.
    right. split; reflexivity.
Qed.


Lemma step_blank_requests s e c t :
  counters_in_range s ->
  (forall r, ~ allocated (maintenanceCounter s) r -> blank_request (maintenanceRequests s r)) ->
  forall r, ~ allocated (maintenanceCounter (storage_after (exec this e c s t) s)) r ->
            blank_request (maintenanceRequests (storage_after (exec this e c s t) s) r).
Proof.
  intros C I r. unfold exec.
  destruct (run (dispatch this e c) s t) as [[v m] | x] eqn:H; cbn; [|apply I].
  unfold counters_in_range in C.
  step_cases H c; cbn; try apply I; intro Hr; rewrite ?upd_upd, ?upd_same.
  - unfold allocated in *. rewrite upd_other by lia. apply I. lia.
  - upd_split r; [|apply I; exact Hr]. exact (I _ Hr).
  - upd_split r; [|apply I; exact Hr]. exact (I _ Hr).
Qed.

Lemma step_requests s e c t :
  external_caller this e ->
  counters_in_range s ->
  (forall p, ~ allocated (propertyCounter s) p -> properties s p = Property.zero) ->
  (forall r, allocated (maintenanceCounter s) r -> request_ok s (maintenanceRequests s r)) ->
  forall r, allocated (maintenanceCounter (storage_after (exec this e c s t) s)) r ->
            request_ok (storage_after (exec this e c s t) s)
                       (maintenanceRequests (storage_after (exec this e c s t) s) r).
Proof.
  intros [He0 Het] C B I r. unfold exec.
  destruct (run (dispatch this e c) s t) as [[v m] | x] eqn:H; cbn; [|apply I].
  unfold counters_in_range in C.
  step_cases H c; cbn; try apply I; intro Hr; rewrite ?upd_upd, ?upd_same;
    unfold request_ok; cbn.
  - destruct (I r Hr) as (I1 & I2 & I3 & I4). unfold allocated in *.
    repeat split; try assumption; lia.
  - upd_split r.
    + pose proof (active_is_allocated _ _ B Hreq) as Hp.
      apply Z.ltb_lt in Hreq1, Hreq2.
      repeat split; try assumption; try apply Hp.
      intro Hd. rewrite Hd in Hreq1. cbn in Hreq1. lia.
    + apply I. unfold allocated in *. lia.
  - upd_split r; exact (I _ Hr).
  - upd_split r; exact (I _ Hr).
Qed.

Lemma step_decisions s e c t :
  (forall r, decision_ok (maintenanceRequests s r)) ->
  forall r, decision_ok (maintenanceRequests (storage_after (exec this e c s t) s) r).
Proof.
  intros I r. unfold exec.
  destruct (run (dispatch this e c) s t) as [[v m] | x] eqn:H; cbn; [|apply I].
  step_cases H c; cbn; try apply I; rewrite ?upd_upd, ?upd_same;
    (upd_split r; [|apply I]); unfold decision_ok; cbn.
  - split; reflexivity.
  - apply Z.ltb_lt in Hreq1. apply Z.leb_le in Hreq3.
    apply negb_true_iff in Hreq2. apply Z.eqb_neq in Hreq2.
    repeat split; assumption.
  - apply MaintenanceStatus_eqb_eq in Hreq.
    pose proof (I requestId) as Hd. unfold decision_ok in Hd. rewrite Hreq in Hd. exact Hd.
Qed.


Lemma step_owner_index s e c t :
  counters_in_range s ->
  owner_index s -> owner_index (storage_after (exec this e c s t) s).
Proof.
  intros C I a. unfold exec.
  destruct (run (dispatch this e c) s t) as [[v m] | x] eqn:H; cbn; [|apply I].
  unfold counters_in_range in C.
  step_cases H c; cbn; try apply I.
  - (* registerProperty appends the new id to the caller's list *)
    rewrite ids_below_succ by lia. rewrite filter_app. cbn [filter]. rewrite upd_same. cbn.
    match goal with
    | |- _ = filter ?f (ids_below (propertyCounter ?s0)) ++ _ =>
        rewrite (filter_ext_in f (fun p => Property.owner (properties s0 p) =? a))
    end.
    2:{ intros p Hp. apply in_ids_below in Hp. unfold allocated in Hp.
        rewrite upd_other by lia. reflexivity. }
    rewrite <- I. unfold upd. rewrite (Z.eqb_sym (msg_sender e) a).
    destruct (Z.eqb_spec a (msg_sender e)) as [-> | _]; [reflexivity|].
    rewrite app_nil_r. reflexivity.
  - (* deactivateProperty keeps the owner *)
    rewrite I. apply filter_ext. intro p.
    upd_split p; reflexivity.
Qed.

Lemma step_tenant_index s e c t :
  counters_in_range s ->
  tenant_index s -> tenant_index (storage_after (exec this e c s t) s).
Proof.
  intros C I a. unfold exec.
  destruct (run (dispatch this e c) s t) as [[v m] | x] eqn:H; cbn; [|apply I].
  unfold counters_in_range in C.
  step_cases H c; cbn; try apply I.
  - (* createLease appends the new id to the tenant's list *)
    rewrite ids_below_succ by lia. rewrite filter_app. cbn [filter]. rewrite upd_same. cbn.
    match goal with
    | |- _ = filter ?f (ids_below (leaseCounter ?s0)) ++ _ =>
        rewrite (filter_ext_in f (fun l => Lease.tenant (leases s0 l) =? a))
    end.
    2:{ intros l Hl. apply in_ids_below in Hl. unfold allocated in Hl.
        rewrite upd_other by lia. reflexivity. }
    rewrite <- I. unfold upd. rewrite (Z.eqb_sym tenant a).
    destruct (Z.eqb_spec a tenant) as [-> | _]; [reflexivity|].
    rewrite app_nil_r. reflexivity.
  - rewrite I. apply filter_ext. intro l. rewrite upd_upd. upd_split l; reflexivity.
  - rewrite I. apply filter_ext. intro l. rewrite upd_upd. upd_split l; reflexivity.
  - rewrite I. apply filter_ext. intro l. rewrite upd_upd. upd_split l; reflexivity.
  - rewrite I. apply filter_ext. intro l. rewrite upd_upd. upd_split l; reflexivity.
  - rewrite I. apply filter_ext. intro l. rewrite upd_upd. upd_split l; reflexivity.
Qed.


Lemma step_wf s e c t :
  external_caller this e -> Inv this s -> WellFormed this s ->
  WellFormed this (storage_after (exec this e c s t) s).
Proof.
  intros He I W. destruct W. split.
  - apply step_counters; assumption.
  - apply step_blank_properties; assumption.
  - apply step_properties; assumption.
  - apply step_blank_funds; try assumption. apply (inv_approved_nonneg _ _ I).
  - apply step_blank_leases; assumption.
  - apply step_leases; assumption.
  - apply step_blank_requests; assumption.
  - apply step_requests; assumption.
  - apply step_decisions; assumption.
  - apply step_owner_index; assumption.
  - apply step_tenant_index; assumption.
Qed.

Lemma reachable_wf s : reachable this s -> WellFormed this s.
Proof.
  induction 1 as [deployer Hthis Hd Hdt | s e c t Hr IH Hext].
  - split; cbn; unfold allocated; cbn.
    + unfold counters_in_range. cbn. rewrite MAX_UINT256_value. lia.
    + reflexivity.
    + intros p Hp. lia.
    + reflexivity.
    + intros l _. left. reflexivity.
    + intros l Hl. lia.
    + intros r _. repeat split; reflexivity.
    + intros r Hr. lia.
    + intro r. split; reflexivity.
    + intro a. reflexivity.
    + intro a. reflexivity.
  - apply step_wf; [assumption | apply reachable_inv; assumption | assumption].
Qed.

End WellFormedness.

(** * C1: the maintenance escrow *)

Section EscrowBalance.
Context {L : IERC20}.
Variable this : address.



End EscrowBalance.



(** * C2: the automatic approval cap *)

Section ApprovalCap.
Context {L : IERC20}.
Variable this : address.



End ApprovalCap.



(** * C3: a maintenance request is paid at most once *)

Section PaidOnce.
Context {L : IERC20}.
Variable this : address.

(** What a successful payout has checked and done. *)
Lemma payout_effect e requestId s t v m :
  run (dispatch this e (PayMaintenanceContractor requestId)) s t = Ok (v, m) ->
  let request := maintenanceRequests s requestId in
  let propertyId := MaintenanceRequest.propertyId request in
  let amount := MaintenanceRequest.approvedAmount request in
  MaintenanceRequest.status request = Approved /\
  MaintenanceRequest.status (maintenanceRequests (storage m) requestId) = Completed /\
  maintenanceFunds (storage m) propertyId = maintenanceFunds s propertyId - amount /\
  amount <= maintenanceFunds s propertyId /\
  (forall p, p <> propertyId -> maintenanceFunds (storage m) p = maintenanceFunds s p) /\
  issued m = [OpTransfer (MaintenanceRequest.contractor request) amount] /\
  emitted m = [MaintenancePaid requestId amount (MaintenanceRequest.contractor request)].
Proof.
  intro H. unfold dispatch, run, payMaintenanceContractor in H.
  monad_inv H. cbn in *. rewrite upd_same in *. cbn in *.
  apply MaintenanceStatus_eqb_eq in Hreq.
  repeat split; try assumption; try reflexivity.
  - apply upd_same.
  - intros p Hp. apply upd_other. exact Hp.
Qed.

(** The request counter never decreases, and no transaction moves an allocated
    request out of [Completed]. *)
Lemma step_completed s e c t requestId :
  requestId < maintenanceCounter s ->
  MaintenanceRequest.status (maintenanceRequests s requestId) = Completed ->
  let s' := storage_after (exec this e c s t) s in
  requestId < maintenanceCounter s' /\
  MaintenanceRequest.status (maintenanceRequests s' requestId) = Completed.
Proof.
  intros Hid Hc. unfold exec.
  destruct (run (dispatch this e c) s t) as [[v m] | x] eqn:H; cbn; [|split; assumption].
  step_cases H c; cbn; try (split; assumption).
  - (* requestMaintenance allocates the slot at the counter, above [requestId] *)
    split; [lia|]. rewrite upd_other by lia. exact Hc.
  - (* approveMaintenance only touches a Pending request *)
    split; [exact Hid|].
    apply MaintenanceStatus_eqb_eq in Hreq0.
    upd_split requestId; [congruence | exact Hc].
  - (* payMaintenanceContractor ends in Completed *)
    split; [exact Hid|].
    upd_split requestId; [reflexivity | exact Hc].
Qed.

Lemma evolves_completed s s' requestId :
  evolves this s s' ->
  requestId < maintenanceCounter s ->
  MaintenanceRequest.status (maintenanceRequests s requestId) = Completed ->
  requestId < maintenanceCounter s' /\
  MaintenanceRequest.status (maintenanceRequests s' requestId) = Completed.
Proof.
  induction 1 as [s | s s' e c t Hev IH]; intros Hid Hc.
  - split; assumption.
  - destruct (IH Hid Hc) as [Hid' Hc']. apply step_completed; assumption.
Qed.

(** The one transaction that moves a slot out of [Completed]: the
    [requestMaintenance] that allocates its id. *)
Lemma step_out_of_completed s e c t requestId :
  let o := exec this e c s t in
  let s' := storage_after o s in
  MaintenanceRequest.status (maintenanceRequests s requestId) = Completed ->
  MaintenanceRequest.status (maintenanceRequests s' requestId) <> Completed ->
  requestId = maintenanceCounter s /\
  (exists propertyId description estimatedCost,
     c = RequestMaintenance propertyId description estimatedCost) /\
  succeeded o = true /\
  maintenanceCounter s' = requestId + 1 /\
  MaintenanceRequest.status (maintenanceRequests s' requestId) = Pending.
Proof.
  intros o s' Hc. subst s' o. unfold exec.
  destruct (run (dispatch this e c) s t) as [[v m] | x] eqn:H; cbn;
    [|intro Hn; exfalso; apply Hn; exact Hc].
  step_cases H c; cbn; try (intro Hn; exfalso; apply Hn; exact Hc).
  - (* requestMaintenance writes the slot at the counter *)
    intro Hn.
    match goal with
    | |- context [upd _ (maintenanceCounter ?s0) _ requestId] =>
        destruct (Z.eq_dec requestId (maintenanceCounter s0)) as [Heq | Hne]
    end.
    + subst requestId. rewrite upd_same. cbn.
      split; [reflexivity|]. split; [eauto|]. repeat split; reflexivity.
    + exfalso. apply Hn. rewrite upd_other by exact Hne. exact Hc.
  - (* approveMaintenance only touches a Pending request *)
    intro Hn. exfalso. apply Hn.
    apply MaintenanceStatus_eqb_eq in Hreq0.
    upd_split requestId; [congruence | exact Hc].
  - (* payMaintenanceContractor ends in Completed *)
    intro Hn. exfalso. apply Hn.
    upd_split requestId; [reflexivity | exact Hc].
Qed.

(** C3 (as amended).  [payMaintenanceContractor] succeeds only on a slot whose
    status is exactly [Approved]; a successful payout sets the status to
    [Completed], debits the escrow of the slot's property by exactly the
    stored approved amount and issues one transfer of that amount to the
    stored contractor.  For a request that [requestMaintenance] has allocated
    (its id is below [maintenanceCounter]), [Completed] is final: whatever
    transactions follow, the request stays [Completed] and every later payout
    attempt on it reverts.  In general the only transaction that moves a slot
    out of [Completed] is the successful [requestMaintenance] that allocates
    exactly that id (the id equals [maintenanceCounter] before the call); it
    resets the slot to [Pending].  This is what happens to an id that an agent
    has approved ahead of its allocation (see the counterexample). *)
Theorem request_paid_at_most_once :
  (forall s e t requestId,
     let o := exec this e (PayMaintenanceContractor requestId) s t in
     let request := maintenanceRequests s requestId in
     let propertyId := MaintenanceRequest.propertyId request in
     let amount := MaintenanceRequest.approvedAmount request in
     succeeded o = true ->
     MaintenanceRequest.status request = Approved /\
     MaintenanceRequest.status (maintenanceRequests (storage_after o s) requestId)
       = Completed /\
     maintenanceFunds (storage_after o s) propertyId
       = maintenanceFunds s propertyId - amount /\
     (forall p, p <> propertyId ->
        maintenanceFunds (storage_after o s) p = maintenanceFunds s p) /\
     ops_of o = [OpTransfer (MaintenanceRequest.contractor request) amount] /\
     events_of o
       = [MaintenancePaid requestId amount (MaintenanceRequest.contractor request)]) /\
  (forall s s' requestId,
     requestId < maintenanceCounter s ->
     MaintenanceRequest.status (maintenanceRequests s requestId) = Completed ->
     evolves this s s' ->
     MaintenanceRequest.status (maintenanceRequests s' requestId) = Completed /\
     forall e t, succeeded (exec this e (PayMaintenanceContractor requestId) s' t) = false) /\
  (forall s e c t requestId,
     let o := exec this e c s t in
     let s' := storage_after o s in
     MaintenanceRequest.status (maintenanceRequests s requestId) = Completed ->
     MaintenanceRequest.status (maintenanceRequests s' requestId) <> Completed ->
     requestId = maintenanceCounter s /\
     (exists propertyId description estimatedCost,
        c = RequestMaintenance propertyId description estimatedCost) /\
     succeeded o = true /\
     maintenanceCounter s' = requestId + 1 /\
     MaintenanceRequest.status (maintenanceRequests s' requestId) = Pending).
Proof.
  split; [|split].
  - intros s e t requestId o request propertyId amount. subst o. unfold exec.
    destruct (run (dispatch this e (PayMaintenanceContractor requestId)) s t)
      as [[v m] | x] eqn:H; cbn; [intros _ | discriminate].
    pose proof (payout_effect _ _ _ _ _ _ H) as (H1 & H2 & H3 & _ & H5 & H6 & H7).
    repeat (split; [assumption|]). assumption.
  - intros s s' requestId Hid Hc Hev.
    destruct (evolves_completed s s' requestId Hev Hid Hc) as [_ Hc'].
    split; [exact Hc'|]. intros e t. unfold exec.
    destruct (run (dispatch this e (PayMaintenanceContractor requestId)) s' t)
      as [[v m] | x] eqn:H; [|reflexivity].
    apply payout_effect in H. destruct H as [H _]. congruence.
  - intros s e c t requestId. apply step_out_of_completed.
Qed.

End PaidOnce.

(** C3, instance: the payout of the approved 150 units out of an escrow of
    250, and a second attempt after it. *)
Lemma request_paid_at_most_once_witness :
  let s := fst (scenario funded_approved) in
  let t := snd (scenario funded_approved) in
  let pay := exec RENTFLOW (at_time PROPERTY_OWNER 200) (PayMaintenanceContractor 0) in
  succeeded (pay s t) = true /\
  MaintenanceRequest.status (maintenanceRequests (storage_after (pay s t) s) 0) = Completed /\
  succeeded (pay (storage_after (pay s t) s) (ledger_after (pay s t) t)) = false.
Proof.
  intros s t pay.
  assert (Hok : succeeded (pay s t) = true) by (vm_compute; reflexivity).
  destruct (request_paid_at_most_once (L := MockLedger) RENTFLOW) as (Hpay & Hfinal & _).
  destruct (Hpay s (at_time PROPERTY_OWNER 200) t 0 Hok) as (_ & Hdone & _).
  split; [exact Hok|]. split; [exact Hdone|].
  assert (Hid : 0 < maintenanceCounter (storage_after (pay s t) s))
    by (vm_compute; reflexivity).
  exact (proj2 (Hfinal _ _ 0 Hid Hdone (evolves_refl RENTFLOW _))
               (at_time PROPERTY_OWNER 200) (ledger_after (pay s t) t)).
Defined.

(** C3 as stated fails: a request can be paid twice, and an operation does
    move it out of [Completed].  The agent approves id 0 before any request
    exists and the approved 100 units are paid to the contractor; the first
    [requestMaintenance] then allocates id 0 and resets the slot to [Pending];
    approved again, the same id is paid a second time. *)
Lemma completed_request_paid_again_counterexample :
  let s0 := fst (scenario (approved_ahead 0)) in
  let t0 := snd (scenario (approved_ahead 0)) in
  let pay1 := exec RENTFLOW (at_time PROPERTY_OWNER 200) (PayMaintenanceContractor 0) s0 t0 in
  let s1 := storage_after pay1 s0 in
  let t1 := ledger_after pay1 t0 in
  let request :=
    exec RENTFLOW (at_time PROPERTY_OWNER 300) (RequestMaintenance 0 "Fix leak" (usdc 150))
         s1 t1 in
  let s2 := storage_after request s1 in
  let approve :=
    exec RENTFLOW (at_time AI_AGENT 400) (ApproveMaintenance 0 (usdc 100) CONTRACTOR) s2 t1 in
  let s3 := storage_after approve s2 in
  let pay2 := exec RENTFLOW (at_time PROPERTY_OWNER 500) (PayMaintenanceContractor 0) s3 t1 in
  (succeeded pay1 = true /\
   ops_of pay1 = [OpTransfer CONTRACTOR (usdc 100)] /\
   MaintenanceRequest.status (maintenanceRequests s1 0) = Completed /\
   maintenanceCounter s1 = 0) /\
  (succeeded request = true /\
   MaintenanceRequest.status (maintenanceRequests s2 0) = Pending) /\
  succeeded approve = true /\
  (succeeded pay2 = true /\
   ops_of pay2 = [OpTransfer CONTRACTOR (usdc 100)] /\
   maintenanceFunds s0 0 = usdc 250 /\
   maintenanceFunds (storage_after pay2 s3) 0 = usdc 50 /\
   balances (ledger_after pay2 t1) CONTRACTOR = balances t0 CONTRACTOR + usdc 200).
Proof. vm_compute. repeat split; reflexivity. Qed.

(** * C4: the security deposit is settled once *)

Section DepositSettlement.
Context {L : IERC20}.
Variable this : address.

(** What a successful settlement has checked and done. *)
Lemma settlement_effect e leaseId deductionAmount s t v m :
  run (dispatch this e (ReturnSecurityDeposit leaseId deductionAmount)) s t = Ok (v, m) ->
  let lease := leases s leaseId in
  let held := Lease.securityDepositHeld lease in
  let landlord := Property.owner (properties s (Lease.propertyId lease)) in
  deductionAmount <= held /\
  v = None /\
  Lease.securityDepositHeld (leases (storage m) leaseId) = 0 /\
  Lease.status (leases (storage m) leaseId) = LeaseCompleted /\
  issued m =
    (if 0 <? held - deductionAmount
     then [OpTransfer (Lease.tenant lease) (held - deductionAmount)] else [])
    ++ (if 0 <? deductionAmount then [OpTransfer landlord deductionAmount] else []) /\
  (issued m = [] -> token m = t).
Proof.
  intro H. unfold dispatch, run, returnSecurityDeposit in H.
  monad_inv H; cbn in *; repeat rewrite upd_same in *; cbn in *;
    apply Z.leb_le in Hreq1;
    repeat split; try assumption; try reflexivity; try discriminate;
    repeat match goal with
           | Hc : (0 <? _) = _ |- _ => rewrite Hc; clear Hc
           end; reflexivity.
Qed.

Lemma step_settled s e c t leaseId :
  leaseId < leaseCounter s ->
  Lease.securityDepositHeld (leases s leaseId) = 0 ->
  let s' := storage_after (exec this e c s t) s in
  leaseId < leaseCounter s' /\ Lease.securityDepositHeld (leases s' leaseId) = 0.
Proof.
  intros Hid Hz. unfold exec.
  destruct (run (dispatch this e c) s t) as [[v m] | x] eqn:H; cbn; [|split; assumption].
  step_cases H c; cbn; try (split; assumption);
    (split; [lia|]); upd_split leaseId; first [lia | reflexivity | exact Hz].
Qed.

Lemma evolves_settled s s' leaseId :
  evolves this s s' ->
  leaseId < leaseCounter s ->
  Lease.securityDepositHeld (leases s leaseId) = 0 ->
  leaseId < leaseCounter s' /\ Lease.securityDepositHeld (leases s' leaseId) = 0.
Proof.
  induction 1 as [s | s s' e c t Hev IH]; intros Hid Hz.
  - split; assumption.
  - destruct (IH Hid Hz) as [Hid' Hz']. apply step_settled; assumption.
Qed.

(** A created lease that holds nothing has been settled. *)
Lemma empty_lease_is_completed s leaseId :
  reachable this s ->
  0 <= leaseId < leaseCounter s ->
  Lease.securityDepositHeld (leases s leaseId) = 0 ->
  Lease.status (leases s leaseId) = LeaseCompleted.
Proof.
  intros Hr Hid Hz. pose proof (reachable_wf this s Hr) as W.
  destruct (wf_leases _ _ W leaseId Hid) as (_ & Hp & _ & _ & _ & [[_ Hheld] | [Hst _]]);
    [exfalso | exact Hst].
  destruct (wf_properties _ _ W _ Hp) as (_ & _ & Hrent). lia.
Qed.

(** A settlement of nothing: who may call it, when, and what it does. *)
Lemma empty_settlement e leaseId s t :
  let lease := leases s leaseId in
  let landlord := Property.owner (properties s (Lease.propertyId lease)) in
  let o := exec this e (ReturnSecurityDeposit leaseId 0) s t in
  entered s = false ->
  Lease.securityDepositHeld lease = 0 ->
  (msg_sender e <> landlord -> authorizedAIAgents s (msg_sender e) = false ->
   o = Reverted (Error "Not authorized")) /\
  (msg_sender e = landlord \/ authorizedAIAgents s (msg_sender e) = true ->
   Lease.status lease <> LeaseCompleted -> block_timestamp e <= Lease.endDate lease ->
   o = Reverted (Error "Lease not completed")) /\
  (msg_sender e = landlord \/ authorizedAIAgents s (msg_sender e) = true ->
   Lease.status lease = LeaseCompleted \/ Lease.endDate lease < block_timestamp e ->
   exists s',
     o = Success None s' t [SecurityDepositReturned leaseId (Lease.tenant lease) 0] []).
Proof.
  intros lease landlord o He Hz. subst o landlord lease.
  assert (Hauth : msg_sender e
                  = Property.owner (properties s (Lease.propertyId (leases s leaseId))) \/
                  authorizedAIAgents s (msg_sender e) = true ->
                  (msg_sender e
                   =? Property.owner (properties s (Lease.propertyId (leases s leaseId))))
                  || authorizedAIAgents s (msg_sender e) = true).
  { intro Ha. apply orb_true_iff.
    destruct Ha as [Ha | Ha]; [left; apply Z.eqb_eq | right]; exact Ha. }
  split; [|split].
  - intros Hne Hag. apply Z.eqb_neq in Hne.
    assert (Hb : (msg_sender e
                  =? Property.owner (properties s (Lease.propertyId (leases s leaseId))))
                 || authorizedAIAgents s (msg_sender e) = false)
      by (rewrite Hne, Hag; reflexivity).
    unfold exec.
    replace (run (dispatch this e (ReturnSecurityDeposit leaseId 0)) s t)
      with (@Err (option uint256 * Machine) (Error "Not authorized")); [reflexivity|].
    symmetry. unfold run, dispatch, returning_nothing, returnSecurityDeposit.
    repeat fwd; first [reflexivity | absurd_branch].
  - intros Ha Hst Hend. apply Hauth in Ha.
    assert (Hover : LeaseStatus_eqb (Lease.status (leases s leaseId)) LeaseCompleted
                    || (Lease.endDate (leases s leaseId) <? block_timestamp e) = false).
    { apply orb_false_iff. split; [|apply Z.ltb_ge; exact Hend].
      destruct (LeaseStatus_eqb (Lease.status (leases s leaseId)) LeaseCompleted) eqn:E;
        [|reflexivity].
      apply LeaseStatus_eqb_eq in E. contradiction. }
    unfold exec.
    replace (run (dispatch this e (ReturnSecurityDeposit leaseId 0)) s t)
      with (@Err (option uint256 * Machine) (Error "Lease not completed")); [reflexivity|].
    symmetry. unfold run, dispatch, returning_nothing, returnSecurityDeposit.
    repeat fwd; try first [reflexivity | absurd_branch].
  - intros Ha Hover. apply Hauth in Ha.
    assert (Hb : LeaseStatus_eqb (Lease.status (leases s leaseId)) LeaseCompleted
                 || (Lease.endDate (leases s leaseId) <? block_timestamp e) = true).
    { apply orb_true_iff.
      destruct Hover as [Hc | Hc]; [left; apply LeaseStatus_eqb_eq | right; apply Z.ltb_lt];
        exact Hc. }
    assert (Hgo : exists m, run (dispatch this e (ReturnSecurityDeposit leaseId 0)) s t
                            = Ok (None, m) /\ token m = t /\ issued m = [] /\
                              emitted m = [SecurityDepositReturned leaseId
                                             (Lease.tenant (leases s leaseId)) 0]).
    { eexists. split.
      - unfold run, dispatch, returning_nothing, returnSecurityDeposit.
        repeat fwd; try first [reflexivity | absurd_branch].
      - cbn. rewrite !upd_same. cbn. rewrite Hz. repeat split; reflexivity. }
    destruct Hgo as (m & Hrun & Ht & Hops & Hev).
    exists (storage m). unfold exec. rewrite Hrun, Ht, Hops, Hev. reflexivity.
Qed.

(** C4 (as amended).  A successful [returnSecurityDeposit] with deduction [d]
    on a lease holding [h] issues a transfer of [h - d] to the tenant (when
    positive) and a transfer of [d] to the property owner (when positive) and
    nothing else, so that what it pays out adds up to [h] exactly; it leaves
    the lease [Completed] with nothing held.  Once nothing is held on an
    allocated lease this stays so, and every later call on that lease moves no
    funds: it issues no ledger call and leaves the ledger as it is, and it
    reverts when its deduction is positive.  A later call with deduction 0 is
    not refused for being a repetition: in a reachable state, on a lease
    holding nothing, it succeeds exactly when the caller is the property owner
    or an authorized agent and the lease is [Completed] (as a created lease
    holding nothing is) or past its end date; it then emits
    [SecurityDepositReturned] with amount 0 and pays nothing.  From any other
    caller it reverts with "Not authorized". *)
Theorem deposit_settled_once :
  (forall s e t leaseId deductionAmount,
     let o := exec this e (ReturnSecurityDeposit leaseId deductionAmount) s t in
     let lease := leases s leaseId in
     let held := Lease.securityDepositHeld lease in
     let landlord := Property.owner (properties s (Lease.propertyId lease)) in
     0 <= deductionAmount ->
     succeeded o = true ->
     deductionAmount <= held /\
     ops_of o = (if 0 <? held - deductionAmount
                 then [OpTransfer (Lease.tenant lease) (held - deductionAmount)] else [])
                ++ (if 0 <? deductionAmount
                    then [OpTransfer landlord deductionAmount] else []) /\
     total_moved (ops_of o) = held /\
     Lease.securityDepositHeld (leases (storage_after o s) leaseId) = 0 /\
     Lease.status (leases (storage_after o s) leaseId) = LeaseCompleted) /\
  (forall s s' leaseId,
     leaseId < leaseCounter s ->
     Lease.securityDepositHeld (leases s leaseId) = 0 ->
     evolves this s s' ->
     Lease.securityDepositHeld (leases s' leaseId) = 0 /\
     forall e t deductionAmount,
       0 <= deductionAmount ->
       let o := exec this e (ReturnSecurityDeposit leaseId deductionAmount) s' t in
       (0 < deductionAmount -> succeeded o = false) /\
       ops_of o = [] /\ ledger_after o t = t) /\
  (forall s e t leaseId,
     let lease := leases s leaseId in
     let landlord := Property.owner (properties s (Lease.propertyId lease)) in
     let o := exec this e (ReturnSecurityDeposit leaseId 0) s t in
     reachable this s ->
     Lease.securityDepositHeld lease = 0 ->
     (0 <= leaseId < leaseCounter s -> Lease.status lease = LeaseCompleted) /\
     (succeeded o = true <->
        (msg_sender e = landlord \/ authorizedAIAgents s (msg_sender e) = true) /\
        (Lease.status lease = LeaseCompleted \/ Lease.endDate lease < block_timestamp e)) /\
     (succeeded o = true ->
        events_of o = [SecurityDepositReturned leaseId (Lease.tenant lease) 0] /\
        ops_of o = [] /\ ledger_after o t = t /\
        Lease.status (leases (storage_after o s) leaseId) = LeaseCompleted) /\
     (msg_sender e <> landlord -> authorizedAIAgents s (msg_sender e) = false ->
        o = Reverted (Error "Not authorized"))).
Proof.
  split; [|split].
  - intros s e t leaseId d o lease held landlord Hd. subst o. unfold exec.
    destruct (run (dispatch this e (ReturnSecurityDeposit leaseId d)) s t)
      as [[v m] | x] eqn:H; cbn; [intros _ | discriminate].
    pose proof (settlement_effect _ _ _ _ _ _ _ H) as (Hle & Hv & Hz & Hst & Hops & _).
    fold lease in Hle, Hops. fold held in Hle, Hops. fold landlord in Hops.
    split; [exact Hle|]. split; [exact Hops|].
    split; [|split; assumption].
    rewrite Hops.
    destruct (0 <? held - d) eqn:E1; destruct (0 <? d) eqn:E2; cbn; lia.
  - intros s s' leaseId Hid Hz Hev.
    destruct (evolves_settled s s' leaseId Hev Hid Hz) as [_ Hz'].
    split; [exact Hz'|]. intros e t d Hd o. subst o. unfold exec.
    destruct (run (dispatch this e (ReturnSecurityDeposit leaseId d)) s' t)
      as [[v m] | x] eqn:H; cbn.
    + pose proof (settlement_effect _ _ _ _ _ _ _ H) as (Hle & _ & _ & _ & Hops & Htok).
      rewrite Hz' in Hle, Hops.
      assert (d = 0) by lia. subst d. cbn in Hops.
      split; [intro; lia|]. split; [exact Hops | apply Htok; exact Hops].
    + split; [reflexivity|]. split; reflexivity.
  - intros s e t leaseId lease landlord o Hr Hz.
    pose proof (inv_entered _ _ (reachable_inv this s Hr)) as He.
    destruct (empty_settlement e leaseId s t He Hz) as (Hno & Hearly & Hgo).
    fold lease in Hno, Hearly, Hgo. fold landlord in Hno, Hearly, Hgo.
    fold o in Hno, Hearly, Hgo.
    split; [intro Hid; apply empty_lease_is_completed; assumption|].
    assert (Hauth : (msg_sender e = landlord \/ authorizedAIAgents s (msg_sender e) = true) \/
                    (msg_sender e <> landlord /\ authorizedAIAgents s (msg_sender e) = false)).
    { destruct (Z.eq_dec (msg_sender e) landlord) as [Ha | Ha]; [left; left; exact Ha|].
      destruct (authorizedAIAgents s (msg_sender e)); [left; right; reflexivity|].
      right. split; [exact Ha | reflexivity]. }
    assert (Hover : (Lease.status lease = LeaseCompleted \/
                     Lease.endDate lease < block_timestamp e) \/
                    (Lease.status lease <> LeaseCompleted /\
                     block_timestamp e <= Lease.endDate lease)).
    { destruct (Z_lt_dec (Lease.endDate lease) (block_timestamp e)) as [Hl | Hl];
        [left; right; exact Hl|].
      destruct (LeaseStatus_eqb (Lease.status lease) LeaseCompleted) eqn:E.
      - left. left. apply LeaseStatus_eqb_eq. exact E.
      - right. split; [|lia]. intro Hc. apply LeaseStatus_eqb_eq in Hc. congruence. }
    destruct Hauth as [Ha | [Hn1 Hn2]]; [destruct Hover as [Ho | [Hs Ht]]|].
    + destruct (Hgo Ha Ho) as [s' Hdone].
      assert (Hst : Lease.status (leases (storage_after o s) leaseId) = LeaseCompleted).
      { assert (Hd : 0 <= 0) by lia.
        subst o. unfold exec in *.
        destruct (run (dispatch this e (ReturnSecurityDeposit leaseId 0)) s t)
          as [[v m] | x] eqn:H; [|discriminate].
        apply settlement_effect in H. cbn. apply H. }
      rewrite Hdone in *. cbn.
      split; [split; [intros _; split; assumption | reflexivity]|].
      split; [intros _; repeat split; try reflexivity; exact Hst|].
      intros Hn1 Hn2. exfalso. destruct Ha as [Ha | Ha]; congruence.
    + rewrite (Hearly Ha Hs Ht). cbn.
      split; [split; [discriminate|]|].
      * intros [_ [Hc | Hc]]; [contradiction | lia].
      * split; [discriminate|]. intros Hn1 Hn2. exfalso.
        destruct Ha as [Ha | Ha]; congruence.
    + rewrite (Hno Hn1 Hn2). cbn.
      split; [split; [discriminate|]|].
      * intros [[Ha | Ha] _]; congruence.
      * split; [discriminate|]. intros _ _. reflexivity.
Qed.

End DepositSettlement.

(** C4, instance: a deposit of 2500 units settled with a deduction of 500, a
    second settlement attempt with a deduction of 1 unit, and an attempt with
    deduction 0 by an account that is neither the property owner nor an
    agent. *)
Lemma deposit_settled_once_witness :
  let s := fst (scenario leased) in
  let t := snd (scenario leased) in
  let settle d := exec RENTFLOW (at_time PROPERTY_OWNER (lease_end + 1))
                       (ReturnSecurityDeposit 0 d) in
  ops_of (settle (usdc 500) s t)
    = [OpTransfer TENANT (usdc 2000); OpTransfer PROPERTY_OWNER (usdc 500)] /\
  total_moved (ops_of (settle (usdc 500) s t)) = usdc 2500 /\
  succeeded (settle (usdc 1) (fst (scenario settled)) (snd (scenario settled))) = false /\
  exec RENTFLOW (at_time STRANGER (lease_end + 2)) (ReturnSecurityDeposit 0 0)
       (fst (scenario settled)) (snd (scenario settled))
    = Reverted (Error "Not authorized").
Proof.
  intros s t settle.
  destruct (deposit_settled_once (L := MockLedger) RENTFLOW) as (Hpay & Hfinal & Hempty).
  assert (Hd : 0 <= usdc 500) by (vm_compute; discriminate).
  assert (Hok : succeeded (settle (usdc 500) s t) = true) by (vm_compute; reflexivity).
  destruct (Hpay s (at_time PROPERTY_OWNER (lease_end + 1)) t 0 (usdc 500) Hd Hok)
    as (_ & Hops & Hsum & _).
  fold (settle (usdc 500)) in Hops, Hsum.
  split; [rewrite Hops; vm_compute; reflexivity|].
  split; [rewrite Hsum; vm_compute; reflexivity|].
  assert (Hid : 0 < leaseCounter (fst (scenario settled))) by (vm_compute; reflexivity).
  assert (Hz : Lease.securityDepositHeld (leases (fst (scenario settled)) 0) = 0)
    by (vm_compute; reflexivity).
  assert (Hd1 : 0 <= usdc 1) by (vm_compute; discriminate).
  split.
  - refine (proj1 (proj2 (Hfinal _ _ 0 Hid Hz (evolves_refl RENTFLOW _))
                         (at_time PROPERTY_OWNER (lease_end + 1))
                         (snd (scenario settled)) (usdc 1) Hd1) _).
    vm_compute. reflexivity.
  - assert (R : reachable RENTFLOW (fst (scenario settled)))
      by (apply scenario_reachable; reflexivity).
    refine (proj2 (proj2 (proj2 (Hempty (fst (scenario settled))
                                        (at_time STRANGER (lease_end + 2))
                                        (snd (scenario settled)) 0 R Hz))) _ _).
    + intro Hx. vm_compute in Hx. discriminate Hx.
    + vm_compute. reflexivity.
Defined.

(** C4 as stated fails: after the deposit has been settled, a further call
    with deduction 0 is not refused.  It succeeds, pays nothing and emits
    [SecurityDepositReturned] with amount 0 once more. *)
Lemma repeated_settlement_counterexample :
  let again := exec RENTFLOW (at_time PROPERTY_OWNER (lease_end + 2))
                    (ReturnSecurityDeposit 0 0)
                    (fst (scenario settled)) (snd (scenario settled)) in
  Lease.securityDepositHeld (leases (fst (scenario settled)) 0) = 0 /\
  succeeded again = true /\
  events_of again = [SecurityDepositReturned 0 TENANT 0] /\
  ops_of again = [].
Proof. vm_compute. repeat split; reflexivity. Qed.

(** * C5: lease creation and the deposit pull *)

#[export] Instance MockLedger_standard : StandardLedger MockLedger.
Proof.
  assert (Hupd : forall from to value t t',
             mock_update from to value t = Returned true t' ->
             forall a, balances t' a =
               balances t a - (if a =? from then value else 0)
                            + (if a =? to then value else 0)).
  { intros from to value t t' H a. unfold mock_update in H.
    destruct (from =? address0); [discriminate|].
    destruct (to =? address0); [discriminate|].
    destruct (balances t from <? value); [discriminate|].
    inversion H; subst; clear H. cbn. unfold upd.
    repeat match goal with
           | |- context [?x =? ?y] => destruct (Z.eqb_spec x y)
           end; subst; first [lia | congruence]. }
  split.
  - intros sender to amount t t' H a. cbn in *. unfold mock_transfer in H.
    apply (Hupd _ _ _ _ _ H).
  - intros spender from to amount t t' H a. cbn in *. unfold mock_transferFrom in H.
    destruct (allowances t from spender =? MAX_UINT256); [apply (Hupd _ _ _ _ _ H)|].
    destruct (allowances t from spender <? amount); [discriminate|].
    destruct ((from =? address0) || (spender =? address0)); [discriminate|].
    apply (Hupd _ _ _ _ _ H a).
Qed.

Section LeaseCreation.
Context {L : IERC20} {SL : StandardLedger L}.
Variable this : address.

(** What a successful [createLease] has checked and done. *)
Lemma createLease_effect e propertyId tenant startDate durationMonths rentDueDay s t v m :
  run (dispatch this e (CreateLease propertyId tenant startDate durationMonths rentDueDay)) s t
    = Ok (v, m) ->
  let deposit := Property.securityDeposit (properties s propertyId) in
  transferFrom this tenant this deposit t = Returned true (token m) /\
  Property.isActive (properties s propertyId) = true /\
  issued m = [OpTransferFrom tenant this deposit] /\
  v = Some (leaseCounter s) /\
  leaseCounter (storage m) = leaseCounter s + 1 /\
  leases (storage m) (leaseCounter s)
    = Lease.mk propertyId tenant startDate (startDate + durationMonths * (30 * DAY))
               rentDueDay 0 0 LeaseActive deposit /\
  emitted m = [LeaseCreated (leaseCounter s) propertyId tenant].
Proof.
  intro H. unfold dispatch, run, createLease in H.
  monad_inv H. cbn in *. rewrite upd_same.
  repeat split; try assumption; reflexivity.
Qed.

(** Lease creation against any standard ledger. *)
Lemma lease_creation_on_standard_ledger :
  forall s e t propertyId tenant startDate durationMonths rentDueDay,
    let o := exec this e
               (CreateLease propertyId tenant startDate durationMonths rentDueDay) s t in
    let deposit := Property.securityDeposit (properties s propertyId) in
    let pull := transferFrom this tenant this deposit t in
    (succeeded o = true ->
       pull = Returned true (ledger_after o t) /\
       ops_of o = [OpTransferFrom tenant this deposit] /\
       (tenant <> this ->
        balanceOf (ledger_after o t) this = balanceOf t this + deposit) /\
       leaseCounter (storage_after o s) = leaseCounter s + 1 /\
       let lease := leases (storage_after o s) (leaseCounter s) in
       Lease.status lease = LeaseActive /\
       Lease.totalPaid lease = 0 /\
       Lease.lastPaymentDate lease = 0 /\
       Lease.securityDepositHeld lease = deposit /\
       Lease.propertyId lease = propertyId /\
       Lease.tenant lease = tenant) /\
    (confirmed pull = false ->
       succeeded o = false /\
       storage_after o s = s /\
       ledger_after o t = t /\
       (createLease_reaches_pull e s propertyId tenant startDate durationMonths rentDueDay
          = true ->
        exists r, o = Reverted r /\ classify r = FundsTransferFailed)).
Proof.
  intros s e t propertyId tenant startDate durationMonths rentDueDay o deposit pull.
  split.
  - subst o. unfold exec.
    destruct (run (dispatch this e
                (CreateLease propertyId tenant startDate durationMonths rentDueDay)) s t)
      as [[v m] | x] eqn:H; cbn; [intros _ | discriminate].
    pose proof (createLease_effect _ _ _ _ _ _ _ _ _ _ H) as (Hp & _ & Hops & _ & Hc & Hl & _).
    fold deposit in Hp, Hops, Hl.
    split; [exact Hp|]. split; [exact Hops|]. split.
    + intro Hne. rewrite (transferFrom_moves _ _ _ _ _ _ Hp this).
      rewrite Z.eqb_refl. apply Z.eqb_neq in Hne. rewrite Z.eqb_sym in Hne.
      rewrite Hne. lia.
    + split; [exact Hc|]. rewrite Hl. cbn. repeat split; reflexivity.
  - intro Hpull.
    assert (Hfail : succeeded o = false).
    { subst o. unfold exec.
      destruct (run (dispatch this e
                  (CreateLease propertyId tenant startDate durationMonths rentDueDay)) s t)
        as [[v m] | x] eqn:H; [|reflexivity].
      apply createLease_effect in H. destruct H as [H _].
      fold deposit in H. fold pull in H. rewrite H in Hpull. discriminate. }
    split; [exact Hfail|].
    split; [destruct o; [discriminate | reflexivity]|].
    split; [destruct o; [discriminate | reflexivity]|].
    intro Hguards. unfold createLease_reaches_pull in Hguards.
    repeat (apply andb_true_iff in Hguards; destruct Hguards as [Hguards ?]).
    subst o pull deposit. unfold exec.
    destruct (transferFrom this tenant this
                (Property.securityDeposit (properties s propertyId)) t)
      as [[|] t' |] eqn:Ep; [discriminate | |].
    + exists (Error "Security deposit transfer failed"). split; [|reflexivity].
      replace (run (dispatch this e
                (CreateLease propertyId tenant startDate durationMonths rentDueDay)) s t)
        with (@Err (option uint256 * Machine) (Error "Security deposit transfer failed"));
        [reflexivity|].
      symmetry. unfold run, dispatch, returning_id, createLease.
      repeat fwd; first [reflexivity | absurd_branch].
    + exists LedgerCallReverted. split; [|reflexivity].
      replace (run (dispatch this e
                (CreateLease propertyId tenant startDate durationMonths rentDueDay)) s t)
        with (@Err (option uint256 * Machine) LedgerCallReverted);
        [reflexivity|].
      symmetry. unfold run, dispatch, returning_id, createLease.
      repeat fwd; first [reflexivity | absurd_branch].
Qed.

End LeaseCreation.

(** ** The deployment on MockUSDC never grants itself an allowance *)

Lemma mock_update_allowances from to value t b t' :
  mock_update from to value t = Returned b t' -> allowances t' = allowances t.
Proof.
  unfold mock_update.
  destruct (from =? address0); [discriminate|].
  destruct (to =? address0); [discriminate|].
  destruct (balances t from <? value); [discriminate|].
  intro H. inversion H. reflexivity.
Qed.

Lemma mock_transferFrom_no_self_allowance this spender from to value t b t' :
  no_self_allowance this t ->
  mock_transferFrom spender from to value t = Returned b t' ->
  from <> this \/ 0 <= value ->
  no_self_allowance this t'.
Proof.
  intros Hno H Hside x. unfold mock_transferFrom in H.
  destruct (allowances t from spender =? MAX_UINT256) eqn:Emax.
  - rewrite (mock_update_allowances _ _ _ _ _ _ H). apply Hno.
  - destruct (allowances t from spender <? value) eqn:Elt; [discriminate|].
    destruct ((from =? address0) || (spender =? address0)); [discriminate|].
    rewrite (mock_update_allowances _ _ _ _ _ _ H). cbn.
    destruct (Z.eqb_spec this from) as [<- | Hne]; [|apply Hno].
    unfold upd. destruct (Z.eqb_spec x spender) as [-> | _]; [|apply Hno].
    rewrite (Hno spender) in Elt |- *. apply Z.ltb_ge in Elt.
    destruct Hside as [Hf | Hv]; [congruence | lia].
Qed.

Lemma mock_transfer_no_self_allowance this sender to value t b t' :
  no_self_allowance this t ->
  mock_transfer sender to value t = Returned b t' ->
  no_self_allowance this t'.
Proof.
  intros Hno H x. unfold mock_transfer in H.
  rewrite (mock_update_allowances _ _ _ _ _ _ H). apply Hno.
Qed.

Lemma mock_call_no_self_allowance this sender c t :
  no_self_allowance this t -> sender <> this -> 0 <= token_value c ->
  no_self_allowance this (mock_call sender c t).
Proof.
  intros Hno Hs Hv. destruct c as [sp v | to v | from to v | to v | v]; cbn in *.
  - destruct ((sender =? address0) || (sp =? address0)); [exact Hno|].
    intro x. cbn. destruct (Z.eqb_spec this sender) as [E | _]; [congruence | apply Hno].
  - destruct (mock_transfer sender to v t) as [b t' |] eqn:E; cbn; [|exact Hno].
    exact (mock_transfer_no_self_allowance _ _ _ _ _ _ _ Hno E).
  - destruct (mock_transferFrom sender from to v t) as [b t' |] eqn:E; cbn; [|exact Hno].
    apply (mock_transferFrom_no_self_allowance _ _ _ _ _ _ _ _ Hno E). right. exact Hv.
  - destruct (to =? address0); exact Hno.
  - destruct (balances t sender <? v); exact Hno.
Qed.

(** Whatever the ledger, a transaction of the contract changes it only through
    the contract's own [transfer] and [transferFrom] calls; what it pulls comes
    from the caller's account, or from a tenant's for a deposit that is
    positive.  A property of the ledger that those calls preserve is therefore
    preserved by the transaction. *)
Section LedgerFrame.
Context {L : IERC20}.
Variable this : address.
Variable P : ledger -> Prop.
Hypothesis P_transfer : forall to value t b t',
  transfer this to value t = Returned b t' -> P t -> P t'.
Hypothesis P_transferFrom : forall from to value t b t',
  transferFrom this from to value t = Returned b t' ->
  from <> this \/ 0 <= value -> P t -> P t'.

Lemma exec_preserves_ledger_property s t e c :
  reachable this s -> external_caller this e ->
  P t -> P (ledger_after (exec this e c s t) t).
Proof.
  intros Hr [_ Hext] Hno. pose proof (reachable_inv this s Hr) as I.
  unfold exec.
  destruct (run (dispatch this e c) s t) as [[v m] | x] eqn:H; cbn; [|exact Hno].
  step_cases H c; cbn; try exact Hno;
    repeat match goal with
           | Hc : transferFrom _ _ _ _ _ = Returned _ _ |- _ =>
               apply P_transferFrom in Hc;
               [| first [ left; assumption
                        | (* createLease: an active property's deposit is positive *)
                          right;
                          match goal with
                          | Ha : Property.isActive (properties _ ?p) = true |- _ =>
                              pose proof (inv_deposits _ _ I p Ha); lia
                          end ]
                | assumption]
           | Hc : transfer _ _ _ _ = Returned _ _ |- _ =>
               apply P_transfer in Hc; [|assumption]
           end; assumption.
Qed.

End LedgerFrame.

Section MockDeployment.
Variable this : address.

Lemma mock_reachable_storage s t : mock_reachable this s t -> reachable this s.
Proof.
  induction 1 as [deployer t H0 Hd Hdt _ | s t e c _ IH He | s t sender c _ IH _ _].
  - apply reachable_deploy; assumption.
  - apply reachable_step; assumption.
  - exact IH.
Qed.

Lemma mock_reachable_no_self_allowance s t :
  mock_reachable this s t -> no_self_allowance this t.
Proof.
  induction 1 as [deployer t H0 Hd Hdt Hno | s t e c Hm IH He | s t sender c _ IH Hs Hv].
  - exact Hno.
  - apply (exec_preserves_ledger_property (L := MockLedger) this (no_self_allowance this)).
    + intros to value t0 b t' H0 Hno.
      exact (mock_transfer_no_self_allowance _ _ _ _ _ _ _ Hno H0).
    + intros from to value t0 b t' H0 Hside Hno.
      exact (mock_transferFrom_no_self_allowance _ _ _ _ _ _ _ _ Hno H0 Hside).
    + apply mock_reachable_storage with t. exact Hm.
    + exact He.
    + exact IH.
  - apply mock_call_no_self_allowance; assumption.
Qed.

Lemma replay_mock_reachable calls : forall s t,
  mock_reachable this s t ->
  Forall (fun ec => external_caller this (fst ec)) calls ->
  mock_reachable this (fst (replay this s t calls)) (snd (replay this s t calls)).
Proof.
  induction calls as [| [e c] rest IH]; intros s t Hm Hall; cbn.
  - exact Hm.
  - inversion Hall; subst. apply IH; [|assumption].
    apply mock_contract_step; assumption.
Qed.

End MockDeployment.

Lemma scenario_mock_reachable calls :
  forallb (fun ec => negb (msg_sender (fst ec) =? address0)
                     && negb (msg_sender (fst ec) =? RENTFLOW)) calls = true ->
  mock_reachable RENTFLOW (fst (scenario calls)) (snd (scenario calls)).
Proof.
  intro H. unfold scenario. apply replay_mock_reachable.
  - apply mock_deployed; try discriminate. intro spender. reflexivity.
  - apply Forall_forall. intros ec Hin.
    rewrite forallb_forall in H. specialize (H ec Hin).
    apply andb_true_iff in H. destruct H as [H1 H2].
    apply negb_true_iff in H1, H2. apply Z.eqb_neq in H1, H2.
    split; assumption.
Defined.

(** C5.  A successful [createLease] has pulled exactly the property's
    [securityDeposit] from the tenant into the contract: one [transferFrom],
    which the ledger confirmed.  The lease it stores is [Active] with
    [totalPaid = 0], [lastPaymentDate = 0] and [securityDepositHeld] equal to
    the deposit.  If the ledger does not confirm the pull, the call does not
    succeed and the storage, lease counter and lease records included, is
    exactly what it was; when the call got as far as the pull the revert is a
    [FundsTransferFailed].  On any standard ledger the contract's balance
    grows by exactly the deposit when the tenant is another account than the
    contract; on the repository's MockUSDC, in every state a deployment can
    reach, the tenant of a successful [createLease] is never the contract (it
    has granted itself no allowance and the deposit is positive), so the
    balance grows by exactly the deposit for every successful lease
    creation. *)
Theorem lease_creation_all_or_nothing :
  (forall (L : IERC20), StandardLedger L ->
   forall this s e t propertyId tenant startDate durationMonths rentDueDay,
     let o := exec this e
                (CreateLease propertyId tenant startDate durationMonths rentDueDay) s t in
     let deposit := Property.securityDeposit (properties s propertyId) in
     let pull := transferFrom this tenant this deposit t in
     (succeeded o = true ->
        pull = Returned true (ledger_after o t) /\
        ops_of o = [OpTransferFrom tenant this deposit] /\
        (tenant <> this ->
         balanceOf (ledger_after o t) this = balanceOf t this + deposit) /\
        leaseCounter (storage_after o s) = leaseCounter s + 1 /\
        let lease := leases (storage_after o s) (leaseCounter s) in
        Lease.status lease = LeaseActive /\
        Lease.totalPaid lease = 0 /\
        Lease.lastPaymentDate lease = 0 /\
        Lease.securityDepositHeld lease = deposit /\
        Lease.propertyId lease = propertyId /\
        Lease.tenant lease = tenant) /\
     (confirmed pull = false ->
        succeeded o = false /\
        storage_after o s = s /\
        ledger_after o t = t /\
        (createLease_reaches_pull e s propertyId tenant startDate durationMonths rentDueDay
           = true ->
         exists r, o = Reverted r /\ classify r = FundsTransferFailed))) /\
  (forall this s t e propertyId tenant startDate durationMonths rentDueDay,
     mock_reachable this s t ->
     let o := exec (L := MockLedger) this e
                (CreateLease propertyId tenant startDate durationMonths rentDueDay) s t in
     succeeded o = true ->
     tenant <> this /\
     balances (ledger_after o t) this
       = balances t this + Property.securityDeposit (properties s propertyId)).
Proof.
  split.
  - intros L SL this s e t propertyId tenant startDate durationMonths rentDueDay.
    apply lease_creation_on_standard_ledger.
  - intros this s t e propertyId tenant startDate durationMonths rentDueDay Hm o Hok.
    assert (Hne : tenant <> this).
    { intros ->. subst o. unfold exec in Hok.
      destruct (run (L := MockLedger) (dispatch this e
                  (CreateLease propertyId this startDate durationMonths rentDueDay)) s t)
        as [[v m] | x] eqn:H; [|discriminate].
      apply createLease_effect in H. destruct H as (Hpull & Hact & _).
      pose proof (inv_deposits _ _ (reachable_inv this s (mock_reachable_storage this s t Hm))
                    propertyId Hact) as Hpos.
      pose proof (mock_reachable_no_self_allowance this s t Hm this) as Hno.
      cbn in Hpull. unfold mock_transferFrom in Hpull. rewrite Hno in Hpull.
      rewrite MAX_UINT256_value in Hpull. cbn in Hpull.
      apply Z.ltb_lt in Hpos. rewrite Hpos in Hpull. discriminate. }
    split; [exact Hne|].
    destruct (lease_creation_on_standard_ledger (L := MockLedger) this s e t propertyId
                tenant startDate durationMonths rentDueDay) as [Hsucc _].
    destruct (Hsucc Hok) as (_ & _ & Hbal & _). exact (Hbal Hne).
Qed.

(** C5, instance: a lease for the tenant, who has approved the contract, and
    one for an account that has not, whose deposit cannot be pulled. *)
Lemma lease_creation_all_or_nothing_witness :
  let s := fst (scenario registered) in
  let t := snd (scenario registered) in
  let lease_for tenant :=
    exec RENTFLOW (at_time PROPERTY_OWNER 100) (CreateLease 0 tenant 100 12 1) s t in
  StandardLedger MockLedger /\
  mock_reachable RENTFLOW s t /\
  (succeeded (lease_for TENANT) = true /\
   balances (ledger_after (lease_for TENANT) t) RENTFLOW = balances t RENTFLOW + usdc 2500) /\
  (confirmed (transferFrom RENTFLOW STRANGER RENTFLOW (usdc 2500) t) = false /\
   storage_after (lease_for STRANGER) s = s /\
   exists r, lease_for STRANGER = Reverted r /\ classify r = FundsTransferFailed).
Proof.
  intros s t lease_for.
  assert (R : mock_reachable RENTFLOW s t) by (apply scenario_mock_reachable; reflexivity).
  split; [exact MockLedger_standard|]. split; [exact R|].
  destruct lease_creation_all_or_nothing as [Hany Hmock].
  split.
  - assert (Hok : succeeded (lease_for TENANT) = true) by (vm_compute; reflexivity).
    split; [exact Hok|].
    destruct (Hmock RENTFLOW s t (at_time PROPERTY_OWNER 100) 0 TENANT 100 12 1 R Hok)
      as [_ Hbal].
    fold (lease_for TENANT) in Hbal. rewrite Hbal. vm_compute. reflexivity.
  - assert (Hno : confirmed (transferFrom RENTFLOW STRANGER RENTFLOW (usdc 2500) t) = false)
      by (vm_compute; reflexivity).
    split; [exact Hno|].
    destruct (proj2 (Hany MockLedger MockLedger_standard RENTFLOW s
                       (at_time PROPERTY_OWNER 100) t 0 STRANGER 100 12 1) Hno)
      as (_ & Hs & _ & Hr).
    split; [exact Hs|]. apply Hr. vm_compute. reflexivity.
Defined.

(** * C6: rent payments *)

Section RentPayments.
Context {L : IERC20} {SL : StandardLedger L}.
Variable this : address.

(** What a successful [payRent] has checked and done. *)
Lemma payRent_effect e leaseId s t v m :
  run (dispatch this e (PayRent leaseId)) s t = Ok (v, m) ->
  let lease := leases s leaseId in
  let prop := properties s (Lease.propertyId lease) in
  let rent := Property.monthlyRent prop in
  (entered s = false /\ paused s = false /\
   Lease.status lease = LeaseActive /\ msg_sender e = Lease.tenant lease /\
   Lease.startDate lease <= block_timestamp e <= Lease.endDate lease) /\
  transferFrom this (msg_sender e) (Property.owner prop) rent t = Returned true (token m) /\
  issued m = [OpTransferFrom (msg_sender e) (Property.owner prop) rent] /\
  emitted m = [RentPaid leaseId rent (block_timestamp e)] /\
  leases (storage m) leaseId
    = Lease.set_totalPaid (Lease.totalPaid lease + rent)
        (Lease.set_lastPaymentDate (block_timestamp e) lease) /\
  Lease.totalPaid lease + rent <= MAX_UINT256 /\
  properties (storage m) = properties s /\
  maintenanceFunds (storage m) = maintenanceFunds s.
Proof.
  intro H. unfold dispatch, run, payRent in H.
  monad_inv H. cbn in *. repeat rewrite upd_same in *. cbn in *.
  apply LeaseStatus_eqb_eq in Hreq. apply Z.eqb_eq in Hreq0.
  apply Z.leb_le in Hreq1. apply Z.leb_le in Hreq2.
  repeat split; try assumption; try reflexivity.
Qed.

(** One [payRent] call, successful or not. *)
Lemma payRent_step e leaseId s t :
  let o := exec this e (PayRent leaseId) s t in
  let s' := storage_after o s in
  let t' := ledger_after o t in
  let lease := leases s leaseId in
  let prop := properties s (Lease.propertyId lease) in
  let paid := if succeeded o then Property.monthlyRent prop else 0 in
  properties s' = properties s /\
  maintenanceFunds s' = maintenanceFunds s /\
  Lease.propertyId (leases s' leaseId) = Lease.propertyId lease /\
  Lease.tenant (leases s' leaseId) = Lease.tenant lease /\
  Lease.totalPaid (leases s' leaseId) = Lease.totalPaid lease + paid /\
  (msg_sender e <> this -> Property.owner prop <> this ->
   balanceOf t' this = balanceOf t this) /\
  (Lease.tenant lease <> Property.owner prop ->
   balanceOf t' (Property.owner prop) = balanceOf t (Property.owner prop) + paid).
Proof.
  intros o s' t' lease prop paid. subst o s' t' paid. unfold exec.
  destruct (run (dispatch this e (PayRent leaseId)) s t) as [[v m] | x] eqn:H; cbn.
  - pose proof (payRent_effect _ _ _ _ _ _ H)
      as ((_ & _ & _ & Hten & _) & Hcall & _ & _ & Hl & _ & Hp & Hf).
    fold lease in Hten, Hcall, Hl. fold prop in Hcall, Hl.
    rewrite Hl. cbn. repeat split; try assumption; try reflexivity.
    + intros Hs Ho. rewrite (transferFrom_moves _ _ _ _ _ _ Hcall this).
      apply not_eq_sym in Hs. apply not_eq_sym in Ho.
      apply Z.eqb_neq in Hs, Ho. rewrite Hs, Ho. lia.
    + intro Hne. rewrite (transferFrom_moves _ _ _ _ _ _ Hcall (Property.owner prop)).
      rewrite Z.eqb_refl. rewrite Hten.
      apply not_eq_sym in Hne. apply Z.eqb_neq in Hne. rewrite Hne. lia.
  - subst lease prop. repeat split; intros; first [reflexivity | lia].
Qed.

(** C6 (as amended).  Over any sequence of [payRent] calls on a lease, made by
    any external callers at any times, the lease's [totalPaid] grows by the
    property's [monthlyRent] times the number of calls that succeeded; the
    contract's own token balance and every [maintenanceFunds] entry are left
    untouched; and, provided the tenant is not the property owner (a transfer
    to oneself moves nothing), the owner's token balance grows by that same
    sum. *)
Theorem rent_accumulates envs : forall s t leaseId,
  reachable this s ->
  Forall (external_caller this) envs ->
  let lease := leases s leaseId in
  let prop := properties s (Lease.propertyId lease) in
  let rent := Property.monthlyRent prop in
  let calls := rent_calls leaseId envs in
  let n := successes this s t calls in
  let s' := fst (replay this s t calls) in
  let t' := snd (replay this s t calls) in
  Lease.totalPaid (leases s' leaseId) = Lease.totalPaid lease + n * rent /\
  balanceOf t' this = balanceOf t this /\
  (forall p, maintenanceFunds s' p = maintenanceFunds s p) /\
  (Lease.tenant lease <> Property.owner prop ->
   balanceOf t' (Property.owner prop) = balanceOf t (Property.owner prop) + n * rent).
Proof.
  induction envs as [| e envs IH]; intros s t leaseId Hr Hall; cbn.
  - repeat split; intros; first [reflexivity | lia].
  - inversion Hall as [| e' envs' He Hall']; subst.
    pose proof (payRent_step e leaseId s t) as Hstep. cbv zeta in Hstep.
    destruct Hstep as (Hp & Hf & Hpid & Hten & Htot & Hself & Hown).
    set (o := exec this e (PayRent leaseId) s t) in *.
    assert (Hr' : reachable this (storage_after o s))
      by (apply reachable_step; assumption).
    specialize (IH (storage_after o s) (ledger_after o t) leaseId Hr' Hall').
    cbv zeta in IH. fold (rent_calls leaseId envs) in *.
    rewrite Hp, Hpid, Hten, Htot in IH.
    destruct IH as (IHtot & IHself & IHf & IHown).
    pose proof (inv_not_self_owned _ _ (reachable_inv this s Hr)
                  (Lease.propertyId (leases s leaseId))) as Hnot.
    destruct He as [_ Hext].
    repeat split.
    + rewrite IHtot. destruct (succeeded o); lia.
    + rewrite IHself. apply Hself; assumption.
    + intro p. rewrite IHf, Hf. reflexivity.
    + intro Hne. rewrite (IHown Hne), (Hown Hne). destruct (succeeded o); lia.
Qed.

End RentPayments.

(** C6, instance: the tenant pays twice, a stranger's attempt in between is
    turned away. *)
Lemma rent_accumulates_witness :
  let s := fst (scenario leased) in
  let t := snd (scenario leased) in
  let calls := rent_calls 0 [at_time TENANT 200; at_time STRANGER 250; at_time TENANT 300] in
  let landlord := Property.owner (properties s (Lease.propertyId (leases s 0))) in
  StandardLedger MockLedger /\
  reachable RENTFLOW s /\
  successes RENTFLOW s t calls = 2 /\
  Lease.tenant (leases s 0) <> landlord /\
  Lease.totalPaid (leases (fst (replay RENTFLOW s t calls)) 0) = usdc 5000 /\
  balanceOf (snd (replay RENTFLOW s t calls)) landlord = balanceOf t landlord + usdc 5000.
Proof.
  intros s t calls landlord.
  assert (R : reachable RENTFLOW s) by (apply scenario_reachable; reflexivity).
  assert (E : Forall (external_caller RENTFLOW)
                [at_time TENANT 200; at_time STRANGER 250; at_time TENANT 300])
    by (repeat constructor; discriminate).
  assert (N : successes RENTFLOW s t calls = 2) by (vm_compute; reflexivity).
  assert (D : Lease.tenant (leases s 0) <> landlord) by (vm_compute; discriminate).
  split; [exact MockLedger_standard|]. split; [exact R|]. split; [exact N|].
  split; [exact D|].
  destruct (rent_accumulates (L := MockLedger) (SL := MockLedger_standard) RENTFLOW
              [at_time TENANT 200; at_time STRANGER 250; at_time TENANT 300] s t 0 R E)
    as (Htot & _ & _ & Hown).
  fold calls in Htot, Hown. fold landlord in Hown. rewrite N in Htot, Hown. split.
  - rewrite Htot. vm_compute. reflexivity.
  - rewrite (Hown D). vm_compute. reflexivity.
Defined.

(** C6 as stated fails when the tenant of the lease is the property owner: the
    rent is transferred from the owner's account to the same account, so
    [totalPaid] grows by the rent while the owner's balance does not change. *)
Lemma self_lease_rent_counterexample :
  let s := fst (scenario self_leased) in
  let t := snd (scenario self_leased) in
  let o := exec RENTFLOW (at_time PROPERTY_OWNER 200) (PayRent 0) s t in
  Lease.status (leases s 0) = LeaseActive /\
  succeeded o = true /\
  Lease.totalPaid (leases (storage_after o s) 0) = Lease.totalPaid (leases s 0) + usdc 2500 /\
  ops_of o = [OpTransferFrom PROPERTY_OWNER PROPERTY_OWNER (usdc 2500)] /\
  balanceOf (ledger_after o t) PROPERTY_OWNER = balanceOf t PROPERTY_OWNER.
Proof. vm_compute. repeat split; reflexivity. Qed.

(** * C7: the pause switch *)

Section PauseSwitch.
Context {L : IERC20}.
Variable this : address.

(** The two entry points that carry [whenNotPaused], [registerProperty] and
    [payRent], revert with [EnforcedPause] while the switch is engaged and
    change nothing. *)
Lemma guarded_entry_points_stop_when_paused s :
  reachable this s ->
  paused s = true ->
  (forall e t monthlyRent securityDeposit,
     let o := exec this e (RegisterProperty monthlyRent securityDeposit) s t in
     o = Reverted EnforcedPause /\ storage_after o s = s /\ ledger_after o t = t) /\
  (forall e t leaseId,
     let o := exec this e (PayRent leaseId) s t in
     o = Reverted EnforcedPause /\ storage_after o s = s /\ ledger_after o t = t).
Proof.
  intros Hr Hp. pose proof (inv_entered _ _ (reachable_inv this s Hr)) as He.
  split.
  - intros e t monthlyRent securityDeposit o.
    assert (Ho : o = Reverted EnforcedPause).
    { subst o. unfold exec.
      replace (run (dispatch this e (RegisterProperty monthlyRent securityDeposit)) s t)
        with (@Err (option uint256 * Machine) EnforcedPause); [reflexivity|].
      symmetry. unfold run, dispatch, returning_id, registerProperty.
      repeat fwd; first [reflexivity | absurd_branch]. }
    rewrite Ho. repeat split; reflexivity.
  - intros e t leaseId o.
    assert (Ho : o = Reverted EnforcedPause).
    { subst o. unfold exec.
      replace (run (dispatch this e (PayRent leaseId)) s t)
        with (@Err (option uint256 * Machine) EnforcedPause); [reflexivity|].
      symmetry. unfold run, dispatch, returning_nothing, payRent.
      repeat fwd; first [reflexivity | absurd_branch]. }
    rewrite Ho. repeat split; reflexivity.
Qed.

End PauseSwitch.

(** C7 (the code falls short of it).  The claim is that every mutating entry
    point fails without changing state while the pause switch is engaged.  On
    the paused contract, an approved request of 150 units with 250 units in the
    escrow is still paid out by [payMaintenanceContractor], the escrow is
    still topped up by [fundMaintenance], a new request is still filed by
    [requestMaintenance], and the owner's [setAIAgent] still changes the agent
    set: none of
    these carries the [whenNotPaused] guard that [registerProperty] and
    [payRent] have. *)
Theorem entry_points_running_while_paused :
  let s := fst (scenario paused_contract) in
  let t := snd (scenario paused_contract) in
  let payout := exec RENTFLOW (at_time PROPERTY_OWNER 200) (PayMaintenanceContractor 0) s t in
  let funding := exec RENTFLOW (at_time PROPERTY_OWNER 200) (FundMaintenance 0 (usdc 10)) s t in
  let request :=
    exec RENTFLOW (at_time PROPERTY_OWNER 200) (RequestMaintenance 0 "Fix door" (usdc 50)) s t in
  let revoke := exec RENTFLOW (at_time OWNER 200) (SetAIAgent AI_AGENT false) s t in
  paused s = true /\
  (succeeded payout = true /\
   ops_of payout = [OpTransfer CONTRACTOR (usdc 150)] /\
   maintenanceFunds (storage_after payout s) 0 = usdc 100 /\
   MaintenanceRequest.status (maintenanceRequests (storage_after payout s) 0) = Completed) /\
  (succeeded funding = true /\
   maintenanceFunds (storage_after funding s) 0 = usdc 260) /\
  (succeeded request = true /\ maintenanceCounter (storage_after request s) = 2) /\
  (succeeded revoke = true /\ authorizedAIAgents (storage_after revoke s) AI_AGENT = false) /\
  exec RENTFLOW (at_time TENANT 200) (PayRent 0) s t = Reverted EnforcedPause /\
  exec RENTFLOW (at_time PROPERTY_OWNER 200) (RegisterProperty (usdc 1000) (usdc 1000)) s t
    = Reverted EnforcedPause.
Proof. vm_compute. repeat split; reflexivity. Qed.

(** * C8: ids that were never allocated *)

Section UnknownIds.
Context {L : IERC20}.
Variable this : address.

Lemma unknown_property_is_blank s propertyId :
  reachable this s -> propertyCounter s <= propertyId ->
  properties s propertyId = Property.zero.
Proof.
  intros Hr Hid. apply (inv_fresh_properties _ _ (reachable_inv this s Hr)). exact Hid.
Qed.

(** C8 (as amended).  The contract keeps no record of which ids exist and has
    no "not found" check.  In a reachable state and for an external caller:

    - a property id that was never allocated reads as the all-zero record and
      has an empty escrow, so [deactivateProperty], [createLease] and
      [fundMaintenance] revert with "Not property owner" and
      [requestMaintenance] with "Property not active";
    - a lease id that was never allocated reads as the all-zero record, except
      that its status may be [Completed] (an agent's [returnSecurityDeposit]
      leaves it so): [payRent] reverts (as paused, as "Lease not active" or as
      "Only tenant can pay"), and [returnSecurityDeposit], whether it succeeds
      or not, issues no ledger call;
    - a request id that was never allocated has all-zero terms (property 0, no
      requester, no description, no cost) but may carry an agent's decision:
      [payMaintenanceContractor] reverts with "Not approved" unless the slot
      is [Approved], and when it succeeds it pays the approved amount to the
      stored contractor out of the escrow of property 0.

    A reverted call leaves the state as it was.  [checkRentOverdue],
    [returnSecurityDeposit] and [approveMaintenance] have no guard that an
    unknown id fails (see the counterexample). *)
Theorem unknown_ids_stopped_by_guards s e t :
  reachable this s ->
  external_caller this e ->
  (forall propertyId,
     propertyCounter s <= propertyId ->
     properties s propertyId = Property.zero /\
     maintenanceFunds s propertyId = 0 /\
     exec this e (DeactivateProperty propertyId) s t
       = Reverted (Error "Not property owner") /\
     (forall tenant startDate durationMonths rentDueDay,
        exec this e (CreateLease propertyId tenant startDate durationMonths rentDueDay) s t
          = Reverted (Error "Not property owner")) /\
     (forall amount,
        exec this e (FundMaintenance propertyId amount) s t
          = Reverted (Error "Not property owner")) /\
     (forall description estimatedCost,
        exec this e (RequestMaintenance propertyId description estimatedCost) s t
          = Reverted (Error "Property not active")) /\
     classify (Error "Not property owner") = Unauthorized /\
     classify (Error "Property not active") = InvalidState) /\
  (forall leaseId,
     leaseCounter s <= leaseId ->
     let o := exec this e (PayRent leaseId) s t in
     blank_lease (leases s leaseId) /\
     (o = Reverted EnforcedPause \/
      o = Reverted (Error "Lease not active") \/
      o = Reverted (Error "Only tenant can pay")) /\
     storage_after o s = s /\ ledger_after o t = t /\
     (forall deductionAmount,
        0 <= deductionAmount ->
        let settle := exec this e (ReturnSecurityDeposit leaseId deductionAmount) s t in
        ops_of settle = [] /\ ledger_after settle t = t)) /\
  (forall requestId,
     maintenanceCounter s <= requestId ->
     let request := maintenanceRequests s requestId in
     let amount := MaintenanceRequest.approvedAmount request in
     let o := exec this e (PayMaintenanceContractor requestId) s t in
     blank_request request /\
     (MaintenanceRequest.status request <> Approved ->
      o = Reverted (Error "Not approved")) /\
     (succeeded o = true ->
      MaintenanceRequest.status request = Approved /\
      MaintenanceRequest.propertyId request = 0 /\
      0 < amount /\
      ops_of o = [OpTransfer (MaintenanceRequest.contractor request) amount] /\
      maintenanceFunds (storage_after o s) 0 = maintenanceFunds s 0 - amount)).
Proof.
  intros Hr [Hne _]. pose proof (reachable_inv this s Hr) as I.
  pose proof (reachable_wf this s Hr) as W.
  pose proof (inv_entered _ _ I) as He.
  split; [|split].
  - intros propertyId Hid.
    pose proof (unknown_property_is_blank s propertyId Hr Hid) as Hz.
    assert (Hown : (Property.owner (properties s propertyId) =? msg_sender e) = false).
    { rewrite Hz. change (Property.owner Property.zero) with address0.
      apply Z.eqb_neq. apply not_eq_sym. exact Hne. }
    assert (Hact : Property.isActive (properties s propertyId) = false)
      by (rewrite Hz; reflexivity).
    split; [exact Hz|].
    split; [apply (wf_blank_funds _ _ W); unfold allocated; lia|].
    split; [|split; [|split; [|split; [|split; reflexivity]]]].
    + unfold exec.
      replace (run (dispatch this e (DeactivateProperty propertyId)) s t)
        with (@Err (option uint256 * Machine) (Error "Not property owner"));
        [reflexivity|].
      symmetry. unfold run, dispatch, returning_nothing, deactivateProperty.
      repeat fwd; first [reflexivity | absurd_branch].
    + intros tenant startDate durationMonths rentDueDay. unfold exec.
      replace (run (dispatch this e
                 (CreateLease propertyId tenant startDate durationMonths rentDueDay)) s t)
        with (@Err (option uint256 * Machine) (Error "Not property owner"));
        [reflexivity|].
      symmetry. unfold run, dispatch, returning_id, createLease.
      repeat fwd; first [reflexivity | absurd_branch].
    + intro amount. unfold exec.
      replace (run (dispatch this e (FundMaintenance propertyId amount)) s t)
        with (@Err (option uint256 * Machine) (Error "Not property owner"));
        [reflexivity|].
      symmetry. unfold run, dispatch, returning_nothing, fundMaintenance.
      repeat fwd; first [reflexivity | absurd_branch].
    + intros description estimatedCost. unfold exec.
      replace (run (dispatch this e
                 (RequestMaintenance propertyId description estimatedCost)) s t)
        with (@Err (option uint256 * Machine) (Error "Property not active"));
        [reflexivity|].
      symmetry. unfold run, dispatch, returning_id, requestMaintenance.
      repeat fwd; first [reflexivity | absurd_branch].
  - intros leaseId Hid o.
    assert (Hblank : blank_lease (leases s leaseId))
      by (apply (wf_blank_leases _ _ W); unfold allocated; lia).
    pose proof (inv_fresh_leases _ _ I leaseId Hid) as Hten.
    assert (Hnot : (msg_sender e =? Lease.tenant (leases s leaseId)) = false).
    { rewrite Hten. apply Z.eqb_neq. exact Hne. }
    assert (Hcases : o = Reverted EnforcedPause \/
                     o = Reverted (Error "Lease not active") \/
                     o = Reverted (Error "Only tenant can pay")).
    { subst o. unfold exec.
      destruct (paused s) eqn:Hp;
        [|destruct (LeaseStatus_eqb (Lease.status (leases s leaseId)) LeaseActive) eqn:Hst].
      - left.
        replace (run (dispatch this e (PayRent leaseId)) s t)
          with (@Err (option uint256 * Machine) EnforcedPause); [reflexivity|].
        symmetry. unfold run, dispatch, returning_nothing, payRent.
        repeat fwd; first [reflexivity | absurd_branch].
      - right. right.
        replace (run (dispatch this e (PayRent leaseId)) s t)
          with (@Err (option uint256 * Machine) (Error "Only tenant can pay"));
          [reflexivity|].
        symmetry. unfold run, dispatch, returning_nothing, payRent.
        repeat fwd; first [reflexivity | absurd_branch].
      - right. left.
        replace (run (dispatch this e (PayRent leaseId)) s t)
          with (@Err (option uint256 * Machine) (Error "Lease not active"));
          [reflexivity|].
        symmetry. unfold run, dispatch, returning_nothing, payRent.
        repeat fwd; first [reflexivity | absurd_branch]. }
    split; [exact Hblank|]. split; [exact Hcases|].
    split; [destruct Hcases as [-> | [-> | ->]]; reflexivity|].
    split; [destruct Hcases as [-> | [-> | ->]]; reflexivity|].
    intros d Hd settle. subst settle. unfold exec.
    destruct (run (dispatch this e (ReturnSecurityDeposit leaseId d)) s t)
      as [[v m] | x] eqn:H; cbn; [|split; reflexivity].
    pose proof (settlement_effect _ _ _ _ _ _ _ _ H) as (Hle & _ & _ & _ & Hops & Htok).
    rewrite (blank_lease_held _ Hblank) in Hle, Hops.
    assert (d = 0) by lia. subst d. cbn in Hops.
    split; [exact Hops | apply Htok; exact Hops].
  - intros requestId Hid request amount o.
    split; [apply (wf_blank_requests _ _ W); unfold allocated; lia|].
    split.
    + intro Hst.
      assert (Hb : MaintenanceStatus_eqb (MaintenanceRequest.status request) Approved = false).
      { destruct (MaintenanceStatus_eqb (MaintenanceRequest.status request) Approved) eqn:E;
          [|reflexivity].
        apply MaintenanceStatus_eqb_eq in E. contradiction. }
      subst o request. unfold exec.
      replace (run (dispatch this e (PayMaintenanceContractor requestId)) s t)
        with (@Err (option uint256 * Machine) (Error "Not approved")); [reflexivity|].
      symmetry. unfold run, dispatch, returning_nothing, payMaintenanceContractor.
      repeat fwd; first [reflexivity | absurd_branch].
    + subst o. unfold exec.
      destruct (run (dispatch this e (PayMaintenanceContractor requestId)) s t)
        as [[v m] | x] eqn:H; cbn; [intros _ | discriminate].
      pose proof (payout_effect _ _ _ _ _ _ _ H) as (Hst & _ & Hfunds & _ & _ & Hops & _).
      fold request in Hst, Hfunds, Hops. fold amount in Hfunds, Hops.
      assert (Hp : MaintenanceRequest.propertyId request = 0).
      { apply (wf_blank_requests _ _ W requestId). unfold allocated. lia. }
      rewrite Hp in Hfunds.
      pose proof (wf_decisions _ _ W requestId) as Hdec. unfold decision_ok in Hdec.
      fold request in Hdec. rewrite Hst in Hdec.
      split; [exact Hst|]. split; [exact Hp|]. split; [fold amount in Hdec; lia|].
      split; [exact Hops | exact Hfunds].
Qed.

End UnknownIds.

(** C8, instance: with one property registered and no lease, property id 5,
    lease id 7 and request id 9 are unknown. *)
Lemma unknown_ids_stopped_by_guards_witness :
  let s := fst (scenario registered) in
  let t := snd (scenario registered) in
  reachable RENTFLOW s /\
  external_caller RENTFLOW (at_time STRANGER 200) /\
  propertyCounter s <= 5 /\ leaseCounter s <= 7 /\ maintenanceCounter s <= 9 /\
  exec RENTFLOW (at_time STRANGER 200) (FundMaintenance 5 (usdc 100)) s t
    = Reverted (Error "Not property owner") /\
  exec RENTFLOW (at_time STRANGER 200) (RequestMaintenance 5 "Fix leak" (usdc 100)) s t
    = Reverted (Error "Property not active") /\
  storage_after (exec RENTFLOW (at_time STRANGER 200) (PayRent 7) s t) s = s /\
  exec RENTFLOW (at_time STRANGER 200) (PayMaintenanceContractor 9) s t
    = Reverted (Error "Not approved").
Proof.
  intros s t.
  assert (R : reachable RENTFLOW s) by (apply scenario_reachable; reflexivity).
  assert (X : external_caller RENTFLOW (at_time STRANGER 200)) by (split; discriminate).
  assert (P : propertyCounter s <= 5) by (vm_compute; discriminate).
  assert (Q : leaseCounter s <= 7) by (vm_compute; discriminate).
  assert (M : maintenanceCounter s <= 9) by (vm_compute; discriminate).
  split; [exact R|]. split; [exact X|]. split; [exact P|]. split; [exact Q|].
  split; [exact M|].
  destruct (unknown_ids_stopped_by_guards (L := MockLedger) RENTFLOW s
              (at_time STRANGER 200) t R X)
    as (Hprop & Hlease & Hrequest).
  destruct (Hprop 5 P) as (_ & _ & _ & _ & Hfund & Hreq & _).
  split; [apply Hfund|]. split; [apply Hreq|].
  split; [exact (proj1 (proj2 (proj2 (Hlease 7 Q))))|].
  apply (proj1 (proj2 (Hrequest 9 M))).
  intro Hx. vm_compute in Hx. discriminate Hx.
Defined.

(** C8 as stated fails: on ids that were never allocated, an authorized agent's
    [returnSecurityDeposit] succeeds and marks the unknown lease [Completed],
    its [checkRentOverdue] succeeds and reports the unknown lease as overdue,
    and its [approveMaintenance] succeeds and turns the unknown request into an
    [Approved] one; once request id 9 is approved in this way, with no request
    ever made, [payMaintenanceContractor] pays it out of the escrow of
    property 0. *)
Lemma unknown_id_accepted_counterexample :
  let s := fst (scenario registered) in
  let t := snd (scenario registered) in
  let settle := exec RENTFLOW (at_time AI_AGENT 200) (ReturnSecurityDeposit 7 0) s t in
  let check := exec RENTFLOW (at_time AI_AGENT (6 * DAY + 1)) (CheckRentOverdue 7) s t in
  let approve :=
    exec RENTFLOW (at_time AI_AGENT 200) (ApproveMaintenance 9 (usdc 100) CONTRACTOR) s t in
  let s9 := fst (scenario (approved_ahead 9)) in
  let t9 := snd (scenario (approved_ahead 9)) in
  let pay := exec RENTFLOW (at_time AI_AGENT 200) (PayMaintenanceContractor 9) s9 t9 in
  (leaseCounter s = 0 /\ maintenanceCounter s = 0) /\
  (succeeded settle = true /\
   Lease.status (leases s 7) = LeaseActive /\
   Lease.status (leases (storage_after settle s) 7) = LeaseCompleted) /\
  (succeeded check = true /\ events_of check = [RentOverdue 7 6]) /\
  (succeeded approve = true /\
   MaintenanceRequest.status (maintenanceRequests (storage_after approve s) 9) = Approved) /\
  (maintenanceCounter s9 = 0 /\
   succeeded pay = true /\
   ops_of pay = [OpTransfer CONTRACTOR (usdc 100)] /\
   maintenanceFunds s9 0 = usdc 250 /\
   maintenanceFunds (storage_after pay s9) 0 = usdc 150).
Proof. vm_compute. repeat split; reflexivity. Qed.

(** * C9: [checkRentOverdue] is read-only *)

Section OverdueCheck.
Context {L : IERC20}.
Variable this : address.

(** What a successful [checkRentOverdue] has checked and done. *)
Lemma checkRentOverdue_effect e leaseId s t v m :
  run (dispatch this e (CheckRentOverdue leaseId)) s t = Ok (v, m) ->
  storage m = s /\ token m = t /\ issued m = [] /\
  authorizedAIAgents s (msg_sender e) = true /\
  Lease.status (leases s leaseId) = LeaseActive /\
  emitted m = match spec_overdue_signal (block_timestamp e) (leases s leaseId) with
              | Some daysPastDue => [RentOverdue leaseId daysPastDue]
              | None => []
              end.
Proof.
  intro H. unfold dispatch, run, checkRentOverdue in H.
  monad_inv H; cbn in *;
    apply LeaseStatus_eqb_eq in Hreq0;
    (repeat split; try assumption; try reflexivity);
    unfold spec_overdue_signal; cbn;
    repeat match goal with
           | Hc : _ = true |- _ => rewrite Hc
           | Hc : _ = false |- _ => rewrite Hc
           end;
    cbn; first [reflexivity | exfalso; lia].
Qed.

(** C9.  Whatever the lease id, the caller and the time, and whether the call
    succeeds or reverts, [checkRentOverdue] leaves the whole storage (every
    property, lease and request record, every escrow balance, the agent set,
    all counters) and the ledger exactly as they were and issues no ledger
    call.  When it succeeds, the caller is an authorized agent, the lease
    record reads [Active], and the only events are the overdue signal of the
    stated rule, if any. *)
Theorem checkRentOverdue_changes_nothing s e t leaseId :
  let o := exec this e (CheckRentOverdue leaseId) s t in
  storage_after o s = s /\
  ledger_after o t = t /\
  ops_of o = [] /\
  (succeeded o = true ->
   authorizedAIAgents s (msg_sender e) = true /\
   Lease.status (leases s leaseId) = LeaseActive /\
   events_of o = match spec_overdue_signal (block_timestamp e) (leases s leaseId) with
                 | Some daysPastDue => [RentOverdue leaseId daysPastDue]
                 | None => []
                 end).
Proof.
  intro o. subst o. unfold exec.
  destruct (run (dispatch this e (CheckRentOverdue leaseId)) s t) as [[v m] | x] eqn:H; cbn.
  - apply checkRentOverdue_effect in H.
    destruct H as (Hs & Ht & Hops & Hagent & Hst & Hev).
    split; [exact Hs|]. split; [exact Ht|]. split; [exact Hops|].
    intros _. split; [exact Hagent|]. split; [exact Hst | exact Hev].
  - do 3 (split; [reflexivity|]). discriminate.
Qed.

End OverdueCheck.

(** C9, instance: the agent checks the unpaid lease seven days after its
    start. *)
Lemma checkRentOverdue_changes_nothing_witness :
  let s := fst (scenario leased) in
  let t := snd (scenario leased) in
  let o := exec RENTFLOW (at_time AI_AGENT (100 + 7 * DAY)) (CheckRentOverdue 0) s t in
  succeeded o = true /\
  storage_after o s = s /\
  events_of o = [RentOverdue 0 7].
Proof.
  intros s t o.
  assert (Hok : succeeded o = true) by (vm_compute; reflexivity).
  destruct (checkRentOverdue_changes_nothing (L := MockLedger) RENTFLOW s
              (at_time AI_AGENT (100 + 7 * DAY)) t 0) as (Hs & _ & _ & Hev).
  split; [exact Hok|]. split; [exact Hs|].
  destruct (Hev Hok) as (_ & _ & Hevents).
  fold o in Hevents. rewrite Hevents. vm_compute. reflexivity.
Defined.

(** * C10: rent on a deactivated property *)

Section DeactivatedProperty.
Context {L : IERC20}.
Variable this : address.

(** What a successful [deactivateProperty] has done: it has cleared the flag
    of that property and nothing else. *)
Lemma deactivateProperty_effect e propertyId s t v m :
  run (dispatch this e (DeactivateProperty propertyId)) s t = Ok (v, m) ->
  leases (storage m) = leases s /\
  paused (storage m) = paused s /\
  entered (storage m) = entered s /\
  Property.isActive (properties (storage m) propertyId) = false /\
  forall p, Property.owner (properties (storage m) p) = Property.owner (properties s p) /\
            Property.monthlyRent (properties (storage m) p)
              = Property.monthlyRent (properties s p).
Proof.
  intro H. unfold dispatch, run, deactivateProperty in H.
  monad_inv H. cbn. rewrite upd_same. repeat split; try reflexivity.
  - upd_split p; reflexivity.
  - upd_split p; reflexivity.
Qed.

(** [payRent] goes through whenever its own guards hold; none of them reads
    the property's [isActive] flag. *)
Lemma payRent_succeeds e leaseId s t t' :
  let lease := leases s leaseId in
  let prop := properties s (Lease.propertyId lease) in
  let rent := Property.monthlyRent prop in
  entered s = false ->
  paused s = false ->
  Lease.status lease = LeaseActive ->
  msg_sender e = Lease.tenant lease ->
  Lease.startDate lease <= block_timestamp e <= Lease.endDate lease ->
  transferFrom this (msg_sender e) (Property.owner prop) rent t = Returned true t' ->
  Lease.totalPaid lease + rent <= MAX_UINT256 ->
  exists m, run (dispatch this e (PayRent leaseId)) s t = Ok (None, m).
Proof.
  intros lease prop rent He Hp Hst Hten [Hs1 Hs2] Hcall Hfit.
  subst lease prop rent.
  apply LeaseStatus_eqb_eq in Hst. apply Z.eqb_eq in Hten.
  apply Z.leb_le in Hs1, Hs2, Hfit.
  eexists. unfold run, dispatch, returning_nothing, payRent.
  repeat fwd; try first [reflexivity | absurd_branch].
  match goal with
  | E : (_ <=? MAX_UINT256) = false |- _ => rewrite upd_same in E; cbn in E; congruence
  end.
Qed.

(** A successful [payRent] writes to its own lease only. *)
Lemma payRent_other_leases e leaseId s t v m :
  run (dispatch this e (PayRent leaseId)) s t = Ok (v, m) ->
  forall l, l <> leaseId -> leases (storage m) l = leases s l.
Proof.
  intro H. unfold dispatch, run, payRent in H.
  monad_inv H. cbn. intros l Hl. rewrite !upd_other by exact Hl. reflexivity.
Qed.

(** Why a [payRent] that has passed the checks on the lease can still fail. *)
Lemma payRent_refused e leaseId s t :
  let lease := leases s leaseId in
  let prop := properties s (Lease.propertyId lease) in
  let rent := Property.monthlyRent prop in
  let o := exec this e (PayRent leaseId) s t in
  entered s = false ->
  Lease.status lease = LeaseActive ->
  msg_sender e = Lease.tenant lease ->
  Lease.startDate lease <= block_timestamp e <= Lease.endDate lease ->
  (paused s = true -> o = Reverted EnforcedPause) /\
  (paused s = false ->
   confirmed (transferFrom this (msg_sender e) (Property.owner prop) rent t) = true ->
   MAX_UINT256 < Lease.totalPaid lease + rent ->
   o = Reverted (Panic 17)).
Proof.
  intros lease prop rent o He Hst Hten [Hs1 Hs2]. subst o lease prop rent.
  apply LeaseStatus_eqb_eq in Hst. apply Z.eqb_eq in Hten.
  apply Z.leb_le in Hs1, Hs2.
  split.
  - intro Hp. unfold exec.
    replace (run (dispatch this e (PayRent leaseId)) s t)
      with (@Err (option uint256 * Machine) EnforcedPause); [reflexivity|].
    symmetry. unfold run, dispatch, returning_nothing, payRent.
    repeat fwd; first [reflexivity | absurd_branch].
  - intros Hp Hcall Hover.
    destruct (transferFrom this (msg_sender e)
                (Property.owner (properties s (Lease.propertyId (leases s leaseId))))
                (Property.monthlyRent (properties s (Lease.propertyId (leases s leaseId)))) t)
      as [[|] t' |] eqn:Hreply; try discriminate.
    apply Z.leb_gt in Hover.
    unfold exec.
    replace (run (dispatch this e (PayRent leaseId)) s t)
      with (@Err (option uint256 * Machine) (Panic 17)); [reflexivity|].
    symmetry. unfold run, dispatch, returning_nothing, payRent.
    repeat fwd; try first [reflexivity | absurd_branch].
    match goal with
    | E : (_ <=? MAX_UINT256) = true |- _ => rewrite upd_same in E; cbn in E; congruence
    end.
Qed.

(** C10 (as amended).  In a reachable state, [payRent] by the tenant of an
    [Active] lease within its term succeeds exactly when the contract is not
    paused, the ledger confirms the transfer of the rent from the tenant to
    the property owner, and [totalPaid] plus the rent stays within [uint256].
    When it succeeds it issues exactly that one ledger call, leaves the ledger
    as the call returned it, emits [RentPaid] and records the payment on the
    lease.  It reverts with [EnforcedPause] on a paused contract and with
    [Panic 17] when [totalPaid] would leave [uint256].  The property's
    [isActive] flag plays no part: after a successful [deactivateProperty] of
    the lease's property the flag is [false] and the same [payRent] has the
    same outcome, that is, it succeeds or fails alike, with the same ledger
    call, the same events, the same resulting ledger and the same lease
    table. *)
Theorem rent_ignores_deactivation s e t leaseId :
  let lease := leases s leaseId in
  let propertyId := Lease.propertyId lease in
  let prop := properties s propertyId in
  let rent := Property.monthlyRent prop in
  let landlord := Property.owner prop in
  let pull := transferFrom this (msg_sender e) landlord rent t in
  let o := exec this e (PayRent leaseId) s t in
  reachable this s ->
  Lease.status lease = LeaseActive ->
  msg_sender e = Lease.tenant lease ->
  Lease.startDate lease <= block_timestamp e <= Lease.endDate lease ->
  (succeeded o = true <->
     paused s = false /\ confirmed pull = true /\
     Lease.totalPaid lease + rent <= MAX_UINT256) /\
  (succeeded o = true ->
     ops_of o = [OpTransferFrom (msg_sender e) landlord rent] /\
     pull = Returned true (ledger_after o t) /\
     events_of o = [RentPaid leaseId rent (block_timestamp e)] /\
     leases (storage_after o s) leaseId
       = Lease.set_totalPaid (Lease.totalPaid lease + rent)
           (Lease.set_lastPaymentDate (block_timestamp e) lease)) /\
  (paused s = true -> o = Reverted EnforcedPause) /\
  (paused s = false -> confirmed pull = true ->
   MAX_UINT256 < Lease.totalPaid lease + rent -> o = Reverted (Panic 17)) /\
  (forall e0 t0,
     let deactivation := exec this e0 (DeactivateProperty propertyId) s t0 in
     let s0 := storage_after deactivation s in
     let o0 := exec this e (PayRent leaseId) s0 t in
     succeeded deactivation = true ->
     Property.isActive (properties s0 propertyId) = false /\
     succeeded o0 = succeeded o /\
     ops_of o0 = ops_of o /\
     events_of o0 = events_of o /\
     ledger_after o0 t = ledger_after o t /\
     forall l, leases (storage_after o0 s0) l = leases (storage_after o s) l).
Proof.
  intros lease propertyId prop rent landlord pull o Hr Hst Hten Hterm.
  pose proof (inv_entered _ _ (reachable_inv this s Hr)) as He.
  destruct (payRent_refused e leaseId s t He Hst Hten Hterm) as [Hpaused Hover].
  assert (Hiff : succeeded o = true <->
                 paused s = false /\ confirmed pull = true /\
                 Lease.totalPaid lease + rent <= MAX_UINT256).
  { subst o. unfold exec. split.
    - destruct (run (dispatch this e (PayRent leaseId)) s t) as [[v m] | x] eqn:H;
        [intros _ | discriminate].
      apply payRent_effect in H.
      destruct H as ((_ & Hp & _) & Hcall & _ & _ & _ & Hfit & _).
      split; [exact Hp|]. split; [|exact Hfit].
      subst pull landlord rent prop propertyId lease. rewrite Hcall. reflexivity.
    - intros (Hp & Hcall & Hfit).
      destruct pull as [[|] t' |] eqn:Hreply; try discriminate.
      destruct (payRent_succeeds e leaseId s t t' He Hp Hst Hten Hterm Hreply Hfit)
        as [m Hrun].
      rewrite Hrun. reflexivity. }
  split; [exact Hiff|].
  split.
  { subst o. unfold exec.
    destruct (run (dispatch this e (PayRent leaseId)) s t) as [[v m] | x] eqn:H;
      [intros _ | discriminate].
    apply payRent_effect in H.
    destruct H as (_ & Hcall & Hops & Hev & Hlease & _).
    cbn. repeat split; assumption. }
  split; [exact Hpaused|]. split; [exact Hover|].
  intros e0 t0 deactivation s0 o0. subst o0 s0 deactivation.
  destruct (exec this e0 (DeactivateProperty propertyId) s t0)
    as [v0 s0 t1 ev ops | r] eqn:Hex; cbn [succeeded storage_after];
    [intros _ | discriminate].
  unfold exec in Hex.
  destruct (run (dispatch this e0 (DeactivateProperty propertyId)) s t0)
    as [[v1 m0] | x] eqn:Hd; [|discriminate].
  inversion Hex; subst v0 s0 t1 ev ops; clear Hex.
  apply deactivateProperty_effect in Hd.
  destruct Hd as (Hl & Hpa & Hen & Hoff & Hsame).
  split; [exact Hoff|].
  destruct (Hsame propertyId) as [Ho Hm].
  subst o. unfold exec.
  destruct (run (dispatch this e (PayRent leaseId)) (storage m0) t)
    as [[w n0] | x0] eqn:H0;
    destruct (run (dispatch this e (PayRent leaseId)) s t) as [[w' n] | x'] eqn:H;
    cbn [succeeded ops_of events_of ledger_after storage_after].
  - pose proof (payRent_other_leases _ _ _ _ _ _ H0) as Hrest0.
    pose proof (payRent_other_leases _ _ _ _ _ _ H) as Hrest.
    apply payRent_effect in H0, H. rewrite Hl in H0.
    fold lease in H0, H. fold propertyId in H0, H. rewrite Ho, Hm in H0.
    fold prop in H. fold rent in H0, H. fold landlord in H0, H.
    destruct H0 as (_ & Hc0 & Hops0 & Hev0 & Hlease0 & _).
    destruct H as (_ & Hc & Hops & Hev & Hlease & _).
    subst pull landlord rent prop.
    split; [reflexivity|]. split; [congruence|]. split; [congruence|].
    split; [congruence|].
    intro l. destruct (Z.eq_dec l leaseId) as [-> | Hne].
    + congruence.
    + rewrite Hrest0, Hrest by exact Hne. rewrite Hl. reflexivity.
  - exfalso. apply payRent_effect in H0. rewrite Hl, Hpa in H0.
    fold lease in H0. fold propertyId in H0. rewrite Ho, Hm in H0.
    destruct H0 as ((_ & Hp & _) & Hc0 & _ & _ & _ & Hfit & _).
    destruct (payRent_succeeds e leaseId s t (token n0) He Hp Hst Hten Hterm Hc0 Hfit)
      as [m Hrun].
    congruence.
  - exfalso. apply payRent_effect in H.
    destruct H as ((_ & Hp & _) & Hc & _ & _ & _ & Hfit & _).
    assert (Hrun : exists m, run (dispatch this e (PayRent leaseId)) (storage m0) t
                             = Ok (None, m)).
    { apply (payRent_succeeds e leaseId (storage m0) t (token n));
        rewrite ?Hl, ?Hpa, ?Hen; try assumption.
      - fold lease. fold propertyId. rewrite Ho, Hm. exact Hc.
      - fold lease. fold propertyId. rewrite Hm. exact Hfit. }
    destruct Hrun as [m Hrun]. congruence.
  - repeat split; try reflexivity. intro l. rewrite Hl. reflexivity.
Qed.

End DeactivatedProperty.

(** C10, instance: the tenant pays the rent of 2500 units after the owner has
    deactivated the property. *)
Lemma rent_ignores_deactivation_witness :
  let s := fst (scenario leased_then_deactivated) in
  let t := snd (scenario leased_then_deactivated) in
  let o := exec RENTFLOW (at_time TENANT 200) (PayRent 0) s t in
  reachable RENTFLOW s /\
  Property.isActive (properties s (Lease.propertyId (leases s 0))) = false /\
  succeeded o = true /\
  ops_of o = [OpTransferFrom TENANT PROPERTY_OWNER (usdc 2500)] /\
  Lease.totalPaid (leases (storage_after o s) 0) = usdc 2500.
Proof.
  intros s t o.
  assert (R : reachable RENTFLOW s) by (apply scenario_reachable; reflexivity).
  assert (A : Lease.status (leases s 0) = LeaseActive) by (vm_compute; reflexivity).
  assert (T : msg_sender (at_time TENANT 200) = Lease.tenant (leases s 0))
    by (vm_compute; reflexivity).
  assert (I : Lease.startDate (leases s 0) <= block_timestamp (at_time TENANT 200)
              <= Lease.endDate (leases s 0))
    by (split; vm_compute; discriminate).
  destruct (rent_ignores_deactivation (L := MockLedger) RENTFLOW s
              (at_time TENANT 200) t 0 R A T I) as (Hiff & Heff & _).
  assert (Hok : succeeded o = true).
  { apply Hiff. split; [vm_compute; reflexivity|].
    split; [vm_compute; reflexivity | vm_compute; discriminate]. }
  destruct (Heff Hok) as (Hops & _ & _ & Hlease).
  split; [exact R|]. split; [vm_compute; reflexivity|]. split; [exact Hok|].
  split.
  - fold o in Hops. rewrite Hops. vm_compute. reflexivity.
  - fold o in Hlease. rewrite Hlease. vm_compute. reflexivity.
Defined.

(** C10 as stated fails: the lease is [Active], the time is within its term,
    the caller is the tenant and the ledger would confirm the transfer, and
    still [payRent] reverts, in the first state because the contract is
    paused, in the second because [totalPaid] would leave [uint256]. *)
Lemma rent_refused_counterexample :
  let s := fst (scenario leased_then_paused) in
  let t := snd (scenario leased_then_paused) in
  let s' := fst paid_to_the_brim in
  let t' := snd paid_to_the_brim in
  (reachable RENTFLOW s /\ reachable RENTFLOW s') /\
  (Lease.status (leases s 0) = LeaseActive /\
   Lease.tenant (leases s 0) = TENANT /\
   Lease.startDate (leases s 0) = 100 /\
   Lease.endDate (leases s 0) = lease_end /\
   confirmed (mock_transferFrom RENTFLOW TENANT PROPERTY_OWNER (usdc 2500) t) = true /\
   exec RENTFLOW (at_time TENANT 200) (PayRent 0) s t = Reverted EnforcedPause) /\
  (Lease.status (leases s' 0) = LeaseActive /\
   Lease.tenant (leases s' 0) = PROPERTY_OWNER /\
   Lease.startDate (leases s' 0) = 100 /\
   Lease.endDate (leases s' 0) = 100 + 12 * (30 * DAY) /\
   paused s' = false /\
   Lease.totalPaid (leases s' 0) = 3 * huge_rent /\
   confirmed (mock_transferFrom RENTFLOW PROPERTY_OWNER PROPERTY_OWNER huge_rent t') = true /\
   exec RENTFLOW (at_time PROPERTY_OWNER 500) (PayRent 0) s' t' = Reverted (Panic 17)).
Proof.
  intros s t s' t'. split.
  - split; [apply scenario_reachable; reflexivity|].
    apply (replay_reachable (L := MockLedger)).
    + apply reachable_deploy; discriminate.
    + repeat constructor; discriminate.
  - vm_compute. repeat split; reflexivity.
Qed.

(** * Further properties: the tables, the indexes, the entry points, the balance *)

(** * The property table *)

Section PropertyTable.
Context {L : IERC20}.
Variable this : address.

(** X1.  In every reachable state the ids [0 .. propertyCounter - 1] are exactly
    the registered properties: each has an owner that is neither the zero
    address nor the contract, a positive monthly rent and a deposit of at least
    the rent, as [registerProperty] checked; every other slot of [properties] is
    all zero and its maintenance escrow is empty. *)
Theorem registered_properties_well_formed s :
  reachable this s ->
  0 <= propertyCounter s <= MAX_UINT256 /\
  forall p,
    (allocated (propertyCounter s) p ->
       Property.owner (properties s p) <> address0 /\
       Property.owner (properties s p) <> this /\
       0 < Property.monthlyRent (properties s p) <= Property.securityDeposit (properties s p)) /\
    (~ allocated (propertyCounter s) p ->
       properties s p = Property.zero /\ maintenanceFunds s p = 0).
Proof.
  intro Hr. pose proof (reachable_wf this s Hr) as W.
  split; [apply (wf_counters _ _ W)|].
  intro p. split.
  - intro Hp. exact (wf_properties _ _ W p Hp).
  - intro Hp. split; [exact (wf_blank_properties _ _ W p Hp) | exact (wf_blank_funds _ _ W p Hp)].
Qed.

End PropertyTable.

(** X1, instance: the one property of the scenario, after its lease and its
    deactivation, and the slot after it. *)
Lemma registered_properties_well_formed_witness :
  let s := fst (scenario leased_then_deactivated) in
  reachable RENTFLOW s /\
  propertyCounter s = 1 /\
  (Property.owner (properties s 0) = PROPERTY_OWNER /\
   0 < Property.monthlyRent (properties s 0) <= Property.securityDeposit (properties s 0)) /\
  properties s 1 = Property.zero.
Proof.
  intro s.
  assert (R : reachable RENTFLOW s) by (apply scenario_reachable; reflexivity).
  split; [exact R|].
  destruct (registered_properties_well_formed (L := MockLedger) RENTFLOW s R) as [_ H].
  split; [reflexivity|]. split.
  - split; [reflexivity|].
    destruct (H 0) as [H0 _]. apply H0. unfold allocated. vm_compute.
    split; [discriminate | reflexivity].
  - destruct (H 1) as [_ H1]. apply H1. unfold allocated. vm_compute. intros [_ H2]. discriminate.
Defined.

Section PropertyTerms.
Context {L : IERC20}.
Variable this : address.

Lemma step_property_terms s e c t p :
  p < propertyCounter s ->
  let s' := storage_after (exec this e c s t) s in
  propertyCounter s <= propertyCounter s' /\
  Property.owner (properties s' p) = Property.owner (properties s p) /\
  Property.monthlyRent (properties s' p) = Property.monthlyRent (properties s p) /\
  Property.securityDeposit (properties s' p) = Property.securityDeposit (properties s p) /\
  Property.createdAt (properties s' p) = Property.createdAt (properties s p) /\
  (Property.isActive (properties s p) = false -> Property.isActive (properties s' p) = false).
Proof.
  intros Hp s'. subst s'. unfold exec.
  destruct (run (dispatch this e c) s t) as [[v m] | x] eqn:H; cbn;
    [|repeat split; auto; lia].
  step_cases H c; cbn; try (repeat split; auto; lia).
  - rewrite upd_other by lia. repeat split; auto; lia.
  - upd_split p; repeat split; auto; lia.
Qed.

Lemma evolves_property_terms s s' :
  evolves this s s' ->
  propertyCounter s <= propertyCounter s' /\
  forall p, p < propertyCounter s ->
    Property.owner (properties s' p) = Property.owner (properties s p) /\
    Property.monthlyRent (properties s' p) = Property.monthlyRent (properties s p) /\
    Property.securityDeposit (properties s' p) = Property.securityDeposit (properties s p) /\
    Property.createdAt (properties s' p) = Property.createdAt (properties s p) /\
    (Property.isActive (properties s p) = false -> Property.isActive (properties s' p) = false).
Proof.
  induction 1 as [s | s s' e c t Hev [IHc IH]].
  - split; [lia|]. intros p _. repeat split; auto.
  - split.
    + pose proof (step_property_terms s' e c t (propertyCounter s' - 1)) as Hs.
      cbv zeta in Hs. destruct Hs as [Hs _]; lia.
    + intros p Hp.
      destruct (IH p Hp) as (I1 & I2 & I3 & I4 & I5).
      assert (Hp' : p < propertyCounter s') by lia.
      destruct (step_property_terms s' e c t p Hp') as (_ & S1 & S2 & S3 & S4 & S5).
      repeat split; try congruence. intro Ha. apply S5. apply I5. exact Ha.
Qed.

(** X2.  Whatever transactions follow, sent by anyone, a registered property
    keeps its owner, monthly rent, security deposit and creation time; only
    its [isActive] flag can change, and only from [true] to [false]. *)
Theorem property_terms_never_change s s' p :
  evolves this s s' ->
  p < propertyCounter s ->
  p < propertyCounter s' /\
  Property.owner (properties s' p) = Property.owner (properties s p) /\
  Property.monthlyRent (properties s' p) = Property.monthlyRent (properties s p) /\
  Property.securityDeposit (properties s' p) = Property.securityDeposit (properties s p) /\
  Property.createdAt (properties s' p) = Property.createdAt (properties s p) /\
  (Property.isActive (properties s p) = false -> Property.isActive (properties s' p) = false).
Proof.
  intros Hev Hp. destruct (evolves_property_terms s s' Hev) as [Hc H].
  split; [lia | exact (H p Hp)].
Qed.

End PropertyTerms.

(** X2, instance: the deactivated property after its owner registers a second
    one. *)
Lemma property_terms_never_change_witness :
  let s := fst (scenario leased_then_deactivated) in
  let t := snd (scenario leased_then_deactivated) in
  let s' := storage_after
              (exec RENTFLOW (at_time PROPERTY_OWNER 300)
                    (RegisterProperty (usdc 10) (usdc 10)) s t) s in
  propertyCounter s = 1 /\ propertyCounter s' = 2 /\
  Property.owner (properties s' 0) = PROPERTY_OWNER /\
  Property.securityDeposit (properties s' 0) = usdc 2500 /\
  Property.isActive (properties s' 0) = false.
Proof.
  intros s t s'.
  assert (Hev : evolves (L := MockLedger) RENTFLOW s s').
  { apply (evolves_step (L := MockLedger)). apply evolves_refl. }
  assert (Hp : 0 < propertyCounter s) by reflexivity.
  destruct (property_terms_never_change (L := MockLedger) RENTFLOW s s' 0 Hev Hp)
    as (_ & Ho & _ & Hd & _ & Ha).
  split; [reflexivity|]. split; [reflexivity|].
  split; [rewrite Ho; reflexivity|]. split; [rewrite Hd; reflexivity|].
  apply Ha. reflexivity.
Defined.

(** [fails_with H]: a transaction cannot have succeeded; [H] names the
    supposed successful run, taken apart. *)
Ltac fails_with H :=
  unfold exec;
  match goal with
  | |- context [run ?c ?s ?t] =>
      destruct (run c s t) as [[? ?] | ?] eqn:H; [exfalso | reflexivity]
  end;
  unfold dispatch, run, registerProperty, deactivateProperty, createLease,
    payRent, checkRentOverdue, requestMaintenance, approveMaintenance, fundMaintenance,
    payMaintenanceContractor, returnSecurityDeposit, setAIAgent, pause, unpause,
    transferOwnership, renounceOwnership in H;
  monad_inv H; cbn in *.

Section Deactivation.
Context {L : IERC20}.
Variable this : address.

(** X3.  A [deactivateProperty] that succeeds (in a reachable state, for an
    external caller) was sent by the owner of a registered property, and it is
    final: after any further transactions the property is still inactive, and
    every [createLease] and every [requestMaintenance] on it fails. *)
Theorem deactivation_is_final s e t p :
  reachable this s -> external_caller this e ->
  succeeded (exec this e (DeactivateProperty p) s t) = true ->
  allocated (propertyCounter s) p /\
  Property.owner (properties s p) = msg_sender e /\
  forall s', evolves this (storage_after (exec this e (DeactivateProperty p) s t) s) s' ->
    Property.isActive (properties s' p) = false /\
    forall e' t',
      (forall tenant startDate durationMonths rentDueDay,
         succeeded (exec this e' (CreateLease p tenant startDate durationMonths rentDueDay) s' t')
         = false) /\
      (forall description estimatedCost,
         succeeded (exec this e' (RequestMaintenance p description estimatedCost) s' t')
         = false).
Proof.
  intros Hr [He0 _] Hok. pose proof (reachable_wf this s Hr) as W.
  unfold exec in Hok.
  destruct (run (dispatch this e (DeactivateProperty p)) s t) as [[v m] | x] eqn:H;
    [clear Hok | discriminate].
  assert (Hs1 : storage_after (exec this e (DeactivateProperty p) s t) s = storage m)
    by (unfold exec; rewrite H; reflexivity).
  rewrite Hs1. clear Hs1.
  unfold dispatch, run, deactivateProperty in H. monad_inv H. storage_simpl.
  apply Z.eqb_eq in Hreq.
  pose proof (owned_is_allocated _ _ _ (wf_blank_properties _ _ W) Hreq He0) as Hp.
  split; [exact Hp|]. split; [exact Hreq|].
  intros s' Hev.
  match type of Hev with
  | evolves _ ?s1 _ =>
      assert (Hp1 : p < propertyCounter s1) by (cbn; unfold allocated in Hp; lia);
      assert (Ha1 : Property.isActive (properties s1 p) = false)
        by (cbn; rewrite upd_same; reflexivity);
      destruct (evolves_property_terms this s1 s' Hev) as [_ Ht];
      destruct (Ht p Hp1) as (_ & _ & _ & _ & Hfin); specialize (Hfin Ha1)
  end.
  split; [exact Hfin|].
  intros e' t'. split.
  - intros tenant startDate durationMonths rentDueDay.
    fails_with Hrun. congruence.
  - intros description estimatedCost.
    fails_with Hrun. congruence.
Qed.

End Deactivation.

(** X3, instance: the leased property is deactivated; a new lease and a tenant's
    request are then refused. *)
Lemma deactivation_is_final_witness :
  let s := fst (scenario leased) in
  let t := snd (scenario leased) in
  let s1 := storage_after
              (exec RENTFLOW (at_time PROPERTY_OWNER 150) (DeactivateProperty 0) s t) s in
  succeeded (exec RENTFLOW (at_time PROPERTY_OWNER 150) (DeactivateProperty 0) s t) = true /\
  succeeded (exec RENTFLOW (at_time PROPERTY_OWNER 160) (CreateLease 0 TENANT 200 12 1) s1 t)
  = false /\
  succeeded (exec RENTFLOW (at_time TENANT 160) (RequestMaintenance 0 "Fix leak" (usdc 150)) s1 t)
  = false.
Proof.
  intros s t s1.
  assert (R : reachable RENTFLOW s) by (apply scenario_reachable; reflexivity).
  assert (He : external_caller RENTFLOW (at_time PROPERTY_OWNER 150))
    by (split; discriminate).
  assert (Hok : succeeded (exec RENTFLOW (at_time PROPERTY_OWNER 150) (DeactivateProperty 0) s t)
                = true) by (vm_compute; reflexivity).
  split; [exact Hok|].
  destruct (deactivation_is_final (L := MockLedger) RENTFLOW s _ t 0 R He Hok) as (_ & _ & Hfin).
  destruct (Hfin s1 (evolves_refl RENTFLOW _)) as [_ Hno].
  split.
  - exact (proj1 (Hno (at_time PROPERTY_OWNER 160) t) TENANT 200 12 1).
  - exact (proj2 (Hno (at_time TENANT 160) t) "Fix leak"%string (usdc 150)).
Defined.

(** * The two indexes *)

Lemma NoDup_ids_below n : NoDup (ids_below n).
Proof.
  unfold ids_below. generalize (seq_NoDup (Z.to_nat n) 0).
  induction 1 as [| k l Hk _ IH]; cbn; constructor; [|exact IH].
  rewrite in_map_iff. intros (j & Hj & Hin). apply Nat2Z.inj in Hj. subst j. contradiction.
Qed.

Lemma scan_leases_true ls propertyId userLeases :
  scan_leases ls propertyId userLeases = true <->
  exists l, In l userLeases /\ Lease.propertyId (ls l) = propertyId /\
            Lease.status (ls l) = LeaseActive.
Proof.
  induction userLeases as [| i rest IH]; cbn.
  - split; [discriminate | intros (l & [] & _)].
  - destruct ((Lease.propertyId (ls i) =? propertyId)
              && LeaseStatus_eqb (Lease.status (ls i)) LeaseActive) eqn:E.
    + split; [intros _ | reflexivity].
      apply andb_true_iff in E. destruct E as [E1 E2].
      apply Z.eqb_eq in E1. apply LeaseStatus_eqb_eq in E2.
      exists i. auto.
    + rewrite IH. split.
      * intros (l & Hin & H1 & H2). exists l. auto.
      * intros (l & [-> | Hin] & H1 & H2).
        -- apply Z.eqb_eq in H1. apply LeaseStatus_eqb_eq in H2.
           rewrite H1, H2 in E. discriminate.
        -- exists l. auto.
Qed.

Section Indexes.
Context {L : IERC20}.
Variable this : address.

(** X4.  [getOwnerProperties(a)] returns, in the order of registration and
    without repetition, exactly the ids of the registered properties whose
    owner is [a]. *)
Theorem owner_index_exact s a :
  reachable this s ->
  getOwnerProperties s a
    = filter (fun p => Property.owner (properties s p) =? a) (ids_below (propertyCounter s)) /\
  NoDup (getOwnerProperties s a) /\
  forall p, In p (getOwnerProperties s a) <->
            allocated (propertyCounter s) p /\ Property.owner (properties s p) = a.
Proof.
  intro Hr. pose proof (wf_owner_index _ _ (reachable_wf this s Hr) a) as H.
  unfold getOwnerProperties. split; [exact H|]. rewrite H. split.
  - apply NoDup_filter. apply NoDup_ids_below.
  - intro p. rewrite filter_In, in_ids_below, Z.eqb_eq. reflexivity.
Qed.

(** X5.  [getTenantLeases(a)] returns, in the order of creation and without
    repetition, exactly the ids of the created leases whose tenant is [a]. *)
Theorem tenant_index_exact s a :
  reachable this s ->
  getTenantLeases s a
    = filter (fun l => Lease.tenant (leases s l) =? a) (ids_below (leaseCounter s)) /\
  NoDup (getTenantLeases s a) /\
  forall l, In l (getTenantLeases s a) <->
            allocated (leaseCounter s) l /\ Lease.tenant (leases s l) = a.
Proof.
  intro Hr. pose proof (wf_tenant_index _ _ (reachable_wf this s Hr) a) as H.
  unfold getTenantLeases. split; [exact H|]. rewrite H. split.
  - apply NoDup_filter. apply NoDup_ids_below.
  - intro l. rewrite filter_In, in_ids_below, Z.eqb_eq. reflexivity.
Qed.

(** X6.  The loop of [_isTenantOfProperty(user, propertyId)] answers [true]
    exactly when some created lease has [user] as tenant, is on [propertyId]
    and is [Active]. *)
Theorem isTenantOfProperty_exact s user propertyId :
  reachable this s ->
  _isTenantOfProperty s user propertyId = true <->
  exists l, allocated (leaseCounter s) l /\
            Lease.tenant (leases s l) = user /\
            Lease.propertyId (leases s l) = propertyId /\
            Lease.status (leases s l) = LeaseActive.
Proof.
  intro Hr. pose proof (wf_tenant_index _ _ (reachable_wf this s Hr) user) as H.
  unfold _isTenantOfProperty. rewrite scan_leases_true, H. split.
  - intros (l & Hin & H1 & H2).
    apply filter_In in Hin. destruct Hin as [Hin Ht].
    apply in_ids_below in Hin. apply Z.eqb_eq in Ht. exists l. auto.
  - intros (l & Hl & Ht & H1 & H2). exists l. split; [|auto].
    apply filter_In. split; [apply in_ids_below; exact Hl | apply Z.eqb_eq; exact Ht].
Qed.

End Indexes.

(** X4, instance: the property owner's list after one registration. *)
Lemma owner_index_exact_witness :
  let s := fst (scenario leased) in
  reachable RENTFLOW s /\
  getOwnerProperties s PROPERTY_OWNER = [0] /\
  (In 0 (getOwnerProperties s PROPERTY_OWNER) <->
   allocated (propertyCounter s) 0 /\ Property.owner (properties s 0) = PROPERTY_OWNER).
Proof.
  intro s.
  assert (R : reachable RENTFLOW s) by (apply scenario_reachable; reflexivity).
  split; [exact R|].
  destruct (owner_index_exact (L := MockLedger) RENTFLOW s PROPERTY_OWNER R) as (He & _ & Hin).
  split; [rewrite He; reflexivity | exact (Hin 0)].
Defined.

(** X5, instance: the tenant's list after one lease. *)
Lemma tenant_index_exact_witness :
  let s := fst (scenario leased) in
  reachable RENTFLOW s /\
  getTenantLeases s TENANT = [0] /\
  (In 0 (getTenantLeases s TENANT) <->
   allocated (leaseCounter s) 0 /\ Lease.tenant (leases s 0) = TENANT).
Proof.
  intro s.
  assert (R : reachable RENTFLOW s) by (apply scenario_reachable; reflexivity).
  split; [exact R|].
  destruct (tenant_index_exact (L := MockLedger) RENTFLOW s TENANT R) as (He & _ & Hin).
  split; [rewrite He; reflexivity | exact (Hin 0)].
Defined.

(** X6, instance: the tenant of the one lease on property 0. *)
Lemma isTenantOfProperty_exact_witness :
  let s := fst (scenario leased) in
  reachable RENTFLOW s /\
  _isTenantOfProperty s TENANT 0 = true /\
  exists l, allocated (leaseCounter s) l /\
            Lease.tenant (leases s l) = TENANT /\
            Lease.propertyId (leases s l) = 0 /\
            Lease.status (leases s l) = LeaseActive.
Proof.
  intro s.
  assert (R : reachable RENTFLOW s) by (apply scenario_reachable; reflexivity).
  split; [exact R|]. split; [reflexivity|].
  apply (proj1 (isTenantOfProperty_exact (L := MockLedger) RENTFLOW s TENANT 0 R)).
  reflexivity.
Defined.

(** * The lease table *)

Section LeaseTable.
Context {L : IERC20}.
Variable this : address.

(** X7.  Every created lease of a reachable state has a non-zero tenant, refers
    to a registered property, ends a whole number of 30-day months, between 1
    and 36, after it starts, has a rent due day between 1 and 28, and a
    [totalPaid] within [uint256]. *)
Theorem lease_terms_well_formed s l :
  reachable this s ->
  allocated (leaseCounter s) l ->
  Lease.tenant (leases s l) <> address0 /\
  allocated (propertyCounter s) (Lease.propertyId (leases s l)) /\
  (exists months, 1 <= months <= 36 /\
     Lease.endDate (leases s l) = Lease.startDate (leases s l) + months * (30 * DAY)) /\
  1 <= Lease.rentDueDay (leases s l) <= 28 /\
  0 <= Lease.totalPaid (leases s l) <= MAX_UINT256.
Proof.
  intros Hr Hl.
  destruct (wf_leases _ _ (reachable_wf this s Hr) l Hl) as (H1 & H2 & H3 & H4 & H5 & _).
  auto.
Qed.

(** X8.  A created lease is either [Active], holding exactly its property's
    security deposit (a positive amount), or [Completed], holding nothing; the
    statuses [Paused] and [Terminated] are never stored.  A slot no lease was
    created in holds no deposit and has no tenant. *)
Theorem lease_deposit_state s l :
  reachable this s ->
  (allocated (leaseCounter s) l ->
     (Lease.status (leases s l) = LeaseActive /\
      Lease.securityDepositHeld (leases s l)
        = Property.securityDeposit (properties s (Lease.propertyId (leases s l))) /\
      0 < Lease.securityDepositHeld (leases s l)) \/
     (Lease.status (leases s l) = LeaseCompleted /\
      Lease.securityDepositHeld (leases s l) = 0)) /\
  (~ allocated (leaseCounter s) l ->
     (Lease.status (leases s l) = LeaseActive \/ Lease.status (leases s l) = LeaseCompleted) /\
     Lease.securityDepositHeld (leases s l) = 0 /\
     Lease.tenant (leases s l) = address0).
Proof.
  intro Hr. pose proof (reachable_wf this s Hr) as W. split.
  - intro Hl. destruct (wf_leases _ _ W l Hl) as (_ & Hp & _ & _ & _ & [[Hs Hh] | [Hs Hh]]).
    + left. split; [exact Hs|]. split; [exact Hh|].
      rewrite Hh. destruct (wf_properties _ _ W _ Hp) as (_ & _ & Hd). lia.
    + right. auto.
  - intro Hl. pose proof (wf_blank_leases _ _ W l Hl) as Hb.
    split; [|split; [apply blank_lease_held | apply blank_lease_tenant]; exact Hb].
    destruct Hb as [-> | ->]; [left | right]; reflexivity.
Qed.

Lemma step_lease_terms s e c t l :
  l < leaseCounter s ->
  let s' := storage_after (exec this e c s t) s in
  leaseCounter s <= leaseCounter s' /\
  Lease.propertyId (leases s' l) = Lease.propertyId (leases s l) /\
  Lease.tenant (leases s' l) = Lease.tenant (leases s l) /\
  Lease.startDate (leases s' l) = Lease.startDate (leases s l) /\
  Lease.endDate (leases s' l) = Lease.endDate (leases s l) /\
  Lease.rentDueDay (leases s' l) = Lease.rentDueDay (leases s l) /\
  (Lease.status (leases s l) = LeaseCompleted -> Lease.status (leases s' l) = LeaseCompleted).
Proof.
  intros Hl s'. subst s'. unfold exec.
  destruct (run (dispatch this e c) s t) as [[v m] | x] eqn:H; cbn;
    [|repeat split; auto; lia].
  step_cases H c; cbn; rewrite ?upd_upd; try (repeat split; auto; lia).
  - rewrite upd_other by lia. repeat split; auto; lia.
  - upd_split l; repeat split; auto; lia.
  - upd_split l; repeat split; auto; lia.
  - upd_split l; repeat split; auto; lia.
  - upd_split l; repeat split; auto; lia.
  - upd_split l; repeat split; auto; lia.
Qed.

Lemma evolves_lease_terms s s' :
  evolves this s s' ->
  leaseCounter s <= leaseCounter s' /\
  forall l, l < leaseCounter s ->
    Lease.propertyId (leases s' l) = Lease.propertyId (leases s l) /\
    Lease.tenant (leases s' l) = Lease.tenant (leases s l) /\
    Lease.startDate (leases s' l) = Lease.startDate (leases s l) /\
    Lease.endDate (leases s' l) = Lease.endDate (leases s l) /\
    Lease.rentDueDay (leases s' l) = Lease.rentDueDay (leases s l) /\
    (Lease.status (leases s l) = LeaseCompleted -> Lease.status (leases s' l) = LeaseCompleted).
Proof.
  induction 1 as [s | s s' e c t Hev [IHc IH]].
  - split; [lia|]. intros l _. repeat split; auto.
  - split.
    + pose proof (step_lease_terms s' e c t (leaseCounter s' - 1)) as Hs.
      cbv zeta in Hs. destruct Hs as [Hs _]; lia.
    + intros l Hl.
      destruct (IH l Hl) as (I1 & I2 & I3 & I4 & I5 & I6).
      assert (Hl' : l < leaseCounter s') by lia.
      destruct (step_lease_terms s' e c t l Hl') as (_ & S1 & S2 & S3 & S4 & S5 & S6).
      repeat split; try congruence. intro Hc. apply S6. apply I6. exact Hc.
Qed.

(** X9.  Whatever transactions follow, a created lease keeps its property,
    tenant, start date, end date and rent due day. *)
Theorem lease_terms_never_change s s' l :
  evolves this s s' ->
  l < leaseCounter s ->
  l < leaseCounter s' /\
  Lease.propertyId (leases s' l) = Lease.propertyId (leases s l) /\
  Lease.tenant (leases s' l) = Lease.tenant (leases s l) /\
  Lease.startDate (leases s' l) = Lease.startDate (leases s l) /\
  Lease.endDate (leases s' l) = Lease.endDate (leases s l) /\
  Lease.rentDueDay (leases s' l) = Lease.rentDueDay (leases s l).
Proof.
  intros Hev Hl. destruct (evolves_lease_terms s s' Hev) as [Hc H].
  destruct (H l Hl) as (H1 & H2 & H3 & H4 & H5 & _).
  repeat split; try assumption; lia.
Qed.

(** X10.  A created lease that is [Completed] stays [Completed] whatever
    transactions follow, and every [payRent] and every [checkRentOverdue] on it
    fails. *)
Theorem completed_lease_is_final s s' l :
  evolves this s s' ->
  l < leaseCounter s ->
  Lease.status (leases s l) = LeaseCompleted ->
  Lease.status (leases s' l) = LeaseCompleted /\
  forall e t,
    succeeded (exec this e (PayRent l) s' t) = false /\
    succeeded (exec this e (CheckRentOverdue l) s' t) = false.
Proof.
  intros Hev Hl Hc. destruct (evolves_lease_terms s s' Hev) as [_ H].
  destruct (H l Hl) as (_ & _ & _ & _ & _ & Hfin). specialize (Hfin Hc).
  split; [exact Hfin|].
  intros e t. split.
  - fails_with Hrun. rewrite Hfin in *. discriminate.
  - fails_with Hrun; rewrite Hfin in *; discriminate.
Qed.

(** X11.  On an [Active] lease the deposit cannot be settled up to and including
    [endDate] ([returnSecurityDeposit] fails for every caller and deduction), and
    rent cannot be paid before [startDate] or after [endDate]: at no time are
    both possible. *)
Theorem rent_and_settlement_windows s e t l :
  Lease.status (leases s l) = LeaseActive ->
  (block_timestamp e <= Lease.endDate (leases s l) ->
     forall deductionAmount,
       succeeded (exec this e (ReturnSecurityDeposit l deductionAmount) s t) = false) /\
  (block_timestamp e < Lease.startDate (leases s l) \/
   Lease.endDate (leases s l) < block_timestamp e ->
     succeeded (exec this e (PayRent l) s t) = false).
Proof.
  intro Ha. split.
  - intros Hnow deductionAmount.
    fails_with Hrun;
      match goal with
      | Hg : _ || (_ <? _) = true |- _ =>
          rewrite Ha in Hg; cbn in Hg; apply Z.ltb_lt in Hg; lia
      end.
  - intros Hnow.
    fails_with Hrun.
    match goal with
    | H1 : (Lease.startDate _ <=? _) = true, H2 : (_ <=? Lease.endDate _) = true |- _ =>
        apply Z.leb_le in H1, H2; lia
    end.
Qed.

End LeaseTable.


(** X7, instance: the one-month lease of the scenario. *)
Lemma lease_terms_well_formed_witness :
  let s := fst (scenario leased) in
  reachable RENTFLOW s /\ allocated (leaseCounter s) 0 /\
  Lease.tenant (leases s 0) <> address0 /\
  (exists months, 1 <= months <= 36 /\
     Lease.endDate (leases s 0) = Lease.startDate (leases s 0) + months * (30 * DAY)).
Proof.
  intro s.
  assert (R : reachable RENTFLOW s) by (apply scenario_reachable; reflexivity).
  assert (A : allocated (leaseCounter s) 0)
    by (unfold allocated; vm_compute; split; [discriminate | reflexivity]).
  split; [exact R|]. split; [exact A|].
  destruct (lease_terms_well_formed (L := MockLedger) RENTFLOW s 0 R A) as (H1 & _ & H3 & _).
  split; assumption.
Defined.

(** X8, instance: the lease before and after its settlement. *)
Lemma lease_deposit_state_witness :
  let s := fst (scenario leased) in
  let s' := fst (scenario settled) in
  (reachable RENTFLOW s /\ Lease.status (leases s 0) = LeaseActive /\
   Lease.securityDepositHeld (leases s 0) = Property.securityDeposit (properties s 0)) /\
  (reachable RENTFLOW s' /\ Lease.status (leases s' 0) = LeaseCompleted /\
   Lease.securityDepositHeld (leases s' 0) = 0).
Proof.
  intros s s'.
  assert (R : reachable RENTFLOW s) by (apply scenario_reachable; reflexivity).
  assert (R' : reachable RENTFLOW s') by (apply scenario_reachable; reflexivity).
  assert (A : allocated (leaseCounter s) 0)
    by (unfold allocated; vm_compute; split; [discriminate | reflexivity]).
  assert (A' : allocated (leaseCounter s') 0)
    by (unfold allocated; vm_compute; split; [discriminate | reflexivity]).
  split.
  - split; [exact R|].
    destruct (proj1 (lease_deposit_state (L := MockLedger) RENTFLOW s 0 R) A)
      as [(H1 & H2 & _) | (H1 & _)]; [split; assumption | vm_compute in H1; discriminate H1].
  - split; [exact R'|].
    destruct (proj1 (lease_deposit_state (L := MockLedger) RENTFLOW s' 0 R') A')
      as [(H1 & _) | (H1 & H2)]; [vm_compute in H1; discriminate H1 | split; assumption].
Defined.

(** X9, instance: the lease after a rent payment. *)
Lemma lease_terms_never_change_witness :
  let s := fst (scenario leased) in
  let t := snd (scenario leased) in
  let s' := storage_after (exec RENTFLOW (at_time TENANT 200) (PayRent 0) s t) s in
  Lease.totalPaid (leases s' 0) = usdc 2500 /\
  Lease.tenant (leases s' 0) = TENANT /\
  Lease.endDate (leases s' 0) = lease_end.
Proof.
  intros s t s'.
  assert (Hev : evolves (L := MockLedger) RENTFLOW s s').
  { apply (evolves_step (L := MockLedger)). apply evolves_refl. }
  assert (Hl : 0 < leaseCounter s) by reflexivity.
  destruct (lease_terms_never_change (L := MockLedger) RENTFLOW s s' 0 Hev Hl)
    as (_ & _ & H2 & _ & H4 & _).
  split; [reflexivity|]. split; [rewrite H2 | rewrite H4]; reflexivity.
Defined.

(** X10, instance: rent and overdue check on the settled lease. *)
Lemma completed_lease_is_final_witness :
  let s := fst (scenario settled) in
  let t := snd (scenario settled) in
  Lease.status (leases s 0) = LeaseCompleted /\
  succeeded (exec RENTFLOW (at_time TENANT 200) (PayRent 0) s t) = false /\
  succeeded (exec RENTFLOW (at_time AI_AGENT 200) (CheckRentOverdue 0) s t) = false.
Proof.
  intros s t.
  assert (Hl : 0 < leaseCounter s) by reflexivity.
  assert (Hc : Lease.status (leases s 0) = LeaseCompleted) by reflexivity.
  destruct (completed_lease_is_final (L := MockLedger) RENTFLOW s s 0
              (evolves_refl RENTFLOW s) Hl Hc) as [_ Hfin].
  split; [exact Hc|]. split.
  - exact (proj1 (Hfin (at_time TENANT 200) t)).
  - exact (proj2 (Hfin (at_time AI_AGENT 200) t)).
Defined.

(** X11, instance: settlement at the very end date, rent one second after it. *)
Lemma rent_and_settlement_windows_witness :
  let s := fst (scenario leased) in
  let t := snd (scenario leased) in
  Lease.status (leases s 0) = LeaseActive /\
  succeeded (exec RENTFLOW (at_time PROPERTY_OWNER lease_end) (ReturnSecurityDeposit 0 0) s t)
  = false /\
  succeeded (exec RENTFLOW (at_time TENANT (lease_end + 1)) (PayRent 0) s t) = false.
Proof.
  intros s t.
  assert (Ha : Lease.status (leases s 0) = LeaseActive) by reflexivity.
  split; [exact Ha|]. split.
  - apply (proj1 (rent_and_settlement_windows (L := MockLedger) RENTFLOW s
                    (at_time PROPERTY_OWNER lease_end) t 0 Ha)).
    vm_compute. discriminate.
  - apply (proj2 (rent_and_settlement_windows (L := MockLedger) RENTFLOW s
                    (at_time TENANT (lease_end + 1)) t 0 Ha)).
    right. vm_compute. reflexivity.
Defined.

(** * Maintenance requests *)

Section RequestTable.
Context {L : IERC20}.
Variable this : address.

(** X12.  In every reachable state a request slot is [Pending], [Approved] or
    [Completed] ([InProgress] and [Rejected] are never stored); once it is not
    [Pending] its approved amount lies in [1 .. 500_000000] and its contractor is
    not the zero address; and a request allocated by [requestMaintenance] names
    a registered property, a non-zero requester, a non-empty description and a
    positive estimate. *)
Theorem request_records_well_formed s r :
  reachable this s ->
  let request := maintenanceRequests s r in
  (MaintenanceRequest.status request = Pending \/
   MaintenanceRequest.status request = Approved \/
   MaintenanceRequest.status request = Completed) /\
  (MaintenanceRequest.status request <> Pending ->
     0 < MaintenanceRequest.approvedAmount request <= 500000000 /\
     MaintenanceRequest.contractor request <> address0) /\
  (allocated (maintenanceCounter s) r ->
     allocated (propertyCounter s) (MaintenanceRequest.propertyId request) /\
     MaintenanceRequest.requestedBy request <> address0 /\
     MaintenanceRequest.description request <> EmptyString /\
     0 < MaintenanceRequest.estimatedCost request).
Proof.
  intros Hr request. pose proof (reachable_wf this s Hr) as W.
  pose proof (wf_decisions _ _ W r) as Hd. fold request in Hd. unfold decision_ok in Hd.
  change autoApprovalLimit with 500000000 in Hd.
  split; [|split].
  - destruct (MaintenanceRequest.status request); auto; contradiction.
  - intro Hne. destruct (MaintenanceRequest.status request); try contradiction; auto.
  - intro Ha. exact (wf_requests _ _ W r Ha).
Qed.

Lemma step_request_terms s e c t r :
  r < maintenanceCounter s ->
  let s' := storage_after (exec this e c s t) s in
  let request := maintenanceRequests s r in
  let request' := maintenanceRequests s' r in
  maintenanceCounter s <= maintenanceCounter s' /\
  MaintenanceRequest.propertyId request' = MaintenanceRequest.propertyId request /\
  MaintenanceRequest.requestedBy request' = MaintenanceRequest.requestedBy request /\
  MaintenanceRequest.description request' = MaintenanceRequest.description request /\
  MaintenanceRequest.estimatedCost request' = MaintenanceRequest.estimatedCost request /\
  MaintenanceRequest.createdAt request' = MaintenanceRequest.createdAt request /\
  (MaintenanceRequest.status request <> Pending ->
     MaintenanceRequest.status request' <> Pending /\
     MaintenanceRequest.approvedAmount request' = MaintenanceRequest.approvedAmount request /\
     MaintenanceRequest.contractor request' = MaintenanceRequest.contractor request).
Proof.
  intros Hl s' request request'. subst s' request request'. unfold exec.
  destruct (run (dispatch this e c) s t) as [[v m] | x] eqn:H; cbn;
    [|repeat split; auto; lia].
  step_cases H c; cbn; rewrite ?upd_upd; try (repeat split; auto; lia).
  - rewrite upd_other by lia. repeat split; auto; lia.
  - apply MaintenanceStatus_eqb_eq in Hreq0.
    upd_split r; repeat split; auto; try lia; try congruence.
  - upd_split r; repeat split; auto; try lia; try discriminate.
Qed.

Lemma evolves_request_terms s s' :
  evolves this s s' ->
  maintenanceCounter s <= maintenanceCounter s' /\
  forall r, r < maintenanceCounter s ->
    let request := maintenanceRequests s r in
    let request' := maintenanceRequests s' r in
    MaintenanceRequest.propertyId request' = MaintenanceRequest.propertyId request /\
    MaintenanceRequest.requestedBy request' = MaintenanceRequest.requestedBy request /\
    MaintenanceRequest.description request' = MaintenanceRequest.description request /\
    MaintenanceRequest.estimatedCost request' = MaintenanceRequest.estimatedCost request /\
    MaintenanceRequest.createdAt request' = MaintenanceRequest.createdAt request /\
    (MaintenanceRequest.status request <> Pending ->
       MaintenanceRequest.status request' <> Pending /\
       MaintenanceRequest.approvedAmount request' = MaintenanceRequest.approvedAmount request /\
       MaintenanceRequest.contractor request' = MaintenanceRequest.contractor request).
Proof.
  induction 1 as [s | s s' e c t Hev [IHc IH]].
  - split; [lia|]. intros r _. cbv zeta. repeat split; auto.
  - split.
    + pose proof (step_request_terms s' e c t (maintenanceCounter s' - 1)) as Hs.
      cbv zeta in Hs. destruct Hs as [Hs _]; lia.
    + intros r Hr. cbv zeta.
      destruct (IH r Hr) as (I1 & I2 & I3 & I4 & I5 & I6).
      assert (Hr' : r < maintenanceCounter s') by lia.
      destruct (step_request_terms s' e c t r Hr') as (_ & S1 & S2 & S3 & S4 & S5 & S6).
      split; [congruence|]. split; [congruence|]. split; [congruence|].
      split; [congruence|]. split; [congruence|].
      intro Hne. destruct (I6 Hne) as (J1 & J2 & J3). destruct (S6 J1) as (K1 & K2 & K3).
      split; [exact K1|]. split; congruence.
Qed.

(** X13.  Whatever transactions follow, an allocated request keeps its property,
    requester, description, estimate and creation time; and once it has been
    approved, its approved amount and its contractor cannot be changed, nor
    can it become [Pending] again. *)
Theorem request_terms_never_change s s' r :
  evolves this s s' ->
  r < maintenanceCounter s ->
  let request := maintenanceRequests s r in
  let request' := maintenanceRequests s' r in
  r < maintenanceCounter s' /\
  MaintenanceRequest.propertyId request' = MaintenanceRequest.propertyId request /\
  MaintenanceRequest.requestedBy request' = MaintenanceRequest.requestedBy request /\
  MaintenanceRequest.description request' = MaintenanceRequest.description request /\
  MaintenanceRequest.estimatedCost request' = MaintenanceRequest.estimatedCost request /\
  MaintenanceRequest.createdAt request' = MaintenanceRequest.createdAt request /\
  (MaintenanceRequest.status request <> Pending ->
     MaintenanceRequest.status request' <> Pending /\
     MaintenanceRequest.approvedAmount request' = MaintenanceRequest.approvedAmount request /\
     MaintenanceRequest.contractor request' = MaintenanceRequest.contractor request).
Proof.
  intros Hev Hr request request'. destruct (evolves_request_terms s s' Hev) as [Hc H].
  split; [lia | exact (H r Hr)].
Qed.

End RequestTable.


(** X12, instance: the request that was paid. *)
Lemma request_records_well_formed_witness :
  let s := fst (scenario paid_request) in
  reachable RENTFLOW s /\
  MaintenanceRequest.status (maintenanceRequests s 0) = Completed /\
  0 < MaintenanceRequest.approvedAmount (maintenanceRequests s 0) <= 500000000 /\
  MaintenanceRequest.contractor (maintenanceRequests s 0) <> address0.
Proof.
  intro s.
  assert (R : reachable RENTFLOW s) by (apply scenario_reachable; reflexivity).
  split; [exact R|]. split; [reflexivity|].
  destruct (request_records_well_formed (L := MockLedger) RENTFLOW s 0 R) as (_ & H & _).
  apply H. intro Hx. vm_compute in Hx. discriminate Hx.
Defined.

(** X13, instance: the approved request after its payout. *)
Lemma request_terms_never_change_witness :
  let s := fst (scenario funded_approved) in
  let t := snd (scenario funded_approved) in
  let s' := storage_after
              (exec RENTFLOW (at_time PROPERTY_OWNER 200) (PayMaintenanceContractor 0) s t) s in
  MaintenanceRequest.status (maintenanceRequests s' 0) = Completed /\
  MaintenanceRequest.approvedAmount (maintenanceRequests s' 0) = usdc 150 /\
  MaintenanceRequest.contractor (maintenanceRequests s' 0) = CONTRACTOR.
Proof.
  intros s t s'.
  assert (Hev : evolves (L := MockLedger) RENTFLOW s s').
  { apply (evolves_step (L := MockLedger)). apply evolves_refl. }
  assert (Hr : 0 < maintenanceCounter s) by reflexivity.
  destruct (request_terms_never_change (L := MockLedger) RENTFLOW s s' 0 Hev Hr)
    as (_ & _ & _ & _ & _ & _ & H).
  destruct H as (_ & H1 & H2); [intro Hx; vm_compute in Hx; discriminate Hx|].
  split; [reflexivity|]. split; [rewrite H1 | rewrite H2]; reflexivity.
Defined.

(** * Outcomes of the entry points *)

Lemma String_length_pos d : (0 <? Z.of_nat (String.length d)) = true <-> d <> EmptyString.
Proof. destruct d; cbn; split; congruence. Qed.

Section RequestMaintenance.
Context {L : IERC20}.
Variable this : address.

(** X14.  In a reachable state [requestMaintenance] succeeds exactly when the
    property is active, the caller is its owner or the tenant of an [Active]
    lease on it, the description is not empty, the estimate is positive and
    the request counter has not reached [2^256 - 1]; it then returns the next
    request id and stores there a [Pending] request with no approved amount and
    no contractor, changing nothing else and calling no ledger operation. *)
Theorem requestMaintenance_outcome s e t propertyId description estimatedCost :
  reachable this s ->
  let o := exec this e (RequestMaintenance propertyId description estimatedCost) s t in
  let requestId := maintenanceCounter s in
  (succeeded o = true <->
     Property.isActive (properties s propertyId) = true /\
     (Property.owner (properties s propertyId) = msg_sender e \/
      exists l, allocated (leaseCounter s) l /\
                Lease.tenant (leases s l) = msg_sender e /\
                Lease.propertyId (leases s l) = propertyId /\
                Lease.status (leases s l) = LeaseActive) /\
     description <> EmptyString /\
     0 < estimatedCost /\
     requestId < MAX_UINT256) /\
  (succeeded o = true ->
     o = Success (Some requestId)
           (set_maintenanceRequests
              (upd (maintenanceRequests s) requestId
                   (MaintenanceRequest.mk propertyId (msg_sender e) description estimatedCost
                                          0 address0 Pending (block_timestamp e)))
              (set_maintenanceCounter (requestId + 1) s))
           t [MaintenanceRequested requestId propertyId estimatedCost] []).
Proof.
  intros Hr o requestId. subst o requestId.
  pose proof (reachable_wf this s Hr) as W.
  assert (Hten : _isTenantOfProperty s (msg_sender e) propertyId = true <->
                 exists l, allocated (leaseCounter s) l /\
                           Lease.tenant (leases s l) = msg_sender e /\
                           Lease.propertyId (leases s l) = propertyId /\
                           Lease.status (leases s l) = LeaseActive).
  { unfold _isTenantOfProperty.
    rewrite scan_leases_true, (wf_tenant_index _ _ W (msg_sender e)). split.
    - intros (l & Hin & H1 & H2).
      apply filter_In in Hin. destruct Hin as [Hin Ht].
      apply in_ids_below in Hin. apply Z.eqb_eq in Ht. exists l. auto.
    - intros (l & Hl & Ht & H1 & H2). exists l. split; [|auto].
      apply filter_In. split; [apply in_ids_below; exact Hl | apply Z.eqb_eq; exact Ht]. }
  unfold exec.
  destruct (run (dispatch this e (RequestMaintenance propertyId description estimatedCost)) s t)
    as [[v m] | x] eqn:H.
  - unfold dispatch, run, requestMaintenance in H. monad_inv H. cbn.
    split; [|reflexivity]. split; [intros _ | reflexivity].
    apply orb_true_iff in Hreq0. apply String_length_pos in Hreq1. apply Z.ltb_lt in Hreq2.
    split; [assumption|]. split.
    + destruct Hreq0 as [Ho | Ht]; [left; apply Z.eqb_eq; exact Ho | right; apply Hten; exact Ht].
    + repeat split; try assumption; lia.
  - cbn. split; [|discriminate]. split; [discriminate|].
    intros (Ha & Hwho & Hd & Hc & Hfit). exfalso.
    assert (Hwho' : (Property.owner (properties s propertyId) =? msg_sender e)
                    || _isTenantOfProperty s (msg_sender e) propertyId = true).
    { apply orb_true_iff. destruct Hwho as [Ho | Ht];
        [left; apply Z.eqb_eq; exact Ho | right; apply Hten; exact Ht]. }
    apply String_length_pos in Hd. apply Z.ltb_lt in Hc.
    assert (Hfit' : (maintenanceCounter s + 1 <=? MAX_UINT256) = true) by (apply Z.leb_le; lia).
    assert (Hgo : exists m, run (dispatch this e
                    (RequestMaintenance propertyId description estimatedCost)) s t
                  = Ok (Some (maintenanceCounter s), m)).
    { eexists. unfold run, dispatch, returning_id, requestMaintenance.
      repeat fwd; try first [reflexivity | absurd_branch]. }
    destruct Hgo as [m Hgo]. congruence.
Qed.
End RequestMaintenance.

(** X14, instance: the tenant may file a request on the leased property, an
    unrelated account may not. *)
Lemma requestMaintenance_outcome_witness :
  let s := fst (scenario leased) in
  let t := snd (scenario leased) in
  reachable RENTFLOW s /\
  succeeded (exec RENTFLOW (at_time TENANT 150) (RequestMaintenance 0 "Fix leak" (usdc 150)) s t)
  = true /\
  succeeded (exec RENTFLOW (at_time STRANGER 150) (RequestMaintenance 0 "Fix leak" (usdc 150)) s t)
  = false.
Proof.
  intros s t.
  assert (R : reachable RENTFLOW s) by (apply scenario_reachable; reflexivity).
  split; [exact R|]. split.
  - apply (proj1 (requestMaintenance_outcome (L := MockLedger) RENTFLOW s (at_time TENANT 150) t
                    0 "Fix leak"%string (usdc 150) R)).
    split; [reflexivity|]. split.
    + right. exists 0. unfold allocated. vm_compute.
      repeat split; try reflexivity; discriminate.
    + split; [discriminate|]. split; reflexivity.
  - vm_compute. reflexivity.
Defined.

Section FundMaintenance.
Context {L : IERC20} {SL : StandardLedger L}.
Variable this : address.

(** X15.  On a standard ledger, in a reachable state and for an external caller,
    [fundMaintenance] succeeds exactly when the caller owns the property, the
    amount is positive, the ledger confirms the pull from the caller and the
    escrow stays within [uint256]; it then adds exactly the amount to that
    property's escrow (as [getMaintenanceFundBalance] reports it) and to the
    contract's token balance, takes it from the caller's, and leaves every
    other escrow as it was. *)
Theorem fundMaintenance_credits_escrow s e t propertyId amount :
  reachable this s -> external_caller this e ->
  let o := exec this e (FundMaintenance propertyId amount) s t in
  let pull := transferFrom this (msg_sender e) this amount t in
  (succeeded o = true <->
     Property.owner (properties s propertyId) = msg_sender e /\
     0 < amount /\
     confirmed pull = true /\
     maintenanceFunds s propertyId + amount <= MAX_UINT256) /\
  (succeeded o = true ->
     allocated (propertyCounter s) propertyId /\
     pull = Returned true (ledger_after o t) /\
     ops_of o = [OpTransferFrom (msg_sender e) this amount] /\
     events_of o = [MaintenanceFundAdded propertyId amount] /\
     getMaintenanceFundBalance (storage_after o s) propertyId
       = getMaintenanceFundBalance s propertyId + amount /\
     (forall p, p <> propertyId ->
        getMaintenanceFundBalance (storage_after o s) p = getMaintenanceFundBalance s p) /\
     balanceOf (ledger_after o t) this = balanceOf t this + amount /\
     balanceOf (ledger_after o t) (msg_sender e) = balanceOf t (msg_sender e) - amount).
Proof.
  intros Hr [He0 Het] o pull. subst o pull.
  pose proof (reachable_wf this s Hr) as W.
  pose proof (inv_entered _ _ (reachable_inv this s Hr)) as Hent.
  unfold exec.
  destruct (run (dispatch this e (FundMaintenance propertyId amount)) s t)
    as [[v m] | x] eqn:H.
  - unfold dispatch, run, fundMaintenance in H. monad_inv H. cbn.
    apply Z.eqb_eq in Hreq. apply Z.ltb_lt in Hreq0.
    split.
    + split; [intros _ | reflexivity].
      rewrite Hcall. cbn. repeat split; try assumption.
    + intros _.
      split; [exact (owned_is_allocated _ _ _ (wf_blank_properties _ _ W) Hreq He0)|].
      split; [exact Hcall|]. split; [reflexivity|]. split; [reflexivity|].
      unfold getMaintenanceFundBalance. cbn. rewrite upd_same.
      split; [reflexivity|].
      split; [intros p Hp; rewrite upd_other by exact Hp; reflexivity|].
      rewrite !(transferFrom_moves _ _ _ _ _ _ Hcall).
      rewrite !Z.eqb_refl.
      apply Z.eqb_neq in Het. rewrite Het. rewrite Z.eqb_sym in Het. rewrite Het.
      split; lia.
  - cbn. split; [|discriminate]. split; [discriminate|].
    intros (Ho & Ha & Hc & Hfit). exfalso.
    apply Z.eqb_eq in Ho. apply Z.ltb_lt in Ha. apply Z.leb_le in Hfit.
    destruct (transferFrom this (msg_sender e) this amount t) as [[|] t' |] eqn:Ep;
      try discriminate Hc.
    assert (Hgo : exists m, run (dispatch this e (FundMaintenance propertyId amount)) s t
                            = Ok (None, m)).
    { eexists. unfold run, dispatch, returning_nothing, fundMaintenance.
      repeat fwd; try first [reflexivity | absurd_branch]. }
    destruct Hgo as [m Hgo]. congruence.
Qed.

End FundMaintenance.

(** X15, instance: the owner pays 250 units into the escrow of property 0. *)
Lemma fundMaintenance_credits_escrow_witness :
  let s := fst (scenario approved_unfunded) in
  let t := snd (scenario approved_unfunded) in
  let o := exec RENTFLOW (at_time PROPERTY_OWNER 120) (FundMaintenance 0 (usdc 250)) s t in
  reachable RENTFLOW s /\
  succeeded o = true /\
  getMaintenanceFundBalance (storage_after o s) 0 = usdc 250 /\
  balances (ledger_after o t) RENTFLOW = balances t RENTFLOW + usdc 250.
Proof.
  intros s t o.
  assert (R : reachable RENTFLOW s) by (apply scenario_reachable; reflexivity).
  assert (He : external_caller RENTFLOW (at_time PROPERTY_OWNER 120))
    by (split; discriminate).
  assert (Hok : succeeded o = true) by (vm_compute; reflexivity).
  split; [exact R|]. split; [exact Hok|].
  destruct (fundMaintenance_credits_escrow (L := MockLedger) RENTFLOW s _ t 0 (usdc 250) R He)
    as [_ Heff].
  destruct (Heff Hok) as (_ & _ & _ & _ & Hf & _ & Hb & _).
  subst o. split; [rewrite Hf; reflexivity | exact Hb].
Defined.

Section CreateLease.
Context {L : IERC20}.
Variable this : address.

(** X16.  [createLease] succeeds exactly when the caller owns the property, the
    property is active, the tenant is not the zero address, the start date is
    not in the past, the duration is 1 to 36 months, the rent due day is 1 to
    28, the lease counter has not reached [2^256 - 1], the ledger confirms the
    pull of the deposit from the tenant, and [startDate + months * 30 days]
    fits [uint256]. *)
Theorem createLease_outcome s e t propertyId tenant startDate durationMonths rentDueDay :
  let o := exec this e
             (CreateLease propertyId tenant startDate durationMonths rentDueDay) s t in
  let deposit := Property.securityDeposit (properties s propertyId) in
  succeeded o = true <->
    Property.owner (properties s propertyId) = msg_sender e /\
    Property.isActive (properties s propertyId) = true /\
    tenant <> address0 /\
    block_timestamp e <= startDate /\
    1 <= durationMonths <= 36 /\
    1 <= rentDueDay <= 28 /\
    leaseCounter s < MAX_UINT256 /\
    confirmed (transferFrom this tenant this deposit t) = true /\
    startDate + durationMonths * (30 * DAY) <= MAX_UINT256.
Proof.
  intros o deposit. subst o deposit. unfold exec.
  destruct (run (dispatch this e
              (CreateLease propertyId tenant startDate durationMonths rentDueDay)) s t)
    as [[v m] | x] eqn:H.
  - unfold dispatch, run, createLease in H. monad_inv H. cbn.
    split; [intros _ | reflexivity].
    apply Z.eqb_eq in Hreq. apply negb_true_iff in Hreq1. apply Z.eqb_neq in Hreq1.
    apply Z.leb_le in Hreq2. apply andb_true_iff in Hreq3, Hreq4.
    destruct Hreq3 as [M1 M2]. destruct Hreq4 as [D1 D2].
    apply Z.ltb_lt in M1. apply Z.leb_le in M2, D1, D2.
    rewrite Hcall. cbn in *.
    repeat split; try assumption; lia.
  - cbn. split; [discriminate|].
    intros (Ho & Ha & Ht & Hs & [M1 M2] & [D1 D2] & Hc & Hp & Hfit). exfalso.
    apply Z.eqb_eq in Ho. apply Z.eqb_neq in Ht.
    apply Z.leb_le in Hs.
    assert (Hm : (0 <? durationMonths) && (durationMonths <=? 36) = true).
    { apply andb_true_iff. split; [apply Z.ltb_lt | apply Z.leb_le]; lia. }
    assert (Hd : (1 <=? rentDueDay) && (rentDueDay <=? 28) = true).
    { apply andb_true_iff. split; apply Z.leb_le; lia. }
    assert (Hc' : (leaseCounter s + 1 <=? MAX_UINT256) = true) by (apply Z.leb_le; lia).
    assert (Hmul : (durationMonths * (30 * DAY) <=? MAX_UINT256) = true).
    { apply Z.leb_le. rewrite MAX_UINT256_value. unfold DAY. lia. }
    apply Z.leb_le in Hfit.
    destruct (transferFrom this tenant this
                (Property.securityDeposit (properties s propertyId)) t)
      as [[|] t' |] eqn:Ep; try discriminate Hp.
    assert (Hgo : exists m, run (dispatch this e
                    (CreateLease propertyId tenant startDate durationMonths rentDueDay)) s t
                  = Ok (Some (leaseCounter s), m)).
    { eexists. unfold run, dispatch, returning_id, createLease.
      repeat fwd; try first [reflexivity | absurd_branch].
      exfalso. change (30 * DAY) with 2592000 in *. congruence. }
    destruct Hgo as [m Hgo]. congruence.
Qed.

End CreateLease.

Section Transactions.
Context {L : IERC20}.
Variable this : address.

(** X17.  Ids are handed out in sequence: a successful [registerProperty],
    [createLease] or [requestMaintenance] returns the current value of its
    counter and increments that counter by one; no other entry point, and no
    failed transaction, changes any counter or returns an id. *)
Theorem ids_are_sequential s e c t :
  let o := exec this e c s t in
  let s' := storage_after o s in
  match o with
  | Success v _ _ _ _ =>
      match c with
      | RegisterProperty _ _ =>
          v = Some (propertyCounter s) /\
          propertyCounter s' = propertyCounter s + 1 /\
          leaseCounter s' = leaseCounter s /\
          maintenanceCounter s' = maintenanceCounter s
      | CreateLease _ _ _ _ _ =>
          v = Some (leaseCounter s) /\
          propertyCounter s' = propertyCounter s /\
          leaseCounter s' = leaseCounter s + 1 /\
          maintenanceCounter s' = maintenanceCounter s
      | RequestMaintenance _ _ _ =>
          v = Some (maintenanceCounter s) /\
          propertyCounter s' = propertyCounter s /\
          leaseCounter s' = leaseCounter s /\
          maintenanceCounter s' = maintenanceCounter s + 1
      | _ =>
          v = None /\
          propertyCounter s' = propertyCounter s /\
          leaseCounter s' = leaseCounter s /\
          maintenanceCounter s' = maintenanceCounter s
      end
  | Reverted _ =>
      propertyCounter s' = propertyCounter s /\
      leaseCounter s' = leaseCounter s /\
      maintenanceCounter s' = maintenanceCounter s
  end.
Proof.
  intros o s'. subst o s'. unfold exec.
  destruct (run (dispatch this e c) s t) as [[v m] | x] eqn:H; cbn; [|auto].
  step_cases H c; cbn; repeat split; reflexivity.
Qed.

(** X18.  A transaction whose sender is not the contract owner leaves the owner,
    the pause flag and the agent authorizations as they were.  An
    authorization changes only by [setAIAgent] on that very (non-zero) address,
    the pause flag only by [pause] when not paused or [unpause] when paused,
    and the owner only by the inherited [transferOwnership] or
    [renounceOwnership]. *)
Theorem admin_state_needs_owner s e c t :
  let s' := storage_after (exec this e c s t) s in
  (msg_sender e <> owner s ->
     owner s' = owner s /\ paused s' = paused s /\
     forall a, authorizedAIAgents s' a = authorizedAIAgents s a) /\
  (forall a, authorizedAIAgents s' a <> authorizedAIAgents s a ->
     c = SetAIAgent a (authorizedAIAgents s' a) /\ a <> address0) /\
  (paused s' <> paused s ->
     (c = DoPause /\ paused s = false) \/ (c = DoUnpause /\ paused s = true)) /\
  (owner s' <> owner s ->
     c = TransferOwnership (owner s') \/ (c = RenounceOwnership /\ owner s' = address0)).
Proof.
  intros s'. subst s'. unfold exec.
  destruct (run (dispatch this e c) s t) as [[v m] | x] eqn:H; cbn;
    [|repeat split; intros; congruence].
  step_cases H c; cbn; try solve [repeat split; intros; congruence];
    match goal with
    | Ho : (owner _ =? msg_sender _) = true |- _ => apply Z.eqb_eq in Ho
    end;
    (split; [intro Hne; exfalso; congruence|]);
    (split; [intros who Ha | split; [intro Hp | intro Hown]]); try congruence.
  - (* setAIAgent: the one entry that is written *)
    apply negb_true_iff in Hreq. apply Z.eqb_neq in Hreq.
    unfold upd in *. destruct (Z.eqb_spec who agent) as [Heq | Hne]; [subst who | congruence].
    split; [reflexivity | exact Hreq].
  - left. split; reflexivity.
  - right. split; reflexivity.
  - left. reflexivity.
  - right. split; reflexivity.
Qed.

(** X19.  For the contract owner, [pause] followed by [unpause] succeeds and
    restores the storage exactly; a second [pause] while paused fails, and so
    does [unpause] while not paused. *)
Theorem pause_unpause_round_trip s e t t' :
  msg_sender e = owner s ->
  paused s = false ->
  let o1 := exec this e DoPause s t in
  let s1 := storage_after o1 s in
  let o2 := exec this e DoUnpause s1 t' in
  succeeded o1 = true /\ paused s1 = true /\
  succeeded o2 = true /\ storage_after o2 s1 = s /\
  succeeded (exec this e DoPause s1 t') = false /\
  succeeded (exec this e DoUnpause s t) = false.
Proof.
  intros Ho Hp o1 s1 o2. subst o1 s1 o2.
  apply Z.eqb_eq in Ho. rewrite Z.eqb_sym in Ho.
  assert (H1 : exec this e DoPause s t
               = Success None (set_paused true s) t [Paused (msg_sender e)] []).
  { unfold exec.
    replace (run (dispatch this e DoPause) s t)
      with (@Ok (option uint256 * Machine)
              (None, mkMachine L (set_paused true s) t [Paused (msg_sender e)] []));
      [reflexivity|].
    symmetry. unfold run, dispatch, returning_nothing, pause.
    repeat fwd; first [reflexivity | absurd_branch]. }
  rewrite H1. cbn [storage_after succeeded].
  assert (Hs : set_paused false (set_paused true s) = s).
  { destruct s; cbn in *. subst. reflexivity. }
  assert (H2 : exec this e DoUnpause (set_paused true s) t'
               = Success None s t' [Unpaused (msg_sender e)] []).
  { unfold exec.
    replace (run (dispatch this e DoUnpause) (set_paused true s) t')
      with (@Ok (option uint256 * Machine)
              (None, mkMachine L (set_paused false (set_paused true s)) t'
                               [Unpaused (msg_sender e)] []));
      [rewrite Hs; reflexivity|].
    symmetry. unfold run, dispatch, returning_nothing, unpause.
    repeat fwd; first [reflexivity | absurd_branch]. }
  rewrite H2. cbn [storage_after succeeded].
  split; [reflexivity|]. split; [reflexivity|]. split; [reflexivity|]. split; [reflexivity|].
  split.
  - fails_with Hrun. discriminate.
  - fails_with Hrun. congruence.
Qed.

End Transactions.


(** X19, instance: the owner pauses and unpauses the contract with its funded
    request. *)
Lemma pause_unpause_round_trip_witness :
  let s := fst (scenario funded_approved) in
  let t := snd (scenario funded_approved) in
  let e := at_time OWNER 150 in
  let s1 := storage_after (exec RENTFLOW e DoPause s t) s in
  paused s = false /\ paused s1 = true /\
  storage_after (exec RENTFLOW e DoUnpause s1 t) s1 = s.
Proof.
  intros s t e s1.
  assert (Ho : msg_sender e = owner s) by reflexivity.
  assert (Hp : paused s = false) by reflexivity.
  destruct (pause_unpause_round_trip (L := MockLedger) RENTFLOW s e t t Ho Hp)
    as (_ & H1 & _ & H2 & _).
  split; [exact Hp|]. split; [exact H1 | exact H2].
Defined.

Section LedgerCalls.
Context {L : IERC20}.
Variable this : address.

(** X20.  A transaction issues at most two ledger calls, and only these: [payRent]
    pulls the rent from its caller to the property owner; [fundMaintenance]
    pulls the amount from its caller to the contract; [createLease] pulls the
    property's deposit from the named tenant to the contract;
    [payMaintenanceContractor] sends the approved amount to the request's
    contractor; [returnSecurityDeposit] sends the remainder to the tenant and
    the deduction to the property owner.  No other entry point touches the
    ledger. *)
Theorem ledger_calls_discipline s e c t :
  let o := exec this e c s t in
  (List.length (ops_of o) <= 2)%nat /\
  forall op, In op (ops_of o) ->
    match op with
    | OpTransferFrom from to amount =>
        (exists leaseId,
           c = PayRent leaseId /\ from = msg_sender e /\
           to = Property.owner (properties s (Lease.propertyId (leases s leaseId))) /\
           amount = Property.monthlyRent (properties s (Lease.propertyId (leases s leaseId)))) \/
        (exists propertyId,
           c = FundMaintenance propertyId amount /\ from = msg_sender e /\ to = this) \/
        (exists propertyId startDate durationMonths rentDueDay,
           c = CreateLease propertyId from startDate durationMonths rentDueDay /\
           to = this /\ amount = Property.securityDeposit (properties s propertyId))
    | OpTransfer to amount =>
        (exists requestId,
           c = PayMaintenanceContractor requestId /\
           to = MaintenanceRequest.contractor (maintenanceRequests s requestId) /\
           amount = MaintenanceRequest.approvedAmount (maintenanceRequests s requestId)) \/
        (exists leaseId deductionAmount,
           c = ReturnSecurityDeposit leaseId deductionAmount /\
           ((to = Lease.tenant (leases s leaseId) /\
             amount = Lease.securityDepositHeld (leases s leaseId) - deductionAmount) \/
            (to = Property.owner (properties s (Lease.propertyId (leases s leaseId))) /\
             amount = deductionAmount)))
    end.
Proof.
  intro o. subst o. unfold exec.
  destruct (run (dispatch this e c) s t) as [[v m] | x] eqn:H; cbn;
    [|split; [lia | intros op []]].
  step_cases H c; cbn; (split; [lia|]); intros op Hin;
    repeat match goal with
           | Hi : _ \/ _ |- _ => destruct Hi as [Hi | Hi]
           | Hi : False |- _ => destruct Hi
           end; subst op; rewrite ?upd_upd, ?upd_same; cbn;
    solve [ left; eexists; repeat split; reflexivity
          | right; left; eexists; repeat split; reflexivity
          | right; right; do 4 eexists; repeat split; reflexivity
          | right; do 2 eexists; split; [reflexivity|]; left; split; reflexivity
          | right; do 2 eexists; split; [reflexivity|]; right; split; reflexivity ].
Qed.

End LedgerCalls.

Section Agents.
Context {L : IERC20}.
Variable this : address.

(** X21.  [approveMaintenance] succeeds exactly when the caller is an authorized
    agent, the request slot is [Pending], the amount lies in [1 .. 500_000000]
    and the contractor is not the zero address (the estimate is not
    consulted); it then sets the amount, the contractor and the status
    [Approved] on that request, keeps its other fields, and changes no other
    request, no escrow and no ledger balance. *)
Theorem approveMaintenance_outcome s e t requestId approvedAmount contractor :
  let o := exec this e (ApproveMaintenance requestId approvedAmount contractor) s t in
  let request := maintenanceRequests s requestId in
  let request' := maintenanceRequests (storage_after o s) requestId in
  (succeeded o = true <->
     authorizedAIAgents s (msg_sender e) = true /\
     MaintenanceRequest.status request = Pending /\
     0 < approvedAmount <= 500000000 /\
     contractor <> address0) /\
  (succeeded o = true ->
     request' = MaintenanceRequest.mk
                  (MaintenanceRequest.propertyId request)
                  (MaintenanceRequest.requestedBy request)
                  (MaintenanceRequest.description request)
                  (MaintenanceRequest.estimatedCost request)
                  approvedAmount contractor Approved
                  (MaintenanceRequest.createdAt request) /\
     (forall r, r <> requestId ->
        maintenanceRequests (storage_after o s) r = maintenanceRequests s r) /\
     maintenanceFunds (storage_after o s) = maintenanceFunds s /\
     ledger_after o t = t /\
     ops_of o = [] /\
     events_of o = [MaintenanceApproved requestId approvedAmount contractor]).
Proof.
  intros o request request'. subst o request request'. unfold exec.
  destruct (run (dispatch this e (ApproveMaintenance requestId approvedAmount contractor)) s t)
    as [[v m] | x] eqn:H.
  - unfold dispatch, run, approveMaintenance in H. monad_inv H. cbn.
    apply MaintenanceStatus_eqb_eq in Hreq0. apply Z.ltb_lt in Hreq1.
    apply negb_true_iff in Hreq2. apply Z.eqb_neq in Hreq2.
    apply Z.leb_le in Hreq3. change autoApprovalLimit with 500000000 in Hreq3.
    split.
    + split; [intros _ | reflexivity]. repeat split; assumption.
    + intros _. rewrite ?upd_upd, ?upd_same. cbn.
      split; [reflexivity|]. split; [|repeat split; reflexivity].
      intros r Hr. rewrite !upd_other by exact Hr. reflexivity.
  - cbn. split; [|discriminate]. split; [discriminate|].
    intros (Ha & Hp & [Hlo Hhi] & Hc). exfalso.
    apply MaintenanceStatus_eqb_eq in Hp. apply Z.ltb_lt in Hlo.
    assert (Hhi' : (approvedAmount <=? autoApprovalLimit) = true)
      by (apply Z.leb_le; exact Hhi).
    apply Z.eqb_neq in Hc.
    assert (Hgo : exists m, run (dispatch this e
                    (ApproveMaintenance requestId approvedAmount contractor)) s t
                  = Ok (None, m)).
    { eexists. unfold run, dispatch, returning_nothing, approveMaintenance.
      repeat fwd; try first [reflexivity | absurd_branch];
        exfalso;
        match goal with Hx : negb _ = false |- _ => rewrite Hc in Hx; discriminate Hx end. }
    destruct Hgo as [m Hgo]. congruence.
Qed.

(** X22.  [setAIAgent] succeeds exactly when the caller is the contract owner and
    the agent is not the zero address; it then sets that address's
    authorization and no other, and a revocation takes effect at once: every
    [approveMaintenance] and [checkRentOverdue] sent by the revoked address
    fails. *)
Theorem setAIAgent_takes_effect s e t agent authorized :
  let o := exec this e (SetAIAgent agent authorized) s t in
  let s1 := storage_after o s in
  (succeeded o = true <-> msg_sender e = owner s /\ agent <> address0) /\
  (succeeded o = true ->
     authorizedAIAgents s1 agent = authorized /\
     (forall a, a <> agent -> authorizedAIAgents s1 a = authorizedAIAgents s a) /\
     (authorized = false ->
        forall e' t', msg_sender e' = agent ->
          (forall requestId approvedAmount contractor,
             succeeded (exec this e' (ApproveMaintenance requestId approvedAmount contractor)
                             s1 t') = false) /\
          (forall leaseId,
             succeeded (exec this e' (CheckRentOverdue leaseId) s1 t') = false))).
Proof.
  intros o s1. subst o s1.
  destruct (run (dispatch this e (SetAIAgent agent authorized)) s t) as [[v m] | x] eqn:H.
  - assert (Ho : exec this e (SetAIAgent agent authorized) s t
                 = Success v (storage m) (token m) (emitted m) (issued m))
      by (unfold exec; rewrite H; reflexivity).
    rewrite Ho. clear Ho. cbn [succeeded storage_after].
    unfold dispatch, run, setAIAgent in H. monad_inv H. storage_simpl.
    apply Z.eqb_eq in Hif. apply negb_true_iff in Hreq. apply Z.eqb_neq in Hreq.
    split.
    + split; [intros _ | reflexivity]. split; [symmetry; exact Hif | exact Hreq].
    + intros _. rewrite upd_same.
      split; [reflexivity|].
      split; [intros a Ha; rewrite upd_other by exact Ha; reflexivity|].
      intros -> e' t' He'. split.
      * intros requestId approvedAmount contractor.
        fails_with Hrun.
        match goal with
        | Hx : upd _ _ _ _ = true |- _ => rewrite ?He', upd_same in Hx; discriminate Hx
        end.
      * intros leaseId.
        fails_with Hrun;
          match goal with
          | Hx : upd _ _ _ _ = true |- _ => rewrite ?He', upd_same in Hx; discriminate Hx
          end.
  - assert (Ho : exec this e (SetAIAgent agent authorized) s t = Reverted x)
      by (unfold exec; rewrite H; reflexivity).
    rewrite Ho. clear Ho. cbn [succeeded].
    split; [|discriminate]. split; [discriminate|].
    intros [Ho Ha]. exfalso.
    assert (Ho' : (owner s =? msg_sender e) = true) by (apply Z.eqb_eq; congruence).
    apply Z.eqb_neq in Ha.
    assert (Hgo : exists m, run (dispatch this e (SetAIAgent agent authorized)) s t
                            = Ok (None, m)).
    { eexists. unfold run, dispatch, returning_nothing, setAIAgent.
      repeat fwd; try first [reflexivity | absurd_branch];
        exfalso;
        match goal with Hx : negb _ = false |- _ => rewrite Ha in Hx; discriminate Hx end. }
    destruct Hgo as [m Hgo]. congruence.
Qed.

End Agents.

(** * The contract's balance covers what it owes *)

Lemma sum_below_ext f g n :
  (forall i, (i < n)%nat -> f (Z.of_nat i) = g (Z.of_nat i)) ->
  sum_below f n = sum_below g n.
Proof.
  induction n as [| n IH]; intro H; cbn; [reflexivity|].
  rewrite IH by (intros i Hi; apply H; lia). rewrite H by lia. reflexivity.
Qed.

Lemma sum_below_upd f k v n :
  sum_below (upd f k v) n
  = sum_below f n + (if (0 <=? k) && (k <? Z.of_nat n) then v - f k else 0).
Proof.
  induction n as [| n IH].
  - cbn [sum_below]. change (Z.of_nat 0) with 0.
    destruct (Z.leb_spec 0 k); destruct (Z.ltb_spec k 0); cbn [andb]; lia.
  - cbn [sum_below]. rewrite IH. unfold upd.
    destruct (Z.leb_spec 0 k); destruct (Z.ltb_spec k (Z.of_nat n));
      destruct (Z.ltb_spec k (Z.of_nat (S n)));
      destruct (Z.eqb_spec (Z.of_nat n) k) as [Hk | Hk];
      try rewrite Hk; cbn [andb]; lia.
Qed.

Lemma sum_below_upd_field {V : Type} (g : V -> Z) (m : mapping V) k v n :
  sum_below (fun l => g (upd m k v l)) n
  = sum_below (fun l => g (m l)) n
    + (if (0 <=? k) && (k <? Z.of_nat n) then g v - g (m k) else 0).
Proof.
  rewrite <- sum_below_upd. apply sum_below_ext. intros i _.
  unfold upd. destruct (Z.of_nat i =? k); reflexivity.
Qed.

Lemma in_range_allocated counter k :
  0 <= counter ->
  (0 <=? k) && (k <? Z.of_nat (Z.to_nat counter)) = true <-> allocated counter k.
Proof.
  intro H. rewrite Z2Nat.id by exact H. unfold allocated.
  rewrite andb_true_iff, Z.leb_le, Z.ltb_lt. reflexivity.
Qed.

Lemma out_of_range_not_allocated counter k :
  0 <= counter ->
  (0 <=? k) && (k <? Z.of_nat (Z.to_nat counter)) = false -> ~ allocated counter k.
Proof.
  intros H E Ha. apply (in_range_allocated counter k H) in Ha. congruence.
Qed.

Lemma sum_below_grow f counter :
  0 <= counter ->
  sum_below f (Z.to_nat (counter + 1)) = sum_below f (Z.to_nat counter) + f counter.
Proof.
  intro H. replace (Z.to_nat (counter + 1)) with (S (Z.to_nat counter)) by lia.
  cbn [sum_below]. rewrite Z2Nat.id by exact H. reflexivity.
Qed.

Lemma sum_below_upd_twice {V : Type} (g : V -> Z) (m : mapping V) k a b n :
  sum_below (fun l => g (upd (upd m k a) k b l)) n
  = sum_below (fun l => g (m l)) n
    + (if (0 <=? k) && (k <? Z.of_nat n) then g b - g (m k) else 0).
Proof.
  rewrite <- sum_below_upd_field. apply sum_below_ext. intros i _.
  rewrite upd_upd. reflexivity.
Qed.

(** An account that has granted no allowance cannot be pulled from. *)
Lemma mock_pull_needs_allowance this spender to value t :
  no_self_allowance this t -> 0 < value ->
  mock_transferFrom spender this to value t = Threw.
Proof.
  intros Hno Hv. unfold mock_transferFrom. rewrite (Hno spender).
  rewrite MAX_UINT256_value. cbn. apply Z.ltb_lt in Hv. rewrite Hv. reflexivity.
Qed.

Section Backing.
Variable this : address.

Lemma held_nonneg s l : WellFormed this s -> 0 <= Lease.securityDepositHeld (leases s l).
Proof.
  intro W. destruct (allocated_dec (leaseCounter s) l) as [Hl | Hl].
  - destruct (wf_leases _ _ W l Hl) as (_ & Hp & _ & _ & _ & [[_ Hh] | [_ Hh]]); rewrite Hh.
    + destruct (wf_properties _ _ W _ Hp) as (_ & _ & Hd). lia.
    + lia.
  - rewrite (blank_lease_held _ (wf_blank_leases _ _ W l Hl)). lia.
Qed.

(** Balances of the contract after its own ledger calls. *)
Ltac balance_facts :=
  repeat match goal with
         | Hc : _ = Returned true _ |- _ =>
             first [ pose proof (transferFrom_moves (L := MockLedger) _ _ _ _ _ _ Hc this)
                   | pose proof (transfer_moves (L := MockLedger) _ _ _ _ _ Hc this) ];
             clear Hc
         end;
  cbn [balanceOf MockLedger] in *; rewrite ?Z.eqb_refl in *.

(** [returnSecurityDeposit]: what leaves is the deposit that was held. *)
Ltac return_case W Hargs :=
  rewrite sum_below_upd_twice; rewrite ?upd_same; cbn;
  match goal with
  | |- context [Lease.securityDepositHeld (leases ?s0 ?l)] =>
      pose proof (held_nonneg s0 l W)
  end;
  destruct Hargs as [_ [Hd0 _]];
  repeat match goal with
         | Hx : (0 <? _) = true |- _ => apply Z.ltb_lt in Hx
         | Hx : (0 <? _) = false |- _ => apply Z.ltb_ge in Hx
         end;
  balance_facts;
  repeat match goal with
         | Hx : context [this =? ?x] |- _ => destruct (this =? x)
         end;
  match goal with
  | |- context [if ?b then _ else _] =>
      let Er := fresh "Er" in
      destruct b eqn:Er;
      [ lia
      | apply out_of_range_not_allocated in Er; [|lia];
        pose proof (blank_lease_held _ (wf_blank_leases _ _ W _ Er)); lia ]
  end.

Lemma contract_step_backed s t e c :
  mock_reachable this s t -> external_caller this e -> call_in_range c ->
  escrowed s <= balances t this ->
  escrowed (storage_after (exec (L := MockLedger) this e c s t) s)
  <= balances (ledger_after (exec (L := MockLedger) this e c s t) t) this.
Proof.
  intros Hm [He0 Het] Hargs Hb.
  pose proof (mock_reachable_storage this s t Hm) as Hr.
  pose proof (reachable_inv this s Hr) as I.
  pose proof (reachable_wf this s Hr) as W.
  pose proof (mock_reachable_no_self_allowance this s t Hm) as Hno.
  destruct (wf_counters _ _ W) as (Cp & Cl & Cm).
  unfold exec.
  destruct (run (L := MockLedger) (dispatch this e c) s t) as [[v m] | x] eqn:H; cbn;
    [|exact Hb].
  unfold escrowed in *.
  step_cases H c; cbn; try exact Hb.
  - (* registerProperty: the new property's escrow is empty *)
    rewrite sum_below_grow by lia.
    rewrite (wf_blank_funds _ _ W) by (unfold allocated; lia). lia.
  - (* createLease: the deposit came in from another account *)
    rewrite sum_below_grow by lia. rewrite sum_below_upd_field, upd_same. cbn.
    match goal with
    | |- context [if ?b then _ else _] => destruct b eqn:Er
    end.
    { apply in_range_allocated in Er; [unfold allocated in Er|]; lia. }
    pose proof (inv_deposits _ _ I _ Hreq0) as Hpos.
    assert (Hne : tenant <> this).
    { intros ->. rewrite (mock_pull_needs_allowance this this this _ t Hno Hpos) in Hcall.
      discriminate. }
    balance_facts. apply Z.eqb_neq in Hne. rewrite Z.eqb_sym in Hne. rewrite Hne in *. lia.
  - (* payRent: from the tenant to the owner, past the contract *)
    rewrite sum_below_upd_twice. rewrite ?upd_same. cbn.
    match goal with
    | Hc : mock_transferFrom _ _ (Property.owner (properties _ ?p)) _ _ = _ |- _ =>
        pose proof (inv_not_self_owned _ _ I p) as Hown
    end.
    balance_facts.
    apply Z.eqb_neq in Het, Hown. rewrite Z.eqb_sym in Het, Hown. rewrite Het, Hown in *.
    match goal with
    | |- context [if ?b then _ else _] => destruct b
    end; lia.
  - (* fundMaintenance: the credit came in from the caller *)
    rewrite sum_below_upd. apply Z.ltb_lt in Hreq0.
    balance_facts.
    apply Z.eqb_neq in Het. rewrite Z.eqb_sym in Het. rewrite Het in *.
    match goal with
    | |- context [if ?b then _ else _] => destruct b
    end; lia.
  - (* payMaintenanceContractor: the debit is what leaves *)
    rewrite sum_below_upd.
    pose proof (inv_approved_nonneg _ _ I requestId) as Hnn.
    apply Z.leb_le in Hreq1.
    balance_facts.
    match goal with
    | |- context [if ?b then _ else _] => destruct b eqn:Er
    end.
    + destruct (this =? _); lia.
    + apply out_of_range_not_allocated in Er; [|lia].
      rewrite (wf_blank_funds _ _ W _ Er) in Hreq1.
      destruct (this =? _); lia.
  - return_case W Hargs.
  - return_case W Hargs.
  - return_case W Hargs.
  - return_case W Hargs.
Qed.

(** A call some other account makes on the token never lowers the contract's
    balance. *)
Lemma token_step_keeps_balance t sender c :
  no_self_allowance this t -> sender <> this -> 0 <= token_value c ->
  balances t this <= balances (mock_call sender c t) this.
Proof.
  intros Hno Hs Hv. destruct c as [sp v | to v | from to v | to v | v]; cbn in *.
  - destruct ((sender =? address0) || (sp =? address0)); cbn; lia.
  - destruct (mock_transfer sender to v t) as [[|] t' |] eqn:E; cbn; try lia.
    + pose proof (transfer_moves (L := MockLedger) _ _ _ _ _ E this) as Hb. cbn in Hb.
      apply Z.eqb_neq in Hs. rewrite Z.eqb_sym in Hs. rewrite Hs in Hb.
      destruct (this =? to); lia.
    + unfold mock_transfer, mock_update in E.
      repeat match type of E with
             | (if ?b then _ else _) = _ => destruct b; try discriminate
             end.
  - destruct (mock_transferFrom sender from to v t) as [[|] t' |] eqn:E; cbn; try lia.
    + pose proof (transferFrom_moves (L := MockLedger) _ _ _ _ _ _ E this) as Hb. cbn in Hb.
      destruct (Z.eqb_spec this from) as [<- | Hne].
      * destruct (Z.eq_dec v 0) as [-> | Hv0]; [destruct (this =? to); lia|].
        rewrite (mock_pull_needs_allowance this sender to v t Hno) in E by lia.
        discriminate.
      * destruct (this =? to); lia.
    + unfold mock_transferFrom, mock_update in E.
      repeat match type of E with
             | (if ?b then _ else _) = _ => destruct b; try discriminate
             end.
  - destruct (to =? address0); cbn; [lia|]. unfold upd.
    destruct (Z.eqb_spec this to) as [<- | _]; lia.
  - destruct (balances t sender <? v); cbn; [lia|]. unfold upd.
    apply Z.eqb_neq in Hs. rewrite Z.eqb_sym in Hs. rewrite Hs. lia.
Qed.

Lemma mock_step_reachable s t x :
  mock_reachable this s t -> valid_step this x ->
  mock_reachable this (fst (mock_step this (s, t) x)) (snd (mock_step this (s, t) x)).
Proof.
  intros Hm Hx. destruct x as [e c | sender c]; cbn in *.
  - apply mock_contract_step; [exact Hm | apply Hx].
  - apply mock_token_step; [exact Hm | apply Hx | apply Hx].
Qed.

Lemma mock_step_backed s t x :
  mock_reachable this s t -> valid_step this x ->
  escrowed s <= balances t this ->
  escrowed (fst (mock_step this (s, t) x)) <= balances (snd (mock_step this (s, t) x)) this.
Proof.
  intros Hm Hx Hb. destruct x as [e c | sender c]; cbn in *.
  - destruct Hx as [He Hc]. apply contract_step_backed; assumption.
  - destruct Hx as [Hs Hv].
    pose proof (token_step_keeps_balance t sender c
                  (mock_reachable_no_self_allowance this s t Hm) Hs Hv).
    lia.
Qed.

Lemma mock_replay_backed steps : forall s t,
  mock_reachable this s t -> Forall (valid_step this) steps ->
  escrowed s <= balances t this ->
  mock_reachable this (fst (mock_replay this s t steps)) (snd (mock_replay this s t steps)) /\
  escrowed (fst (mock_replay this s t steps))
  <= balances (snd (mock_replay this s t steps)) this.
Proof.
  induction steps as [| x rest IH]; intros s t Hm Hall Hb; cbn.
  - split; assumption.
  - inversion Hall as [| ? ? Hx Hrest]; subst.
    unfold mock_replay in IH. cbn [fold_left].
    pose proof (mock_step_reachable s t x Hm Hx) as Hm'.
    pose proof (mock_step_backed s t x Hm Hx Hb) as Hb'.
    destruct (mock_step this (s, t) x) as [s1 t1]. cbn [fst snd] in *.
    apply IH; assumption.
Qed.

(** X23.  The contract deployed on MockUSDC always holds what it owes: after any
    run of transactions sent to the contract and calls made on the token by
    external accounts, with arguments in range, from a deployment at an address
    that has granted no allowance, the contract's token balance is at least the
    sum of all maintenance escrows and all held security deposits. *)
Theorem escrow_is_backed deployer t0 steps :
  this <> address0 -> deployer <> address0 -> deployer <> this ->
  no_self_allowance this t0 ->
  0 <= balances t0 this ->
  Forall (valid_step this) steps ->
  let s := fst (mock_replay this (initial_storage deployer) t0 steps) in
  let t := snd (mock_replay this (initial_storage deployer) t0 steps) in
  escrowed s <= balances t this.
Proof.
  intros Hthis Hd Hdt Hno Hb0 Hall s t. subst s t.
  apply mock_replay_backed; [apply mock_deployed; assumption | exact Hall | exact Hb0].
Qed.

End Backing.

Lemma sum_below_nonneg f n : (forall i, 0 <= f i) -> 0 <= sum_below f n.
Proof.
  intro H. induction n as [| n IH]; cbn; [lia|]. pose proof (H (Z.of_nat n)). lia.
Qed.

Lemma term_le_sum_below f n k :
  (forall i, 0 <= f i) -> 0 <= k < Z.of_nat n -> f k <= sum_below f n.
Proof.
  intros H. induction n as [| n IH]; intro Hk; [lia|]. cbn [sum_below].
  destruct (Z.eq_dec k (Z.of_nat n)) as [-> | Hne].
  - pose proof (sum_below_nonneg f n H). lia.
  - pose proof (H (Z.of_nat n)) as Hn. assert (Hk' : 0 <= k < Z.of_nat n) by lia.
    specialize (IH Hk'). lia.
Qed.

Section Payable.
Variable this : address.

(** What one escrow entry, or one held deposit, asks of the contract's
    balance. *)
Lemma escrow_entry_backed s t p :
  reachable (L := MockLedger) this s ->
  escrowed s <= balances t this ->
  maintenanceFunds s p <= balances t this.
Proof.
  intros Hr Hb.
  pose proof (reachable_inv this s Hr) as I. pose proof (reachable_wf this s Hr) as W.
  destruct (wf_counters _ _ W) as (Cp & Cl & Cm).
  assert (Hh : 0 <= sum_below (fun l => Lease.securityDepositHeld (leases s l))
                              (Z.to_nat (leaseCounter s))).
  { apply sum_below_nonneg. intro l. apply (held_nonneg this s l W). }
  assert (Hf : 0 <= sum_below (maintenanceFunds s) (Z.to_nat (propertyCounter s))).
  { apply sum_below_nonneg. intro q. apply (inv_funds _ _ I q). }
  unfold escrowed in Hb.
  destruct (allocated_dec (propertyCounter s) p) as [Hp | Hp].
  - pose proof (term_le_sum_below (maintenanceFunds s) (Z.to_nat (propertyCounter s)) p
                  (fun q => proj1 (inv_funds _ _ I q))) as Hle.
    unfold allocated in Hp. rewrite Z2Nat.id in Hle by lia. specialize (Hle Hp). lia.
  - rewrite (wf_blank_funds _ _ W p Hp). lia.
Qed.

Lemma held_deposit_backed s t l :
  reachable (L := MockLedger) this s ->
  escrowed s <= balances t this ->
  Lease.securityDepositHeld (leases s l) <= balances t this.
Proof.
  intros Hr Hb.
  pose proof (reachable_inv this s Hr) as I. pose proof (reachable_wf this s Hr) as W.
  destruct (wf_counters _ _ W) as (Cp & Cl & Cm).
  assert (Hf : 0 <= sum_below (maintenanceFunds s) (Z.to_nat (propertyCounter s))).
  { apply sum_below_nonneg. intro q. apply (inv_funds _ _ I q). }
  assert (Hh : 0 <= sum_below (fun l => Lease.securityDepositHeld (leases s l))
                              (Z.to_nat (leaseCounter s))).
  { apply sum_below_nonneg. intro q. apply (held_nonneg this s q W). }
  unfold escrowed in Hb.
  destruct (allocated_dec (leaseCounter s) l) as [Hl | Hl].
  - pose proof (term_le_sum_below (fun l => Lease.securityDepositHeld (leases s l))
                  (Z.to_nat (leaseCounter s)) l (fun q => held_nonneg this s q W)) as Hle.
    unfold allocated in Hl. rewrite Z2Nat.id in Hle by lia. specialize (Hle Hl). cbn in Hle. lia.
  - rewrite (blank_lease_held _ (wf_blank_leases _ _ W l Hl)). lia.
Qed.

Lemma mock_transfer_goes_through sender to value t :
  sender <> address0 -> to <> address0 -> value <= balances t sender ->
  exists t', mock_transfer sender to value t = Returned true t'.
Proof.
  intros Hs Ht Hv. unfold mock_transfer, mock_update.
  apply Z.eqb_neq in Hs, Ht. rewrite Hs, Ht.
  destruct (Z.ltb_spec (balances t sender) value); [lia|]. eexists. reflexivity.
Qed.

(** X24.  On MockUSDC no payout can get stuck: after any such run, an [Approved]
    request whose property's escrow covers the approved amount is paid
    successfully when the property owner or an authorized agent calls
    [payMaintenanceContractor]. *)
Theorem approved_request_is_payable deployer t0 steps e requestId :
  this <> address0 -> deployer <> address0 -> deployer <> this ->
  no_self_allowance this t0 ->
  0 <= balances t0 this ->
  Forall (valid_step this) steps ->
  let s := fst (mock_replay this (initial_storage deployer) t0 steps) in
  let t := snd (mock_replay this (initial_storage deployer) t0 steps) in
  let request := maintenanceRequests s requestId in
  let propertyId := MaintenanceRequest.propertyId request in
  MaintenanceRequest.status request = Approved ->
  msg_sender e = Property.owner (properties s propertyId) \/
  authorizedAIAgents s (msg_sender e) = true ->
  MaintenanceRequest.approvedAmount request <= maintenanceFunds s propertyId ->
  succeeded (exec (L := MockLedger) this e (PayMaintenanceContractor requestId) s t) = true.
Proof.
  intros Hthis Hd Hdt Hno Hb0 Hall s t request propertyId Hst Hwho Hfunds.
  destruct (mock_replay_backed this steps (initial_storage deployer) t0
              (mock_deployed this deployer t0 Hthis Hd Hdt Hno) Hall Hb0) as [Hm Hb].
  fold s in Hm, Hb. fold t in Hm, Hb.
  pose proof (mock_reachable_storage this s t Hm) as Hr.
  pose proof (reachable_inv this s Hr) as I. pose proof (reachable_wf this s Hr) as W.
  pose proof (wf_decisions _ _ W requestId) as Hdec.
  unfold decision_ok in Hdec. fold request in Hdec. rewrite Hst in Hdec.
  destruct Hdec as [[Hpos _] Hcon].
  pose proof (escrow_entry_backed s t propertyId Hr Hb) as Hbal.
  destruct (mock_transfer_goes_through this (MaintenanceRequest.contractor request)
              (MaintenanceRequest.approvedAmount request) t Hthis Hcon) as [t' Ht']; [lia|].
  assert (Hgo : exists m, run (L := MockLedger)
                  (dispatch this e (PayMaintenanceContractor requestId)) s t = Ok (None, m)).
  { pose proof (inv_entered _ _ I) as Hent.
    apply MaintenanceStatus_eqb_eq in Hst.
    assert (Hwho' : (msg_sender e =? Property.owner (properties s propertyId))
                    || authorizedAIAgents s (msg_sender e) = true).
    { apply orb_true_iff. destruct Hwho as [Ho | Ha]; [left; apply Z.eqb_eq | right]; assumption. }
    apply Z.leb_le in Hfunds.
    subst request propertyId.
    eexists. unfold run, dispatch, returning_nothing, payMaintenanceContractor.
    repeat fwd; try first [reflexivity | absurd_branch].
    rewrite upd_same. cbn [MaintenanceRequest.contractor MaintenanceRequest.set_status].
    erewrite (step_transfer_true (L := MockLedger)) by (storage_simpl; exact Ht').
    repeat fwd; reflexivity. }
  destruct Hgo as [m Hgo]. unfold exec. rewrite Hgo. reflexivity.
Qed.

(** X25.  On MockUSDC no deposit can get stuck: after any such run, for a created
    lease that is [Completed] or past its end date, [returnSecurityDeposit]
    called by the property owner or an authorized agent with a deduction
    between 0 and the held deposit succeeds. *)
Theorem held_deposit_is_refundable deployer t0 steps e leaseId deductionAmount :
  this <> address0 -> deployer <> address0 -> deployer <> this ->
  no_self_allowance this t0 ->
  0 <= balances t0 this ->
  Forall (valid_step this) steps ->
  let s := fst (mock_replay this (initial_storage deployer) t0 steps) in
  let t := snd (mock_replay this (initial_storage deployer) t0 steps) in
  let lease := leases s leaseId in
  allocated (leaseCounter s) leaseId ->
  msg_sender e = Property.owner (properties s (Lease.propertyId lease)) \/
  authorizedAIAgents s (msg_sender e) = true ->
  Lease.status lease = LeaseCompleted \/ Lease.endDate lease < block_timestamp e ->
  0 <= deductionAmount <= Lease.securityDepositHeld lease ->
  succeeded (exec (L := MockLedger) this e (ReturnSecurityDeposit leaseId deductionAmount) s t)
  = true.
Proof.
  intros Hthis Hd Hdt Hno Hb0 Hall s t lease Hl Hwho Hwhen [Hd0 Hd1].
  destruct (mock_replay_backed this steps (initial_storage deployer) t0
              (mock_deployed this deployer t0 Hthis Hd Hdt Hno) Hall Hb0) as [Hm Hb].
  fold s in Hm, Hb. fold t in Hm, Hb.
  pose proof (mock_reachable_storage this s t Hm) as Hr.
  pose proof (reachable_inv this s Hr) as I. pose proof (reachable_wf this s Hr) as W.
  destruct (wf_leases _ _ W leaseId Hl) as (Hten & Hp & _).
  destruct (wf_properties _ _ W _ Hp) as (Hown & _).
  pose proof (held_deposit_backed s t leaseId Hr Hb) as Hbal.
  fold lease in Hten, Hp, Hown, Hbal.
  set (owner := Property.owner (properties s (Lease.propertyId lease))) in *.
  set (held := Lease.securityDepositHeld lease) in *.
  destruct (mock_transfer_goes_through this (Lease.tenant lease) (held - deductionAmount) t
              Hthis Hten) as [t1 Ht1]; [lia|].
  destruct (mock_transfer_goes_through this owner deductionAmount t Hthis Hown)
    as [t2 Ht2]; [lia|].
  pose proof (transfer_moves (L := MockLedger) _ _ _ _ _ Ht1 this) as Hb1.
  cbn [balanceOf MockLedger] in Hb1. rewrite Z.eqb_refl in Hb1.
  destruct (mock_transfer_goes_through this owner deductionAmount t1 Hthis Hown)
    as [t3 Ht3]; [destruct (this =? Lease.tenant lease); lia|].
  assert (Hgo : exists m, run (L := MockLedger)
                  (dispatch this e (ReturnSecurityDeposit leaseId deductionAmount)) s t
                = Ok (None, m)).
  { pose proof (inv_entered _ _ I) as Hent.
    assert (Hwho' : (msg_sender e =? owner) || authorizedAIAgents s (msg_sender e) = true).
    { apply orb_true_iff. destruct Hwho as [Ho | Ha]; [left; apply Z.eqb_eq | right]; assumption. }
    assert (Hwhen' : LeaseStatus_eqb (Lease.status lease) LeaseCompleted
                     || (Lease.endDate lease <? block_timestamp e) = true).
    { apply orb_true_iff.
      destruct Hwhen as [Hc | Hn]; [left; apply LeaseStatus_eqb_eq | right; apply Z.ltb_lt];
        assumption. }
    apply Z.leb_le in Hd1.
    subst lease owner held.
    destruct (0 <? Lease.securityDepositHeld (leases s leaseId) - deductionAmount) eqn:Er;
      destruct (0 <? deductionAmount) eqn:Ed;
      (eexists; unfold run, dispatch, returning_nothing, returnSecurityDeposit;
       repeat first
         [ fwd
         | progress (rewrite ?upd_upd, ?upd_same;
                     cbn [Lease.tenant Lease.propertyId Lease.set_status
                          Lease.set_securityDepositHeld]);
           erewrite (step_transfer_true (L := MockLedger)) by (storage_simpl; eassumption) ];
       first [absurd_branch | reflexivity]). }
  destruct Hgo as [m Hgo]. unfold exec. rewrite Hgo. reflexivity.
Qed.

End Payable.


(** The steps of [mixed_run] are taken by external accounts, with arguments in
    range. *)
Lemma mixed_run_valid : Forall (valid_step RENTFLOW) mixed_run.
Proof.
  unfold mixed_run. cbn [map app funded_approved fst snd].
  repeat constructor; cbn; unfold in_uint256;
    try (intro Hx; discriminate Hx);
    try (split; vm_compute; intro Hx; discriminate Hx).
Defined.

(** X23, instance: the run with a mint in the middle: 2750 units owed, 2755
    held. *)
Lemma escrow_is_backed_witness :
  let s := fst (mock_replay RENTFLOW (initial_storage OWNER) funded_ledger mixed_run) in
  let t := snd (mock_replay RENTFLOW (initial_storage OWNER) funded_ledger mixed_run) in
  escrowed s = usdc 2750 /\ balances t RENTFLOW = usdc 2755 /\
  escrowed s <= balances t RENTFLOW.
Proof.
  intros s t.
  split; [vm_compute; reflexivity|]. split; [vm_compute; reflexivity|].
  apply (escrow_is_backed RENTFLOW OWNER funded_ledger mixed_run).
  - discriminate.
  - discriminate.
  - discriminate.
  - intro spender. reflexivity.
  - vm_compute. discriminate.
  - exact mixed_run_valid.
Defined.

(** X24, instance: the approved request of 150 units, paid by the agent. *)
Lemma approved_request_is_payable_witness :
  let s := fst (mock_replay RENTFLOW (initial_storage OWNER) funded_ledger mixed_run) in
  let t := snd (mock_replay RENTFLOW (initial_storage OWNER) funded_ledger mixed_run) in
  MaintenanceRequest.status (maintenanceRequests s 0) = Approved /\
  succeeded (exec RENTFLOW (at_time AI_AGENT 300) (PayMaintenanceContractor 0) s t) = true.
Proof.
  intros s t. split; [reflexivity|].
  apply (approved_request_is_payable RENTFLOW OWNER funded_ledger mixed_run
           (at_time AI_AGENT 300) 0).
  - discriminate.
  - discriminate.
  - discriminate.
  - intro spender. reflexivity.
  - vm_compute. discriminate.
  - exact mixed_run_valid.
  - reflexivity.
  - right. reflexivity.
  - vm_compute. discriminate.
Defined.

(** X25, instance: the deposit of 2500 units, settled after the end of the lease
    with a deduction of 500. *)
Lemma held_deposit_is_refundable_witness :
  let s := fst (mock_replay RENTFLOW (initial_storage OWNER) funded_ledger mixed_run) in
  let t := snd (mock_replay RENTFLOW (initial_storage OWNER) funded_ledger mixed_run) in
  Lease.securityDepositHeld (leases s 0) = usdc 2500 /\
  succeeded (exec RENTFLOW (at_time PROPERTY_OWNER (lease_end + 1))
                  (ReturnSecurityDeposit 0 (usdc 500)) s t) = true.
Proof.
  intros s t. split; [reflexivity|].
  apply (held_deposit_is_refundable RENTFLOW OWNER funded_ledger mixed_run
           (at_time PROPERTY_OWNER (lease_end + 1)) 0 (usdc 500)).
  - discriminate.
  - discriminate.
  - discriminate.
  - intro spender. reflexivity.
  - vm_compute. discriminate.
  - exact mixed_run_valid.
  - unfold allocated. vm_compute. split; [discriminate | reflexivity].
  - left. reflexivity.
  - right. vm_compute. reflexivity.
  - split; vm_compute; discriminate.
Defined.

(** * What rent payments record *)

Section RentHistory.
Context {L : IERC20}.
Variable this : address.

Lemma step_rent_history s e c t :
  external_caller this e ->
  WellFormed this s ->
  (forall l, allocated (leaseCounter s) l -> rent_history_ok s (leases s l)) ->
  forall l, allocated (leaseCounter (storage_after (exec this e c s t) s)) l ->
            rent_history_ok (storage_after (exec this e c s t) s)
                            (leases (storage_after (exec this e c s t) s) l).
Proof.
  intros [He0 Het] W I l. unfold exec.
  destruct (run (dispatch this e c) s t) as [[v m] | r] eqn:H; cbn; [|apply I].
  destruct (wf_counters _ _ W) as (Cp & Cl & Cm).
  step_cases H c; cbn; try apply I; intro Hl; rewrite ?upd_upd, ?upd_same;
    unfold rent_history_ok; cbn.
  - (* registerProperty: the property of a lease is older *)
    destruct (I l Hl) as (k & K0 & K1 & K2 & K3).
    destruct (wf_leases _ _ W l Hl) as (_ & Hp & _).
    unfold allocated in Hp. rewrite upd_other by lia.
    exists k. auto.
  - (* deactivateProperty keeps the rent *)
    destruct (I l Hl) as (k & K0 & K1 & K2 & K3).
    exists k. split; [exact K0|]. split; [|auto].
    match goal with
    | |- context [upd _ ?q _ ?x] =>
        destruct (Z.eq_dec x q) as [E | E];
          [rewrite E, upd_same; cbn; rewrite <- E | rewrite upd_other by assumption]
    end; exact K1.
  - (* createLease: nothing paid yet *)
    upd_split l.
    + exists 0. cbn. repeat split; lia.
    + apply I. unfold allocated in *. lia.
  - (* payRent: one more rent, paid now, within the term *)
    upd_split l; [|exact (I l Hl)].
    destruct (I _ Hl) as (k & K0 & K1 & K2 & K3).
    apply Z.leb_le in Hreq1, Hreq2.
    exists (k + 1). split; [lia|]. split; [rewrite K1; lia|]. split; [lia|].
    intros _. lia.
  - upd_split l; [|exact (I l Hl)]. exact (I _ Hl).
  - upd_split l; [|exact (I l Hl)]. exact (I _ Hl).
  - upd_split l; [|exact (I l Hl)]. exact (I _ Hl).
  - upd_split l; [|exact (I l Hl)]. exact (I _ Hl).
Qed.

Lemma reachable_rent_history s :
  reachable this s ->
  forall l, allocated (leaseCounter s) l -> rent_history_ok s (leases s l).
Proof.
  induction 1 as [deployer Hthis Hd Hdt | s e c t Hr IH Hext].
  - intros l Hl. unfold allocated in Hl. cbn in Hl. lia.
  - apply step_rent_history; [assumption | apply reachable_wf; assumption | assumption].
Qed.

(** X26.  The [totalPaid] of a created lease is a whole number of its property's
    monthly rents; while that number is zero [lastPaymentDate] is zero, and
    once it is positive [lastPaymentDate] lies within the term of the lease. *)
Theorem rent_history_well_formed s l :
  reachable this s ->
  allocated (leaseCounter s) l ->
  exists payments,
    0 <= payments /\
    Lease.totalPaid (leases s l)
      = payments * Property.monthlyRent (properties s (Lease.propertyId (leases s l))) /\
    (payments = 0 -> Lease.lastPaymentDate (leases s l) = 0) /\
    (0 < payments ->
       Lease.startDate (leases s l) <= Lease.lastPaymentDate (leases s l)
       <= Lease.endDate (leases s l)).
Proof.
  intros Hr Hl. exact (reachable_rent_history s Hr l Hl).
Qed.

End RentHistory.

(** X26, instance: the lease after two rent payments. *)
Lemma rent_history_well_formed_witness :
  let s := fst (scenario (leased ++ [(at_time TENANT 200, PayRent 0);
                                       (at_time TENANT 300, PayRent 0)])) in
  reachable RENTFLOW s /\ allocated (leaseCounter s) 0 /\
  Lease.totalPaid (leases s 0) = usdc 5000 /\
  Lease.lastPaymentDate (leases s 0) = 300 /\
  exists payments,
    0 <= payments /\
    Lease.totalPaid (leases s 0)
      = payments * Property.monthlyRent (properties s (Lease.propertyId (leases s 0))).
Proof.
  intro s.
  assert (R : reachable RENTFLOW s) by (apply scenario_reachable; reflexivity).
  assert (A : allocated (leaseCounter s) 0)
    by (unfold allocated; vm_compute; split; [discriminate | reflexivity]).
  split; [exact R|]. split; [exact A|].
  split; [vm_compute; reflexivity|]. split; [vm_compute; reflexivity|].
  destruct (rent_history_well_formed (L := MockLedger) RENTFLOW s 0 R A)
    as (k & K0 & K1 & _).
  exists k. split; assumption.
Defined.

(** * Pulls need an allowance *)

Section Pulls.
Variable this : address.

(** What MockUSDC has checked of a [transferFrom] it confirmed. *)
Lemma mock_pull_was_allowed spender from to value t t' :
  mock_transferFrom spender from to value t = Returned true t' ->
  from <> address0 /\ to <> address0 /\ value <= balances t from /\
  (allowances t from spender = MAX_UINT256 \/ value <= allowances t from spender).
Proof.
  unfold mock_transferFrom, mock_update.
  destruct (Z.eqb_spec (allowances t from spender) MAX_UINT256) as [Hmax | Hmax].
  - destruct (Z.eqb_spec from address0); [discriminate|].
    destruct (Z.eqb_spec to address0); [discriminate|].
    destruct (Z.ltb_spec (balances t from) value); [discriminate|].
    intros _. auto.
  - destruct (Z.ltb_spec (allowances t from spender) value); [discriminate|].
    destruct ((from =? address0) || (spender =? address0)); [discriminate|].
    cbn [balances].
    destruct (Z.eqb_spec from address0); [discriminate|].
    destruct (Z.eqb_spec to address0); [discriminate|].
    destruct (Z.ltb_spec (balances t from) value); [discriminate|].
    intros _. auto.
Qed.

(** X27.  On MockUSDC the contract can pull tokens only with the consent of the
    account it debits: whenever a transaction issues a [transferFrom] (the
    deposit of [createLease], the rent of [payRent], the funding of
    [fundMaintenance]), that account held the amount and had approved the
    contract for at least the amount beforehand. *)
Theorem pulls_need_allowance s e c t from to amount :
  In (OpTransferFrom from to amount) (ops_of (exec (L := MockLedger) this e c s t)) ->
  amount <= balances t from /\
  (allowances t from this = MAX_UINT256 \/ amount <= allowances t from this) /\
  from <> address0 /\ to <> address0.
Proof.
  unfold exec.
  destruct (run (L := MockLedger) (dispatch this e c) s t) as [[v m] | x] eqn:H; cbn;
    [|intros []].
  step_cases H c; cbn; intro Hin;
    repeat match goal with
           | Hi : _ \/ _ |- _ => destruct Hi as [Hi | Hi]
           | Hi : False |- _ => destruct Hi
           end; try discriminate;
    inversion Hin; subst;
    match goal with
    | Hc : mock_transferFrom _ _ _ _ _ = Returned true _ |- _ =>
        apply mock_pull_was_allowed in Hc; destruct Hc as (H1 & H2 & H3 & H4)
    end; auto.
Qed.

End Pulls.

(** X27, instance: the deposit pulled from the tenant, who has approved the
    contract. *)
Lemma pulls_need_allowance_witness :
  let s := fst (scenario registered) in
  let t := snd (scenario registered) in
  let o := exec RENTFLOW (at_time PROPERTY_OWNER 100) (CreateLease 0 TENANT 100 12 1) s t in
  ops_of o = [OpTransferFrom TENANT RENTFLOW (usdc 2500)] /\
  usdc 2500 <= balances t TENANT /\
  (allowances t TENANT RENTFLOW = MAX_UINT256 \/ usdc 2500 <= allowances t TENANT RENTFLOW).
Proof.
  intros s t o.
  assert (Hops : ops_of o = [OpTransferFrom TENANT RENTFLOW (usdc 2500)])
    by (vm_compute; reflexivity).
  split; [exact Hops|].
  assert (Hin : In (OpTransferFrom TENANT RENTFLOW (usdc 2500)) (ops_of o))
    by (rewrite Hops; left; reflexivity).
  destruct (pulls_need_allowance RENTFLOW s _ _ t TENANT RENTFLOW (usdc 2500) Hin)
    as (H1 & H2 & _).
  split; assumption.
Defined.
